(** * pianobarfly: the recorder and tagger

    A shallow embedding of the recorder ([fly.c], [fly.h]) and of the MP4 tag
    editor ([fly_mp4.c]) of pianobarfly, with the properties of the
    specification stated and settled against it.

    Conventions.
    - A C string ([char const*]) is the Rocq [string] of its bytes up to, and
      not including, the terminating NUL.
    - [short unsigned] is a [nat] printed in decimal; [size_t] and [long] are
      [Z] with the wrap-around of a 64-bit machine ([LP64]) written out.
    - A byte ([uint8_t]) is a [Z] in [0, 256).
    - A function that returns a status [int] returns a [Z] (0, -1 or -2). *)

From Stdlib Require Import ZArith List Bool Lia Arith.
From Stdlib Require Import Ascii String.
From Stdlib Require Import DecimalString.
Import ListNotations.

(** ** Path building: [_BarFlyNameTranslate] and [_BarFlyFileGetPath] *)

Module Path.

Local Open Scope string_scope.

(** [BAR_FLY_NAME_LENGTH] of [fly.h]: the length of the buffers for the
    artist, album and title. *)
Definition BAR_FLY_NAME_LENGTH : nat := 256.

(** The part of [BarSettings_t] the recorder reads. *)
Record BarSettings_t := {
  audioFileName : string;
  useSpaces : bool;
  embedCover : bool
}.

(** [PianoAudioFormat_t], with a fourth value for every format the recorder
    has no case for. *)
Inductive PianoAudioFormat_t :=
| PIANO_AF_UNKNOWN
| PIANO_AF_AACPLUS
| PIANO_AF_MP3
| PIANO_AF_MP3_HI.

(** The double quote character, byte 34. *)
Definition dquote : ascii := ascii_of_nat 34.

(** The body of the loop of [_BarFlyNameTranslate] for one source byte: the
    bytes it stores in [dest]. *)
Definition translate_char (useSpaces : bool) (c : ascii) : string :=
  if ((c =? "/") || (c =? "\") || (c =? "|") || (c =? ":") || (c =? ";")
      || (c =? "*") || (c =? "`"))%bool%char then String "-" EmptyString
  else if (c =? "<")%char then String "(" EmptyString
  else if (c =? ">")%char then String ")" EmptyString
  else if ((c =? " ")%char && negb useSpaces)%bool then String "_" EmptyString
  else if ((c =? dquote) || (c =? "?"))%bool%char then EmptyString
  else String c EmptyString.

(** [_BarFlyNameTranslate(dest, src, n, settings)]: the string written to
    [dest] (its length is the returned [i2]).  The loop runs to the end of
    [src]; the parameter [n] is never read by the body. *)
Fixpoint _BarFlyNameTranslate (src : string) (n : nat) (settings : BarSettings_t)
  : string :=
  match src with
  | EmptyString => EmptyString
  | String c src' =>
      append (translate_char (useSpaces settings) c)
             (_BarFlyNameTranslate src' n settings)
  end.

(** *** The path pattern *)

(** [strcspn(p, "%")]: the number of bytes before the next ['%']. *)
Fixpoint strcspn_percent (p : string) : nat :=
  match p with
  | EmptyString => 0
  | String c p' => if (c =? "%")%char then 0 else S (strcspn_percent p')
  end.

(** [p + n] on a C string, for [n] at most its length. *)
Fixpoint advance (n : nat) (p : string) : string :=
  match n, p with
  | S n', String _ p' => advance n' p'
  | _, _ => p
  end.

(** The first [n] bytes of [p], what [strncpy(dst, p, n)] copies. *)
Fixpoint take (n : nat) (p : string) : string :=
  match n, p with
  | S n', String c p' => String c (take n' p')
  | _, _ => EmptyString
  end.

(** [strncmp(s1, s2, n) == 0]. *)
Fixpoint strncmp0 (s1 s2 : string) (n : nat) : bool :=
  match n with
  | 0 => true
  | S n' =>
      match s1, s2 with
      | EmptyString, EmptyString => true
      | String a s1', String b s2' =>
          if (a =? b)%char then strncmp0 s1' s2' n' else false
      | _, _ => false
      end
  end.

(** [printf("%hu", v)]. *)
Definition print_hu (v : nat) : string :=
  NilZero.string_of_uint (Nat.to_uint v).

(** [printf("%02hu", v)]: at least two digits, padded with zeros. *)
Definition print_02hu (v : nat) : string :=
  let s := print_hu v in
  if (String.length s <? 2)%nat then String "0" s else s.

Section Pattern.

Variables path_artist path_album path_title : string.
Variables year track disc : nat.

(** The chain of [strncmp] tests at a ['%'] of the pattern: the text that is
    written to the path and the number of pattern bytes that are skipped. *)
Definition substitute (p : string) : string * nat :=
  if strncmp0 "%artist" p 7 then (path_artist, 7)
  else if strncmp0 "%album" p 6 then (path_album, 6)
  else if strncmp0 "%title" p 6 then (path_title, 6)
  else if strncmp0 "%year" p 5 then (print_hu year, 5)
  else if strncmp0 "%track" p 6 then (print_02hu track, 6)
  else if strncmp0 "%disc" p 5 then (print_hu disc, 5)
  else (EmptyString, 1).

(** The second [while] loop of [_BarFlyFileGetPath], which populates the
    buffer; [fuel] bounds the number of iterations. *)
Fixpoint populate (fuel : nat) (file_pattern_ptr : string) : string :=
  match fuel with
  | 0 => EmptyString
  | S fuel' =>
      match file_pattern_ptr with
      | EmptyString => EmptyString
      | String _ _ =>
          let count := strcspn_percent file_pattern_ptr in
          let p1 := advance count file_pattern_ptr in
          append (take count file_pattern_ptr)
            (match p1 with
             | EmptyString => populate fuel' p1
             | String _ _ =>
                 let (text, skipped) := substitute p1 in
                 append text (populate fuel' (advance skipped p1))
             end)
      end
  end.

(** The first [while] loop, which computes [path_length]. *)
Fixpoint measure (fuel : nat) (file_pattern_ptr : string) : nat :=
  match fuel with
  | 0 => 0
  | S fuel' =>
      match file_pattern_ptr with
      | EmptyString => 0
      | String _ _ =>
          let count := strcspn_percent file_pattern_ptr in
          let p1 := advance count file_pattern_ptr in
          count +
            (match p1 with
             | EmptyString => measure fuel' p1
             | String _ _ =>
                 let (text, skipped) := substitute p1 in
                 String.length text + measure fuel' (advance skipped p1)
             end)
      end
  end.

End Pattern.

(** The [switch] on the audio format (with both decoders compiled in). *)
Definition extension (audio_format : PianoAudioFormat_t) : option string :=
  match audio_format with
  | PIANO_AF_AACPLUS => Some ".m4a"
  | PIANO_AF_MP3 | PIANO_AF_MP3_HI => Some ".mp3"
  | PIANO_AF_UNKNOWN => None
  end.

(** A translated name fits its array of [BAR_FLY_NAME_LENGTH] bytes: the
    bytes [_BarFlyNameTranslate] stores and the NUL it adds after them are
    inside the array. *)
Definition fits (name : string) : bool :=
  (String.length name <? BAR_FLY_NAME_LENGTH)%nat.

(** [_BarFlyFileGetPath].  The three names are translated into the arrays
    [path_artist], [path_album] and [path_title] before anything else, and
    [_BarFlyNameTranslate] does not stop at the end of an array: when a
    translated name does not fit, the call writes after the array and has
    no defined result, [None].  Otherwise the result is [Some None], the
    [NULL] of a format the [switch] has no case for or of a [malloc] that
    fails ([allocated] is false), or the path.  Every iteration of the
    loops consumes a byte of the pattern, so its length is fuel enough
    (lemma [populate_fuel]). *)
Definition _BarFlyFileGetPath (artist album title : string)
    (year track disc : nat) (audio_format : PianoAudioFormat_t)
    (settings : BarSettings_t) (allocated : bool) : option (option string) :=
  let path_artist := _BarFlyNameTranslate artist BAR_FLY_NAME_LENGTH settings in
  let path_album := _BarFlyNameTranslate album BAR_FLY_NAME_LENGTH settings in
  let path_title := _BarFlyNameTranslate title BAR_FLY_NAME_LENGTH settings in
  if fits path_artist && fits path_album && fits path_title then
    match extension audio_format with
    | None => Some None
    | Some ext =>
        if allocated then
          let pattern := audioFileName settings in
          Some (Some (append
                        (populate path_artist path_album path_title year track
                           disc (String.length pattern) pattern)
                        ext))
        else Some None
    end
  else None.

(** [p] begins one of the six substitution tokens. *)
Definition begins_token (p : string) : bool :=
  strncmp0 "%artist" p 7 || strncmp0 "%album" p 6 || strncmp0 "%title" p 6
  || strncmp0 "%year" p 5 || strncmp0 "%track" p 6 || strncmp0 "%disc" p 5.

(** No byte of [p] is a ['%']. *)
Fixpoint no_percent (p : string) : bool :=
  match p with
  | EmptyString => true
  | String c p' => negb (c =? "%")%char && no_percent p'
  end.

(** The settings with another path pattern. *)
Definition with_pattern (settings : BarSettings_t) (pattern : string)
  : BarSettings_t :=
  {| audioFileName := pattern;
     useSpaces := useSpaces settings;
     embedCover := embedCover settings |}.

(** [n] copies of the byte [c]. *)
Fixpoint replicate (n : nat) (c : ascii) : string :=
  match n with
  | 0 => EmptyString
  | S n' => String c (replicate n' c)
  end.


(** *** Vocabulary of further properties *)

(** The byte [c] occurs in [s]. *)
Fixpoint occurs (c : ascii) (s : string) : bool :=
  match s with
  | EmptyString => false
  | String a s' => (a =? c)%char || occurs c s'
  end.

(** The bytes [_BarFlyNameTranslate] replaces or drops whatever the
    settings are. *)
Definition unusable : list ascii :=
  ["/"; "\"; "|"; ":"; ";"; "*"; "`"; "<"; ">"; dquote; "?"]%char.

(** The six substitution tokens of the path pattern, their text, and the
    text [_BarFlyFileGetPath] puts in their place. *)
Inductive token := ARTIST | ALBUM | TITLE | YEAR | TRACK | DISC.

Definition token_text (t : token) : string :=
  match t with
  | ARTIST => "%artist"
  | ALBUM => "%album"
  | TITLE => "%title"
  | YEAR => "%year"
  | TRACK => "%track"
  | DISC => "%disc"
  end.

Definition token_value (path_artist path_album path_title : string)
    (year track disc : nat) (t : token) : string :=
  match t with
  | ARTIST => path_artist
  | ALBUM => path_album
  | TITLE => path_title
  | YEAR => print_hu year
  | TRACK => print_02hu track
  | DISC => print_hu disc
  end.

(** [path_length] after the first loop of [_BarFlyFileGetPath] and the
    addition of the length of the extension, the three arrays holding
    [path_artist], [path_album] and [path_title]: [malloc] is called with
    this number plus one. *)
Definition path_length (path_artist path_album path_title : string)
    (year track disc : nat) (pattern ext : string) : nat :=
  measure path_artist path_album path_title year track disc
    (String.length pattern) pattern
  + String.length ext.

(** The three arrays of [_BarFlyFileGetPath] after the translations, when
    each name fits its array. *)
Definition translated (artist album title : string) (settings : BarSettings_t)
  : option (string * string * string) :=
  let path_artist := _BarFlyNameTranslate artist BAR_FLY_NAME_LENGTH settings in
  let path_album := _BarFlyNameTranslate album BAR_FLY_NAME_LENGTH settings in
  let path_title := _BarFlyNameTranslate title BAR_FLY_NAME_LENGTH settings in
  if fits path_artist && fits path_album && fits path_title
  then Some (path_artist, path_album, path_title)
  else None.

End Path.

(** ** The recorder: [fly.h] and [fly.c] *)

Module Fly.

Import Path.
Local Open Scope string_scope.

(** *** Pointers and the recorder structure *)

(** A pointer field of a C structure: [NULL], a pointer to a live object, or
    a pointer whose object has been released ([free], [fclose]).  Releasing
    an object does not assign the field, which still compares unequal to
    [NULL]; only its use has become undefined. *)
Inductive ptr (A : Type) : Type :=
| NULL : ptr A
| Live : A -> ptr A
| Released : ptr A.

Arguments NULL {A}.
Arguments Live {A} _.
Arguments Released {A}.

(** [p != NULL]. *)
Definition not_null {A : Type} (p : ptr A) : bool :=
  match p with
  | NULL => false
  | _ => true
  end.

(** A [FILE]: the stream of the C library on the file descriptor
    [fileno].  What the stream holds is part of the state of the process,
    see [stream] below. *)
Record FILE := { fileno : nat }.

(** [BarFlyStatus_t]. *)
Inductive BarFlyStatus_t :=
| NOT_RECORDING
| NOT_RECORDING_EXIST
| RECORDING
| DELETING
| TAGGING.

(** [BarFly_t]. *)
Record BarFly_t := {
  audio_file : ptr FILE;
  audio_file_path : ptr string;
  audio_format : PianoAudioFormat_t;
  completed : bool;
  artist : string;
  album : string;
  title : string;
  year : nat;
  track : nat;
  disc : nat;
  cover_art_url : ptr string;
  status : BarFlyStatus_t
}.

(** The fields of [PianoSong_t] the recorder reads. *)
Record PianoSong_t := {
  song_artist : string;
  song_album : string;
  song_title : string;
  audioFormat : PianoAudioFormat_t;
  albumDetailURL : string;
  albumExplorerUrl : string
}.

Definition set_audio_file (fly : BarFly_t) (f : ptr FILE) : BarFly_t :=
  {| audio_file := f; audio_file_path := audio_file_path fly;
     audio_format := audio_format fly; completed := completed fly;
     artist := artist fly; album := album fly; title := title fly;
     year := year fly; track := track fly; disc := disc fly;
     cover_art_url := cover_art_url fly; status := status fly |}.

Definition set_audio_file_path (fly : BarFly_t) (p : ptr string) : BarFly_t :=
  {| audio_file := audio_file fly; audio_file_path := p;
     audio_format := audio_format fly; completed := completed fly;
     artist := artist fly; album := album fly; title := title fly;
     year := year fly; track := track fly; disc := disc fly;
     cover_art_url := cover_art_url fly; status := status fly |}.

Definition set_completed (fly : BarFly_t) (b : bool) : BarFly_t :=
  {| audio_file := audio_file fly; audio_file_path := audio_file_path fly;
     audio_format := audio_format fly; completed := b;
     artist := artist fly; album := album fly; title := title fly;
     year := year fly; track := track fly; disc := disc fly;
     cover_art_url := cover_art_url fly; status := status fly |}.

Definition set_cover_art_url (fly : BarFly_t) (u : ptr string) : BarFly_t :=
  {| audio_file := audio_file fly; audio_file_path := audio_file_path fly;
     audio_format := audio_format fly; completed := completed fly;
     artist := artist fly; album := album fly; title := title fly;
     year := year fly; track := track fly; disc := disc fly;
     cover_art_url := u; status := status fly |}.

Definition set_status (fly : BarFly_t) (s : BarFlyStatus_t) : BarFly_t :=
  {| audio_file := audio_file fly; audio_file_path := audio_file_path fly;
     audio_format := audio_format fly; completed := completed fly;
     artist := artist fly; album := album fly; title := title fly;
     year := year fly; track := track fly; disc := disc fly;
     cover_art_url := cover_art_url fly; status := s |}.

Definition set_numbers (fly : BarFly_t) (y t d : nat) : BarFly_t :=
  {| audio_file := audio_file fly; audio_file_path := audio_file_path fly;
     audio_format := audio_format fly; completed := completed fly;
     artist := artist fly; album := album fly; title := title fly;
     year := y; track := t; disc := d;
     cover_art_url := cover_art_url fly; status := status fly |}.

(** *** The file system *)

(** An entry of the file system: the names from the root directory down to
    a file or a directory.  The root directory is the empty list. *)
Definition entry : Type := list string.

Definition same (a b : entry) : bool :=
  if list_eq_dec string_dec a b then true else false.

(** A stream that is open for writing: the file its descriptor refers to
    ([None] once that file has no name any more, after it was unlinked or
    replaced), and the bytes the C library has accepted from [fwrite] and
    not yet handed to the device. *)
Record stream := {
  target : option entry;
  pending : list Z
}.

(** The file system and the streams of the process: the regular files with
    their contents, the directories other than the root, the working
    directory, the number of bytes the device still takes, and the streams
    that are open, by descriptor.  Every directory can be searched and
    written by the process, and a file has one name. *)
Record world := {
  files : list (entry * list Z);
  dirs : list entry;
  cwd : entry;
  space : nat;
  streams : list (nat * stream)
}.

Inductive errno_t :=
| ENOENT | EEXIST | ENOTEMPTY | ENOTDIR | EISDIR | EINVAL | EBUSY
| ENAMETOOLONG | ENOMEM | EXDEV.

Definition set_files (w : world) (fs : list (entry * list Z)) : world :=
  {| files := fs; dirs := dirs w; cwd := cwd w; space := space w;
     streams := streams w |}.

Definition set_dirs (w : world) (ds : list entry) : world :=
  {| files := files w; dirs := ds; cwd := cwd w; space := space w;
     streams := streams w |}.

Definition set_streams (w : world) (ss : list (nat * stream)) : world :=
  {| files := files w; dirs := dirs w; cwd := cwd w; space := space w;
     streams := ss |}.

Definition is_file (w : world) (e : entry) : bool :=
  existsb (fun x => same (fst x) e) (files w).

Definition is_dir (w : world) (e : entry) : bool :=
  match e with
  | [] => true
  | _ :: _ => existsb (same e) (dirs w)
  end.

(** The entry [e] lies in the directory [d]. *)
Definition inside (d e : entry) : bool :=
  match e with
  | [] => false
  | _ :: _ => same (removelast e) d
  end.

(** Some file or directory lies in the directory [d]. *)
Definition has_entries (w : world) (d : entry) : bool :=
  existsb (fun x => inside d (fst x)) (files w) || existsb (inside d) (dirs w).

(** The contents of the file at [e]. *)
Definition file_contents (w : world) (e : entry) : option (list Z) :=
  option_map snd (find (fun x => same (fst x) e) (files w)).

(** *** Path names *)

(** The components of a path name: the strings between its slashes. *)
Fixpoint components (before path : string) : list string :=
  match path with
  | EmptyString => [before]
  | String c path' =>
      if (c =? "/")%char then before :: components EmptyString path'
      else components (before ++ String c EmptyString) path'
  end.

Definition absolute (p : string) : bool :=
  match p with
  | String c _ => (c =? "/")%char
  | EmptyString => false
  end.

(** The limits of [limits.h] on a component and on a path name. *)
Definition NAME_MAX : nat := 255.
Definition PATH_MAX : nat := 4096.

(** A component that names an entry of a directory; the others are the
    empty component and the two dots. *)
Definition proper (c : string) : bool :=
  negb (String.eqb c "") && negb (String.eqb c ".")
  && negb (String.eqb c "..").

(** One step of the resolution of a path name, from the directory [cur]. *)
Definition step (cur : entry) (c : string) : entry :=
  if String.eqb c "" || String.eqb c "." then cur
  else if String.eqb c ".." then removelast cur
  else (cur ++ [c])%list.

(** The resolution of the components [cs] from [cur]: each component is
    looked up in a directory that exists; the entry of the last one may
    not exist. *)
Fixpoint walk (w : world) (cur : entry) (cs : list string)
  : errno_t + entry :=
  match cs with
  | [] => inr cur
  | c :: cs' =>
      if is_dir w cur then
        if (NAME_MAX <? String.length c)%nat then inl ENAMETOOLONG
        else walk w (step cur c) cs'
      else inl (if is_file w cur then ENOTDIR else ENOENT)
  end.

(** The components without the empty ones at the end: the path name
    without its trailing slashes. *)
Fixpoint trim (cs : list string) : list string :=
  match cs with
  | [] => []
  | c :: cs' =>
      match trim cs' with
      | [] => if String.eqb c "" then [] else [c]
      | r => c :: r
      end
  end.

(** The entry a path name stands for, seen from the directory [origin]. *)
Definition place (origin : entry) (p : string) : entry :=
  fold_left step (components "" p) (if absolute p then [] else origin).

(** The resolution of a path name; [trailing] tells whether slashes at its
    end are left out ([mkdir] and [rmdir]) or looked up. *)
Definition resolve (trailing : bool) (w : world) (p : string)
  : errno_t + entry :=
  if String.eqb p "" then inl ENOENT
  else if (PATH_MAX <=? String.length p)%nat then inl ENAMETOOLONG
  else walk w (if absolute p then [] else cwd w)
         (if trailing then components "" p else trim (components "" p)).

(** The last component of a path name, its trailing slashes apart. *)
Definition last_component (p : string) : string :=
  last (trim (components "" p)) "".

Fixpoint ends_with_slash (p : string) : bool :=
  match p with
  | EmptyString => false
  | String c EmptyString => (c =? "/")%char
  | String _ p' => ends_with_slash p'
  end.

(** The index of the last ['/'] of [s]: [strrchr(s, '/')]. *)
Fixpoint strrchr_slash (s : string) : option nat :=
  match s with
  | EmptyString => None
  | String c s' =>
      match strrchr_slash s' with
      | Some i => Some (S i)
      | None => if (c =? "/")%char then Some 0 else None
      end
  end.

(** A path name cut at its last ['/'], [None] when it has none. *)
Definition parent_dir (p : string) : option string :=
  option_map (fun i => take i p) (strrchr_slash p).

(** *** System calls *)

(** A stream whose file loses its name keeps the file, which no path name
    reaches any more. *)
Definition forget (e : entry) (ss : list (nat * stream))
  : list (nat * stream) :=
  map (fun x =>
         match target (snd x) with
         | Some t => if same t e
                     then (fst x, {| target := None;
                                     pending := pending (snd x) |})
                     else x
         | None => x
         end) ss.

(** [unlink(p)]. *)
Definition unlink (p : string) (w : world) : (Z * world) :=
  match resolve true w p with
  | inr e =>
      if is_file w e
      then (0%Z,
            {| files := filter (fun x => negb (same (fst x) e)) (files w);
               dirs := dirs w; cwd := cwd w; space := space w;
               streams := forget e (streams w) |})
      else ((-1)%Z, w)
  | inl _ => ((-1)%Z, w)
  end.

(** [rmdir(p)], with the [errno] of a failure. *)
Definition rmdir (p : string) (w : world) : (Z * option errno_t * world) :=
  match resolve false w p with
  | inl e => ((-1)%Z, Some e, w)
  | inr d =>
      if String.eqb (last_component p) "." then ((-1)%Z, Some EINVAL, w)
      else if String.eqb (last_component p) ".."
      then ((-1)%Z, Some ENOTEMPTY, w)
      else match d with
           | [] => ((-1)%Z, Some EBUSY, w)
           | _ :: _ =>
               if is_dir w d then
                 if has_entries w d then ((-1)%Z, Some ENOTEMPTY, w)
                 else (0%Z, None,
                       set_dirs w (filter (fun x => negb (same x d)) (dirs w)))
               else if is_file w d then ((-1)%Z, Some ENOTDIR, w)
               else ((-1)%Z, Some ENOENT, w)
           end
  end.

(** [mkdir(p, 0755)]. *)
Definition mkdir (p : string) (w : world) : (Z * option errno_t * world) :=
  match resolve false w p with
  | inl e => ((-1)%Z, Some e, w)
  | inr d =>
      if is_dir w d || is_file w d then ((-1)%Z, Some EEXIST, w)
      else if proper (last_component p)
      then (0%Z, None, set_dirs w (d :: dirs w))
      else ((-1)%Z, Some ENOENT, w)
  end.

(** [open(p, O_WRONLY | O_CREAT | O_EXCL, mode)]: the entry of the new
    file. *)
Definition open_excl (p : string) (w : world) : errno_t + (entry * world) :=
  if ends_with_slash p then inl EISDIR
  else match resolve true w p with
       | inl e => inl e
       | inr t =>
           if is_dir w t || is_file w t then inl EEXIST
           else if proper (last_component p)
           then inr (t, set_files w ((t, []) :: files w))
           else inl ENOENT
       end.

(** *** Streams *)

(** What the C library does with the bytes of a stream is its own choice;
    the recorder sets no buffering mode and never flushes.  [transmits]
    tells, from the bytes that are pending and the bytes [fwrite] is given,
    how many of them (the pending ones first) the call hands to the device;
    when the device does not take them all, [reports] is the number of
    bytes [fwrite] counts as written and [retains] what is left pending. *)
Record stdio := {
  transmits : list Z -> list Z -> nat;
  reports : list Z -> list Z -> nat -> nat;
  retains : list Z -> list Z -> nat -> list Z
}.

(** A library that hands the device whole blocks of [block] bytes. *)
Definition block_buffered (block : nat) : stdio :=
  {| transmits := fun held bytes =>
       let n := List.length held + List.length bytes in
       if (n <? block)%nat then 0 else block * (n / block);
     reports := fun held bytes taken => taken - List.length held;
     retains := fun held bytes taken => [] |}.

(** A library that hands the device every byte at once. *)
Definition unbuffered : stdio :=
  {| transmits := fun held bytes => List.length held + List.length bytes;
     reports := fun held bytes taken => taken - List.length held;
     retains := fun held bytes taken => [] |}.

Definition stream_of (w : world) (file : FILE) : option stream :=
  option_map snd (find (fun x => Nat.eqb (fst x) (fileno file)) (streams w)).

(** A descriptor that is not in use. *)
Definition unused (w : world) : nat :=
  S (fold_right Nat.max 0 (map fst (streams w))).

(** [fdopen(fd, "wb")] on the descriptor of the new file [t]. *)
Definition open_stream (t : entry) (w : world) : (FILE * world) :=
  ({| fileno := unused w |},
   set_streams w
     ((unused w, {| target := Some t; pending := [] |}) :: streams w)).

Definition set_pending (file : FILE) (held : list Z) (w : world) : world :=
  set_streams w
    (map (fun x => if Nat.eqb (fst x) (fileno file)
                   then (fst x, {| target := target (snd x);
                                   pending := held |})
                   else x) (streams w)).

Definition remove_stream (file : FILE) (w : world) : world :=
  set_streams w
    (filter (fun x => negb (Nat.eqb (fst x) (fileno file))) (streams w)).

(** The device takes [bytes], at most [space w] of them, for the end of the
    file [t]. *)
Definition device_write (t : option entry) (bytes : list Z) (w : world)
  : world :=
  {| files :=
       match t with
       | Some e =>
           map (fun x => if same (fst x) e
                         then (fst x, (snd x ++ bytes)%list) else x) (files w)
       | None => files w
       end;
     dirs := dirs w; cwd := cwd w;
     space := space w - List.length bytes;
     streams := streams w |}.

(** [fwrite(data, size, nmemb, file)] for a buffer of [size * nmemb] bytes:
    the number of items written.  Nothing happens when [size] or [nmemb] is
    zero.  Otherwise the bytes join the pending ones, the library hands
    the device as many as it chooses, and the call reports [nmemb] items
    unless the device refuses some of these bytes.  [None] when the stream
    is not open. *)
Definition fwrite (libc : stdio) (data : list Z) (size nmemb : nat)
    (file : FILE) (w : world) : option (nat * world) :=
  match stream_of w file with
  | None => None
  | Some s =>
      if Nat.eqb (size * nmemb) 0 then Some (0, w)
      else
        let bytes := firstn (size * nmemb) data in
        let accepted := (pending s ++ bytes)%list in
        let asked :=
          Nat.min (transmits libc (pending s) bytes) (List.length accepted) in
        let taken := Nat.min asked (space w) in
        let w1 := device_write (target s) (firstn taken accepted) w in
        if (asked <=? space w)%nat
        then Some (nmemb, set_pending file (skipn asked accepted) w1)
        else Some (Nat.min (reports libc (pending s) bytes taken)
                           (size * nmemb - 1) / size,
                   set_pending file (retains libc (pending s) bytes taken) w1)
  end.

(** [fclose(file)]: the pending bytes are handed to the device and the
    stream is gone; the result is [EOF], -1, when the device refuses some
    of them.  [None] when the stream is not open. *)
Definition fclose (file : FILE) (w : world) : option (Z * world) :=
  match stream_of w file with
  | None => None
  | Some s =>
      let taken := Nat.min (List.length (pending s)) (space w) in
      let w1 := device_write (target s) (firstn taken (pending s)) w in
      Some ((if (List.length (pending s) <=? space w)%nat
             then 0%Z else (-1)%Z),
            remove_stream file w1)
  end.

(** *** The title in the regular expression of [_BarFlyParseTrackDisc] *)

(** The body of the loop that fills [regex_title], for one byte of the
    title: the bytes it stores. *)
Definition regex_title_char (c : ascii) : string :=
  if ((c =? "^") || (c =? "$") || (c =? "(") || (c =? ")") || (c =? ">")
      || (c =? "<") || (c =? "[") || (c =? "{") || (c =? "\") || (c =? "|")
      || (c =? ".") || (c =? "*") || (c =? "+") || (c =? "&"))%bool%char
  then String "." EmptyString
  else if (c =? "?")%char then EmptyString
  else String c EmptyString.

(** The string in [regex_title] after the loop (the loop runs to the end
    of the title; [index2] is the length of this string). *)
Fixpoint regex_title (title : string) : string :=
  match title with
  | EmptyString => EmptyString
  | String c title' => regex_title_char c ++ regex_title title'
  end.

(** The bytes the loop never stores. *)
Definition regex_escaped : list ascii :=
  ["^"; "$"; "("; ")"; ">"; "<"; "["; "{"; "\"; "|"; "*"; "+"; "&"; "?"]%char.

(** The number of bytes [c] in [s]. *)
Fixpoint count_char (c : ascii) (s : string) : nat :=
  match s with
  | EmptyString => 0
  | String a s' => (if (a =? c)%char then 1 else 0) + count_char c s'
  end.


(** *** Opening and deleting the file *)

(** [_BarFlyFileOpenStream]: [open] with [O_WRONLY | O_CREAT | O_EXCL],
    then [fdopen].  When [fdopen] fails ([fdopened] is false) the
    descriptor is closed and the new file stays. *)
Definition _BarFlyFileOpenStream (path : string) (fdopened : bool)
    (w : world) : (option FILE * option errno_t * world) :=
  match open_excl path w with
  | inl e => (None, Some e, w)
  | inr (t, w1) =>
      if fdopened
      then let (f, w2) := open_stream t w1 in (Some f, None, w2)
      else (None, Some ENOMEM, w1)
  end.

(** The prefixes of [path] that end before each of its ['/'], from the left:
    the values of [dir_path] in the loop of [_BarFlyFileOpen]. *)
Fixpoint slash_prefixes (before path : string) : list string :=
  match path with
  | EmptyString => []
  | String c path' =>
      if (c =? "/")%char
      then before :: slash_prefixes (before ++ String c EmptyString) path'
      else slash_prefixes (before ++ String c EmptyString) path'
  end.

(** The loop of [_BarFlyFileOpen] that creates the parent directories;
    [copied] holds the outcomes of the calls of [asprintf], in their order
    (the calls succeed once the list is used up).  When [mkdir] fails with
    another error than [EEXIST], the message is formatted with three
    conversions and two arguments: the call has no defined result. *)
Fixpoint make_parents (ds : list string) (copied : list bool) (w : world)
  : option (Z * world) :=
  match ds with
  | [] => Some (0%Z, w)
  | d :: ds' =>
      if hd true copied then
        match mkdir d w with
        | (0%Z, _, w') => make_parents ds' (tl copied) w'
        | (_, Some EEXIST, w') => make_parents ds' (tl copied) w'
        | (_, _, _) => None
        end
      else Some ((-1)%Z, w)
  end.

(** [_BarFlyFileOpen]: 0 and the stream, -2 when the file exists, -1 on
    another error. *)
Definition _BarFlyFileOpen (path : string) (copied : list bool)
    (fdopened : bool) (w : world) : option (Z * option FILE * world) :=
  match make_parents (slash_prefixes "" path) copied w with
  | None => None
  | Some (0%Z, w1) =>
      match _BarFlyFileOpenStream path fdopened w1 with
      | (Some f, _, w2) => Some (0%Z, Some f, w2)
      | (None, Some EEXIST, w2) => Some ((-2)%Z, None, w2)
      | (None, _, w2) => Some ((-1)%Z, None, w2)
      end
  | Some (_, w1) => Some ((-1)%Z, None, w1)
  end.

(** The loop of [_BarFlyFileDelete] that removes the empty parent
    directories: cut [dir_path] at its last ['/'], [rmdir] it, and go on
    when that succeeds or fails with [ENOTEMPTY] or [EEXIST].  On another
    error the message is given the function [strerror] for a string: the
    call has no defined result.  Every iteration shortens [dir_path];
    [fuel] bounds their number. *)
Fixpoint delete_parents (fuel : nat) (dir_path : string) (w : world)
  : option (Z * world) :=
  match fuel with
  | 0 => Some (0%Z, w)
  | S fuel' =>
      match parent_dir dir_path with
      | None => Some (0%Z, w)
      | Some d =>
          match rmdir d w with
          | (0%Z, _, w') => delete_parents fuel' d w'
          | (_, Some ENOTEMPTY, w') => delete_parents fuel' d w'
          | (_, Some EEXIST, w') => delete_parents fuel' d w'
          | (_, _, _) => None
          end
      end
  end.

(** [_BarFlyFileDelete]; [duplicated] tells whether [strdup] returns a
    copy of the path.  [None] is the undefined behaviour of reading a path
    that has been released, or of the message above. *)
Definition _BarFlyFileDelete (fly : BarFly_t) (duplicated : bool) (w : world)
  : option (Z * world) :=
  match audio_file_path fly with
  | NULL => Some (0%Z, w)
  | Released => None
  | Live path =>
      match unlink path w with
      | (0%Z, w1) =>
          if duplicated then delete_parents (String.length path) path w1
          else Some ((-1)%Z, w1)
      | (_, w1) => Some ((-1)%Z, w1)
      end
  end.

(** [free] of a pointer field that is not [NULL]: the object is released;
    releasing it twice is undefined. *)
Definition release {A : Type} (p : ptr A) : option (ptr A) :=
  match p with
  | NULL => Some NULL
  | Live _ => Some Released
  | Released => None
  end.

(** [BarFlyClose], for a [fly] that is not [NULL]: the status, the recorder
    and the file system after the call; [None] when the call has undefined
    behaviour.  The result of [fclose] is not looked at. *)
Definition BarFlyClose (fly : BarFly_t) (duplicated : bool) (w : world)
  : option (Z * BarFly_t * world) :=
  let closed :=
    match audio_file fly with
    | NULL => Some (fly, w)
    | Live f =>
        match fclose f w with
        | Some (_, w1) => Some (set_audio_file fly Released, w1)
        | None => None
        end
    | Released => None
    end in
  match closed with
  | None => None
  | Some (fly1, w1) =>
      let deleted :=
        if negb (completed fly1)
        then match _BarFlyFileDelete (set_status fly1 DELETING) duplicated w1
             with
             | None => None
             | Some (st, w') =>
                 Some ((if (st =? 0)%Z then 0%Z else (-1)%Z),
                       set_status fly1 DELETING, w')
             end
        else Some (0%Z, fly1, w1) in
      match deleted with
      | None => None
      | Some (exit_status, fly2, w') =>
          match release (audio_file_path fly2) with
          | None => None
          | Some p =>
              let fly3 := set_audio_file_path fly2 p in
              match release (cover_art_url fly3) with
              | None => None
              | Some u => Some (exit_status, set_cover_art_url fly3 u, w')
              end
          end
      end
  end.

(** [BarFlyWrite], for a buffer [data] of [data_size = length data] bytes;
    [None] when [fly->audio_file] is not an open stream (the [assert], or
    the undefined [fwrite] behind it). *)
Definition BarFlyWrite (libc : stdio) (fly : BarFly_t) (data : list Z)
    (w : world) : option (Z * world) :=
  if negb (completed fly) then
    match audio_file fly with
    | Live f =>
        match fwrite libc data (List.length data) 1 f w with
        | Some (written, w') =>
            if Nat.eqb written 1 then Some (0%Z, w') else Some ((-1)%Z, w')
        | None => None
        end
    | _ => None
    end
  else Some (0%Z, w).

Section Collaborators.

(** The collaborators of the recorder that are not part of it: the HTTP
    client, the regular-expression matching of the album pages, and the two
    container writers (a writer gets a [BarFly_t const*]: it returns a
    status and changes the file system only). *)
Variable _BarFlyFetchURL : string -> option (list Z).
Variable _BarFlyParseYear : list Z -> option nat.
Variable _BarFlyParseCoverArtURL : list Z -> option string.
Variable regexec_track_disc : string -> list Z -> option (nat * nat).
Variable _BarFlyTagMp4Write : BarFly_t -> option (list Z) -> world -> Z * world.
Variable _BarFlyTagID3Write : BarFly_t -> option (list Z) -> world -> Z * world.

(** [_BarFlyParseTrackDisc]: the title is copied to the array
    [regex_title] of [BAR_FLY_NAME_LENGTH] bytes by a loop that runs to the
    end of the title; when it does not fit, the call writes after the array
    and has no defined result.  [regexec_track_disc] stands for the
    matching that follows. *)
Definition _BarFlyParseTrackDisc (title : string) (album_xml : list Z)
  : option (option (nat * nat)) :=
  if fits (regex_title title)
  then Some (regexec_track_disc (regex_title title) album_xml)
  else None.

(** [_BarFlyTagWrite]. *)
Definition _BarFlyTagWrite (fly : BarFly_t) (settings : BarSettings_t)
    (w : world) : (Z * world) :=
  let '(exit_status, cover_art) :=
    match embedCover settings, cover_art_url fly with
    | true, Live url =>
        match _BarFlyFetchURL url with
        | Some cover => (0%Z, Some cover)
        | None => ((-1)%Z, None)
        end
    | _, _ => (0%Z, None)
    end in
  match audio_format fly with
  | PIANO_AF_AACPLUS =>
      let (st, w') := _BarFlyTagMp4Write fly cover_art w in
      if (st =? 0)%Z then (exit_status, w') else ((-1)%Z, w')
  | PIANO_AF_MP3 | PIANO_AF_MP3_HI =>
      let (st, w') := _BarFlyTagID3Write fly cover_art w in
      if (st =? 0)%Z then (exit_status, w') else ((-1)%Z, w')
  | PIANO_AF_UNKNOWN => ((-1)%Z, w)
  end.

(** [BarFlyTag]; [None] when [fly->audio_file] is [NULL] on a recorder that
    is not completed (the [assert]). *)
Definition BarFlyTag (fly : BarFly_t) (settings : BarSettings_t) (w : world)
  : option (Z * BarFly_t * world) :=
  if negb (completed fly) then
    if not_null (audio_file fly) then
      let fly1 := set_status fly TAGGING in
      let (st, w') := _BarFlyTagWrite fly1 settings w in
      Some ((if (st =? 0)%Z then 0%Z else (-1)%Z), set_completed fly1 true, w')
    else None
  else Some (0%Z, fly, w).

(** [memset(&output_fly, 0, sizeof(BarFly_t))] and the copies of the names
    ([strncpy] of [BAR_FLY_NAME_LENGTH] bytes, the last one set to NUL). *)
Definition initial_fly (song : PianoSong_t) : BarFly_t :=
  {| audio_file := NULL; audio_file_path := NULL;
     audio_format := audioFormat song; completed := false;
     artist := take (BAR_FLY_NAME_LENGTH - 1) (song_artist song);
     album := take (BAR_FLY_NAME_LENGTH - 1) (song_album song);
     title := take (BAR_FLY_NAME_LENGTH - 1) (song_title song);
     year := 0; track := 0; disc := 0;
     cover_art_url := NULL; status := NOT_RECORDING |}.

(** The two best-effort scrapes of [BarFlyOpen]: the status so far and the
    temporary structure; [None] when [_BarFlyParseTrackDisc] has no defined
    result. *)
Definition scrape (song : PianoSong_t) : option (Z * BarFly_t) :=
  let fly0 := initial_fly song in
  let '(st1, fly1) :=
    match _BarFlyFetchURL (albumDetailURL song) with
    | None => ((-1)%Z, fly0)
    | Some album_buf =>
        let '(sty, y) :=
          match _BarFlyParseYear album_buf with
          | Some y => (0%Z, y)
          | None => ((-1)%Z, 0)
          end in
        let '(stc, url) :=
          match _BarFlyParseCoverArtURL album_buf with
          | Some url => (sty, Live url)
          | None => ((-1)%Z, NULL)
          end in
        (stc, set_cover_art_url (set_numbers fly0 y 0 0) url)
    end in
  match _BarFlyFetchURL (albumExplorerUrl song) with
  | None => Some ((-1)%Z, fly1)
  | Some album_buf =>
      match _BarFlyParseTrackDisc (song_title song) album_buf with
      | None => None
      | Some (Some (t, d)) => Some (st1, set_numbers fly1 (year fly1) t d)
      | Some None => Some ((-1)%Z, fly1)
      end
  end.

(** [BarFlyOpen]: the status, the structure that is copied to [*fly] when
    the [memcpy] is reached ([None] when [*fly] is not written), and the
    file system; [allocated], [copied] and [fdopened] are the outcomes of
    the [malloc] of the path, of the calls of [asprintf] and of [fdopen].
    The outer [None] is a call without defined result. *)
Definition BarFlyOpen (song : PianoSong_t) (settings : BarSettings_t)
    (allocated : bool) (copied : list bool) (fdopened : bool) (w : world)
  : option (Z * option BarFly_t * world) :=
  match scrape song with
  | None => None
  | Some (exit_status, output_fly) =>
      match _BarFlyFileGetPath (song_artist song) (song_album song)
              (song_title song) (year output_fly) (track output_fly)
              (disc output_fly) (audioFormat song) settings allocated with
      | None => None
      | Some None => Some ((-1)%Z, None, w)
      | Some (Some path) =>
          let output_fly := set_audio_file_path output_fly (Live path) in
          match _BarFlyFileOpen path copied fdopened w with
          | None => None
          | Some (0%Z, Some f, w') =>
              Some (exit_status,
                    Some (set_status (set_audio_file output_fly (Live f))
                            RECORDING),
                    w')
          | Some ((-2)%Z, _, w') =>
              Some (exit_status,
                    Some (set_completed
                            (set_status output_fly NOT_RECORDING_EXIST) true),
                    w')
          | Some (_, _, w') => Some ((-1)%Z, None, w')
          end
      end
  end.


End Collaborators.

(** *** Vocabulary of the properties *)

(** A path name made of names: it is not empty, begins and ends with no
    slash, and has no empty component and no dots. *)
Definition plain (p : string) : bool := forallb proper (components "" p).

(** The file a path name reaches: its entry and its contents. *)
Definition lookup (w : world) (p : string) : option (entry * list Z) :=
  match resolve true w p with
  | inr e => option_map (pair e) (file_contents w e)
  | inl _ => None
  end.

(** A file system as [BarFlyOpen] leaves it after it has created the file
    [Artist/Album/Title.mp3] below the working directory [/music]: the
    three directories, the empty file and its stream. *)
Definition recording_entry : entry := ["music"; "Artist"; "Album"; "Title.mp3"].

Definition recording_world : world :=
  {| files := [(recording_entry, [])];
     dirs := [["music"; "Artist"; "Album"]; ["music"; "Artist"]; ["music"]];
     cwd := ["music"];
     space := 1000;
     streams := [(3, {| target := Some recording_entry; pending := [] |})] |}.

(** The stream of that file, and the file system when the device takes no
    byte any more. *)
Definition recording_stream : stream :=
  {| target := Some recording_entry; pending := [] |}.

Definition full_world : world :=
  {| files := files recording_world; dirs := dirs recording_world;
     cwd := cwd recording_world; space := 0;
     streams := streams recording_world |}.

(** The recorder at that point. *)
Definition recording_fly : BarFly_t :=
  {| audio_file := Live {| fileno := 3 |};
     audio_file_path := Live "Artist/Album/Title.mp3";
     audio_format := PIANO_AF_MP3; completed := false;
     artist := "Artist"; album := "Album"; title := "Title";
     year := 0; track := 0; disc := 0;
     cover_art_url := NULL; status := RECORDING |}.

(** The write handle exists: [fly->audio_file] points to an open stream. *)
Definition handle_exists (fly : BarFly_t) : Prop :=
  exists f : FILE, audio_file fly = Live f.

(** Invariant (c) of the recorder state. *)
Definition handle_iff_recording (fly : BarFly_t) : Prop :=
  handle_exists fly <-> status fly = RECORDING.

(** [d] is one of the directories named in the path [p]: what [dir_path]
    becomes after one or more cuts at the last ['/']. *)
Inductive ancestor (d : string) : string -> Prop :=
| ancestor_parent : forall p, parent_dir p = Some d -> ancestor d p
| ancestor_up : forall p q, parent_dir p = Some q -> ancestor d q -> ancestor d p.

(** Every file and every directory of the file system lies in a directory
    of the file system. *)
Definition well_formed (w : world) : Prop :=
  (forall d : entry, In d (dirs w) -> is_dir w (removelast d) = true)
  /\ (forall e : entry, In e (map fst (files w)) ->
        e <> [] /\ is_dir w (removelast e) = true).

(** The bytes of a stream: those of its file followed by the pending
    ones. *)
Definition stream_contents (w : world) (file : FILE) : option (list Z) :=
  match stream_of w file with
  | Some s =>
      match target s with
      | Some e => option_map (fun c => (c ++ pending s)%list)
                    (file_contents w e)
      | None => None
      end
  | None => None
  end.

End Fly.

(** ** The options of the ID3 tag: [_BarFlyTagID3Write] *)

Module Id3.

Local Open Scope Z_scope.

(** [id3_tag_options(tag, mask, values)] of libid3tag, the library the
    recorder links against: the options selected by [mask] are set to the
    corresponding bits of [values], the other options are kept, and a [mask]
    of zero only reads the options. *)
Definition id3_tag_options (options mask values : Z) : Z :=
  if mask =? 0 then options
  else Z.lor (Z.land options (Z.lnot mask)) (Z.land values mask).

Section Options.

(** The four option bits of [id3tag.h] that the recorder names, and the
    options of the tag that [id3_tag_new] returns. *)
Variables ID3_TAG_OPTION_UNSYNCHRONISATION ID3_TAG_OPTION_APPENDEDTAG
          ID3_TAG_OPTION_CRC ID3_TAG_OPTION_COMPRESSION : Z.
Variable new_tag_options : Z.

(** The options of the tag after the call
    [id3_tag_options(tag, UNSYNCHRONISATION | APPENDEDTAG | CRC | COMPRESSION, 0)]
    of [_BarFlyTagID3Write]. *)
Definition written_tag_options : Z :=
  id3_tag_options new_tag_options
    (Z.lor (Z.lor (Z.lor ID3_TAG_OPTION_UNSYNCHRONISATION
                         ID3_TAG_OPTION_APPENDEDTAG)
                  ID3_TAG_OPTION_CRC)
           ID3_TAG_OPTION_COMPRESSION)
    0.

End Options.

(** An option is enabled when one of its bits is set. *)
Definition enabled (options option : Z) : Prop := Z.land options option <> 0.

(** The values of [id3tag.h]. *)
Definition ID3_TAG_OPTION_UNSYNCHRONISATION : Z := 1.
Definition ID3_TAG_OPTION_COMPRESSION : Z := 2.
Definition ID3_TAG_OPTION_CRC : Z := 4.
Definition ID3_TAG_OPTION_APPENDEDTAG : Z := 16.

End Id3.

(** ** The MP4 tag editor: [fly_mp4.c] *)

Module Mp4.

Local Open Scope Z_scope.

(** *** Machine integers and buffers *)

Definition BAR_FLY_MP4_SHORT_LENGTH : Z := 2.
Definition BAR_FLY_MP4_ATOM_SIZE_LENGTH : Z := 4.
Definition BAR_FLY_MP4_ATOM_NAME_LENGTH : Z := 4.
Definition BAR_FLY_MP4_ATOM_MIN_LENGTH : Z :=
  BAR_FLY_MP4_ATOM_SIZE_LENGTH + BAR_FLY_MP4_ATOM_NAME_LENGTH.
Definition BAR_FLY_MP4_ATOM_CLASS_LENGTH : Z := 4.

Definition BAR_FLY_MP4_ATOM_META_DATA : list Z := [0; 0; 0; 0].
Definition BAR_FLY_MP4_ATOM_HDLR_DATA : list Z :=
  [0; 0; 0; 0; 0; 0; 0; 0;
   109; 100; 105; 114; 97; 112; 112; 108;
   0; 0; 0; 0; 0; 0; 0; 0;
   0].
Definition BAR_FLY_MP4_ATOM_ALBUM_CLASS : list Z := [0; 0; 0; 1].
Definition BAR_FLY_MP4_ATOM_ARTIST_CLASS : list Z := [0; 0; 0; 1].
Definition BAR_FLY_MP4_ATOM_COVER_CLASS : list Z := [0; 0; 0; 21].
Definition BAR_FLY_MP4_ATOM_DISK_CLASS : list Z := [0; 0; 0; 0].
Definition BAR_FLY_MP4_ATOM_TITLE_CLASS : list Z := [0; 0; 0; 1].
Definition BAR_FLY_MP4_ATOM_TRACK_CLASS : list Z := [0; 0; 0; 0].
Definition BAR_FLY_MP4_ATOM_YEAR_CLASS : list Z := [0; 0; 0; 1].

(** [size_t] and [long unsigned]: 64 bits, arithmetic modulo [2^64]. *)
Definition size_t (x : Z) : Z := x mod 2 ^ 64.

(** [long]: the signed value of the low 64 bits. *)
Definition long (x : Z) : Z := (x + 2 ^ 63) mod 2 ^ 64 - 2 ^ 63.

(** [int]: the signed value of the low 32 bits. *)
Definition int (x : Z) : Z := (x + 2 ^ 31) mod 2 ^ 32 - 2 ^ 31.

(** [uint8_t]. *)
Definition uint8_t (x : Z) : Z := x mod 2 ^ 8.

(** [_BarFlyMp4BufToLong]: the loop
    [number |= buffer[index] << 8 * (3 - index)] over the first four bytes
    of the buffer.  A byte is promoted to [int] before it is shifted, so the
    first byte can reach the sign bit, and the [int] is then sign-extended
    to [long]. *)
Definition _BarFlyMp4BufToLong (b0 b1 b2 b3 : Z) : Z :=
  Z.lor (Z.lor (Z.lor (Z.lor 0 (int (Z.shiftl b0 24)))
                      (int (Z.shiftl b1 16)))
               (int (Z.shiftl b2 8)))
        (int (Z.shiftl b3 0)).

(** [_BarFlyMp4LongRender]: [size[index] = lsize >> 8 * (3 - index)], each
    stored as a byte. *)
Definition _BarFlyMp4LongRender (lsize : Z) : list Z :=
  let l := size_t lsize in
  [uint8_t (Z.shiftr l 24); uint8_t (Z.shiftr l 16);
   uint8_t (Z.shiftr l 8); uint8_t (Z.shiftr l 0)].

(** [_BarFlyMp4ShortRender], for a [short unsigned] value. *)
Definition _BarFlyMp4ShortRender (value : Z) : list Z :=
  let v := value mod 2 ^ 16 in
  [uint8_t (Z.shiftr v 8); uint8_t (Z.shiftr v 0)].

(** The bytes of a C string, and the C string held by a buffer of bytes:
    the bytes before the first NUL. *)
Fixpoint bytes_of_string (s : string) : list Z :=
  match s with
  | EmptyString => []
  | String c s' => Z.of_nat (nat_of_ascii c) :: bytes_of_string s'
  end.

Fixpoint string_of_bytes (bs : list Z) : string :=
  match bs with
  | [] => EmptyString
  | b :: bs' =>
      if b =? 0 then EmptyString
      else String (ascii_of_nat (Z.to_nat b)) (string_of_bytes bs')
  end.

(** The bytes [[from, from + len)] of a file; [None] when the file ends
    before (a short [fread]) or [from] is negative (a failed [fseek]). *)
Definition file_range (file : list Z) (from len : Z) : option (list Z) :=
  if (from <? 0) || (len <? 0) then None
  else if from + len <=? Z.of_nat (List.length file)
       then Some (firstn (Z.to_nat len) (skipn (Z.to_nat from) file))
       else None.

(** *** Atoms *)

(** [BarFlyMp4Atom_t].  The children are held by value, in the order of the
    array [children]; [child_count] is their number.  The [parent] pointer
    of an atom is its position: the parent of a child is the atom that
    holds it (see [location] below).  [data = None] is the [NULL] buffer. *)
#[local] Unset Elimination Schemes.
Inductive BarFlyMp4Atom_t : Type :=
| Atom (name : string) (size : Z) (children : list BarFlyMp4Atom_t)
       (data : option (list Z)) (data_size : Z) (offset : Z).
#[local] Set Elimination Schemes.

Definition name (a : BarFlyMp4Atom_t) : string :=
  match a with Atom n _ _ _ _ _ => n end.
Definition size (a : BarFlyMp4Atom_t) : Z :=
  match a with Atom _ s _ _ _ _ => s end.
Definition children (a : BarFlyMp4Atom_t) : list BarFlyMp4Atom_t :=
  match a with Atom _ _ cs _ _ _ => cs end.
Definition data (a : BarFlyMp4Atom_t) : option (list Z) :=
  match a with Atom _ _ _ d _ _ => d end.
Definition data_size (a : BarFlyMp4Atom_t) : Z :=
  match a with Atom _ _ _ _ ds _ => ds end.
Definition offset (a : BarFlyMp4Atom_t) : Z :=
  match a with Atom _ _ _ _ _ o => o end.

(** An atom seen from one of its children: the fields of the parent and the
    siblings before and after the child. *)
Record frame := {
  f_name : string;
  f_size : Z;
  f_before : list BarFlyMp4Atom_t;
  f_after : list BarFlyMp4Atom_t;
  f_data : option (list Z);
  f_data_size : Z;
  f_offset : Z
}.

(** A pointer to an atom: the atom and its chain of parents, the nearest
    first.  An atom with an empty chain has [parent == NULL]. *)
Definition location : Type := BarFlyMp4Atom_t * list frame.

(** The parent atom of a frame, with the child [a] in its place. *)
Definition fill (fr : frame) (a : BarFlyMp4Atom_t) : BarFlyMp4Atom_t :=
  Atom (f_name fr) (f_size fr) (f_before fr ++ a :: f_after fr)
       (f_data fr) (f_data_size fr) (f_offset fr).

(** The top-level atom a location lies in. *)
Fixpoint root (a : BarFlyMp4Atom_t) (chain : list frame) : BarFlyMp4Atom_t :=
  match chain with
  | [] => a
  | fr :: up => root (fill fr a) up
  end.

(** [BarFlyMp4Tag_t]: the top-level atoms and the contents of the MP4 file
    that [mp4_file] reads. *)
Record BarFlyMp4Tag_t := {
  atoms : list BarFlyMp4Atom_t;
  mp4_file : list Z
}.

(** *** Allocation *)

(** The state the editor runs in: the outcomes of the allocations to come
    ([false] for a [NULL] result); when the list is used up every allocation
    succeeds.  A computation returns [None] when the call does not return:
    its behaviour is undefined (an access outside a buffer) or an [assert]
    fails. *)
Definition heap : Type := list bool.

Definition M (A : Type) : Type := heap -> option (A * heap).

Definition ret {A : Type} (x : A) : M A := fun h => Some (x, h).

Definition bind {A B : Type} (c : M A) (k : A -> M B) : M B :=
  fun h => match c h with
           | None => None
           | Some (x, h') => k x h'
           end.

Definition undefined {A : Type} : M A := fun _ => None.

(** [malloc], [calloc], [realloc]: whether the result is not [NULL]. *)
Definition alloc : M bool :=
  fun h => match h with
           | [] => Some (true, [])
           | ok :: h' => Some (ok, h')
           end.

Declare Scope mp4_scope.
Delimit Scope mp4_scope with mp4.
Notation "x <- c ;; k" := (bind c (fun x => k))
  (at level 61, c at next level, right associativity) : mp4_scope.
Notation "' pat <- c ;; k" := (bind c (fun x => match x with pat => k end))
  (at level 61, pat pattern, c at next level, right associativity) : mp4_scope.
Local Open Scope mp4_scope.

(** *** Operations on atoms *)

Definition set_size (a : BarFlyMp4Atom_t) (s : Z) : BarFlyMp4Atom_t :=
  Atom (name a) s (children a) (data a) (data_size a) (offset a).

Definition bump_frame (fr : frame) (delta : Z) : frame :=
  {| f_name := f_name fr; f_size := size_t (f_size fr + delta);
     f_before := f_before fr; f_after := f_after fr;
     f_data := f_data fr; f_data_size := f_data_size fr;
     f_offset := f_offset fr |}.

(** [_BarFlyMp4AtomBumpSize(atom->parent, delta)] seen from [atom]: the
    delta is added to the parent, then to its parent, to the end of the
    chain. *)
Fixpoint bump_chain (chain : list frame) (delta : Z) : list frame :=
  match chain with
  | [] => []
  | fr :: up => bump_frame fr delta :: bump_chain up delta
  end.

(** [_BarFlyMp4AtomBumpSize(atom, delta)]. *)
Definition _BarFlyMp4AtomBumpSize (atom : location) (delta : Z) : location :=
  (set_size (fst atom) (size_t (size (fst atom) + delta)),
   bump_chain (snd atom) delta).

(** [_BarFlyMp4AtomOpen(name, offset, settings)]; [None] is [NULL]. *)
Definition _BarFlyMp4AtomOpen (name : string) (offset : Z)
  : M (option BarFlyMp4Atom_t) :=
  ok <- alloc ;;
  if ok : bool
  then ret (Some (Atom (Path.take 4 name) BAR_FLY_MP4_ATOM_MIN_LENGTH []
                       None 0 offset))
  else ret None.

(** [_BarFlyMp4AtomAddChild(parent, child, settings)]: the status and the
    parent after the call. *)
Definition _BarFlyMp4AtomAddChild (parent : location)
    (child : BarFlyMp4Atom_t) : M (Z * location) :=
  ok <- alloc ;;
  if ok : bool then
    let p := fst parent in
    let parent1 :=
      (Atom (name p) (size p) (children p ++ [child]) (data p) (data_size p)
            (offset p),
       snd parent) in
    ret (0, _BarFlyMp4AtomBumpSize parent1 (size child))
  else ret (-1, parent).

(** The names of the atoms whose data [_BarFlyMp4FileParseAtomData] reads. *)
Definition data_atom_names : list string :=
  ["dref"; "esds"; "ftyp"; "hdlr"; "iods"; "mdhd"; "mvhd"; "smhd"; "stco";
   "stsc"; "stsz"; "stts"; "tkhd"]%string.

Definition name_in (n : string) (names : list string) : bool :=
  existsb (String.eqb n) names.

(** [_BarFlyMp4FileParseAtomData(mp4_file, atom, settings)]: the status and
    the atom after the call.  An atom that was not read from the file has
    the offset -1 and trips the [assert]. *)
Definition _BarFlyMp4FileParseAtomData (mp4_file : list Z)
    (atom : BarFlyMp4Atom_t) : M (Z * BarFlyMp4Atom_t) :=
  match data atom with
  | Some _ => ret (0, atom)
  | None =>
      if 0 <? data_size atom then
        if offset atom =? -1 then undefined
        else if name_in (name atom) data_atom_names then
          if long (offset atom + BAR_FLY_MP4_ATOM_SIZE_LENGTH
                   + BAR_FLY_MP4_ATOM_NAME_LENGTH) <? 0
          then ret (-1, atom)
          else
            ok <- alloc ;;
            if ok : bool then
              match file_range mp4_file
                      (long (offset atom + BAR_FLY_MP4_ATOM_SIZE_LENGTH
                             + BAR_FLY_MP4_ATOM_NAME_LENGTH))
                      (data_size atom) with
              | Some d =>
                  ret (0, Atom (name atom) (size atom) (children atom)
                               (Some d) (data_size atom) (offset atom))
              | None => ret (-1, atom)
              end
            else ret (-1, atom)
        else ret (0, atom)
      else ret (0, atom)
  end.

(** The buffer after [realloc(atom->data, data_size + size)] and the
    [memcpy] of the new bytes at its end.  A [NULL] buffer of an atom with
    [data_size > 0] (the data was left in the file) gives [data_size] bytes
    that are not initialised; they are written as zeros here. *)
Definition extend_data (atom : BarFlyMp4Atom_t) (new : list Z) : list Z :=
  match data atom with
  | Some d => d ++ new
  | None => repeat 0 (Z.to_nat (data_size atom)) ++ new
  end.

(** [_BarFlyMp4AtomAppendData(atom, mp4_file, data, size, settings)] for a
    buffer [new] of [size = length new] bytes: the status and the atom after
    the call. *)
Definition _BarFlyMp4AtomAppendData (atom : location) (mp4_file : list Z)
    (new : list Z) : M (Z * location) :=
  let size_new := Z.of_nat (List.length new) in
  if 0 <? size_new then
    '(status, a) <- _BarFlyMp4FileParseAtomData mp4_file (fst atom) ;;
    if negb (status =? 0) then ret (-1, (a, snd atom))
    else
      ok <- alloc ;;
      if ok : bool then
        let a1 :=
          Atom (name a) (size_t (size a + size_new)) (children a)
               (Some (extend_data a new))
               (size_t (data_size a + size_new)) (offset a) in
        ret (0, (a1, bump_chain (snd atom) size_new))
      else ret (-1, (a, snd atom))
  else ret (0, atom).

(** *** The tag *)

(** [strsep(&path_ptr, ".")], to the end of the path: the names between the
    dots.  The empty path is one empty name. *)
Fixpoint split_path (before path : string) : list string :=
  match path with
  | EmptyString => [before]
  | String c path' =>
      if (c =? ".")%char then before :: split_path EmptyString path'
      else split_path (before ++ String c EmptyString)%string path'
  end.

(** The loops of [_BarFlyMp4TagFindAtom] over an array of atoms: the first
    atom with the name, with the atoms before and after it. *)
Fixpoint find_child (n : string) (cs : list BarFlyMp4Atom_t)
  : option (list BarFlyMp4Atom_t * BarFlyMp4Atom_t * list BarFlyMp4Atom_t) :=
  match cs with
  | [] => None
  | c :: cs' =>
      if String.eqb (name c) n then Some ([], c, cs')
      else match find_child n cs' with
           | Some (before, found, after) => Some (c :: before, found, after)
           | None => None
           end
  end.

(** The parent of the children of [a], seen from the child between
    [before] and [after]. *)
Definition frame_of (a : BarFlyMp4Atom_t)
    (before after : list BarFlyMp4Atom_t) : frame :=
  {| f_name := name a; f_size := size a; f_before := before;
     f_after := after; f_data := data a; f_data_size := data_size a;
     f_offset := offset a |}.

(** The [while] loop of [_BarFlyMp4TagFindAtom] that goes down the children. *)
Fixpoint descend (names : list string) (atom : location) : option location :=
  match names with
  | [] => Some atom
  | n :: names' =>
      match find_child n (children (fst atom)) with
      | None => None
      | Some (before, child, after) =>
          descend names' (child, frame_of (fst atom) before after :: snd atom)
      end
  end.

(** A pointer to an atom of a tag: the location of the atom below its
    top-level atom, and the top-level atoms before and after that one. *)
Record cursor := {
  top_before : list BarFlyMp4Atom_t;
  at_atom : location;
  top_after : list BarFlyMp4Atom_t
}.

(** The top-level atoms of the tag, read back through a cursor. *)
Definition atoms_of (c : cursor) : list BarFlyMp4Atom_t :=
  top_before c ++ root (fst (at_atom c)) (snd (at_atom c)) :: top_after c.

(** [_BarFlyMp4TagFindAtom(tag, path)]; [None] is [NULL].  The path is
    first copied to a buffer of [BAR_FLY_NAME_LENGTH] bytes. *)
Definition _BarFlyMp4TagFindAtom (tag : BarFlyMp4Tag_t) (path : string)
  : option cursor :=
  match split_path EmptyString
          (Path.take (Path.BAR_FLY_NAME_LENGTH - 1) path) with
  | [] => None
  | n :: names =>
      match find_child n (atoms tag) with
      | None => None
      | Some (before, top, after) =>
          match descend names (top, []) with
          | None => None
          | Some l => Some {| top_before := before; at_atom := l;
                              top_after := after |}
          end
      end
  end.

(** The tag with the atom at a cursor replaced. *)
Definition store (tag : BarFlyMp4Tag_t) (c : cursor) (l : location)
  : BarFlyMp4Tag_t :=
  {| atoms := atoms_of {| top_before := top_before c; at_atom := l;
                          top_after := top_after c |};
     mp4_file := mp4_file tag |}.

(** The loop of [_BarFlyMp4TagUpdateOffsets] over the entries of the table,
    [buf] being the buffer from [pos + 4] on: [count] entries of four bytes
    are read, increased by [delta] and written back. *)
Fixpoint adjust_entries (buf : list Z) (count delta : Z) : option (list Z) :=
  if count <=? 0 then Some buf
  else match buf with
       | b0 :: b1 :: b2 :: b3 :: rest =>
           match adjust_entries rest (count - 1) delta with
           | Some rest' =>
               Some (_BarFlyMp4LongRender
                       (_BarFlyMp4BufToLong b0 b1 b2 b3 + delta) ++ rest')
           | None => None
           end
       | _ => None
       end.

(** The data of the [stco] atom after the update: four bytes of version and
    flags, the count, the entries. *)
Definition adjust_offsets (d : list Z) (delta : Z) : option (list Z) :=
  match d with
  | v0 :: v1 :: v2 :: v3 :: c0 :: c1 :: c2 :: c3 :: entries =>
      match adjust_entries entries
              (size_t (_BarFlyMp4BufToLong c0 c1 c2 c3)) delta with
      | Some entries' =>
          Some (v0 :: v1 :: v2 :: v3 :: c0 :: c1 :: c2 :: c3 :: entries')
      | None => None
      end
  | _ => None
  end.

Definition stco_path : string := "moov.trak.mdia.minf.stbl.stco".

(** [_BarFlyMp4TagUpdateOffsets(tag, delta, settings)]: the status and the
    tag after the call. *)
Definition _BarFlyMp4TagUpdateOffsets (tag : BarFlyMp4Tag_t) (delta : Z)
  : M (Z * BarFlyMp4Tag_t) :=
  match _BarFlyMp4TagFindAtom tag stco_path with
  | None => ret (0, tag)
  | Some c =>
      '(status, stco_atom) <-
        _BarFlyMp4FileParseAtomData (mp4_file tag) (fst (at_atom c)) ;;
      if negb (status =? 0) then ret (-1, tag)
      else
        match data stco_atom with
        | None => undefined
        | Some d =>
            match adjust_offsets d delta with
            | None => undefined
            | Some d' =>
                ret (0, store tag c
                          (Atom (name stco_atom) (size stco_atom)
                                (children stco_atom) (Some d')
                                (data_size stco_atom) (offset stco_atom),
                           snd (at_atom c)))
            end
        end
  end.

(** The first part of [_BarFlyMp4TagAddAtom]: the atom is put at the top
    level of the tag when the parent path is empty, and added to the
    children of the atom at the parent path otherwise. *)
Definition attach (tag : BarFlyMp4Tag_t) (parent_path : string)
    (atom : BarFlyMp4Atom_t) : M (Z * BarFlyMp4Tag_t) :=
  match parent_path with
  | EmptyString =>
      ok <- alloc ;;
      if ok : bool
      then ret (0, {| atoms := atoms tag ++ [atom];
                      mp4_file := mp4_file tag |})
      else ret (-1, tag)
  | String _ _ =>
      match _BarFlyMp4TagFindAtom tag parent_path with
      | None => ret (-1, tag)
      | Some parent =>
          '(status, parent') <-
            _BarFlyMp4AtomAddChild (at_atom parent) atom ;;
          if negb (status =? 0) then ret (-1, tag)
          else ret (0, store tag parent parent')
      end
  end.

(** [_BarFlyMp4TagAddAtom(tag, parent_path, atom, update_offsets, settings)]:
    the status and the tag after the call. *)
Definition _BarFlyMp4TagAddAtom (tag : BarFlyMp4Tag_t) (parent_path : string)
    (atom : BarFlyMp4Atom_t) (update_offsets : bool)
  : M (Z * BarFlyMp4Tag_t) :=
  '(status, tag1) <- attach tag parent_path atom ;;
  if negb (status =? 0) then ret (-1, tag1)
  else if update_offsets then
    '(status, tag2) <- _BarFlyMp4TagUpdateOffsets tag1 (size atom) ;;
    if negb (status =? 0) then ret (-1, tag2) else ret (0, tag2)
  else ret (0, tag1).

(** *** Adding metadata *)

(** The atom of a location whose chain is empty. *)
Definition detached (a : BarFlyMp4Atom_t) : location := (a, []).

(** The block of [_BarFlyMp4TagAddMetaAtom] that creates [udta] under
    [moov] when it is missing.  The status of [_BarFlyMp4TagAddAtom] is
    assigned and not tested. *)
Definition add_udta (tag : BarFlyMp4Tag_t) : M (Z * BarFlyMp4Tag_t) :=
  match _BarFlyMp4TagFindAtom tag "moov.udta" with
  | Some _ => ret (0, tag)
  | None =>
      atom <- _BarFlyMp4AtomOpen "udta" (-1) ;;
      match atom with
      | None => ret (-1, tag)
      | Some atom =>
          '(_, tag1) <- _BarFlyMp4TagAddAtom tag "moov" atom true ;;
          ret (0, tag1)
      end
  end.

(** The blocks that create [meta] and [hdlr]: a new atom named [n] with the
    data [d] is added under [parent_path] when [path] finds nothing. *)
Definition add_with_data (tag : BarFlyMp4Tag_t) (path parent_path n : string)
    (d : list Z) : M (Z * BarFlyMp4Tag_t) :=
  match _BarFlyMp4TagFindAtom tag path with
  | Some _ => ret (0, tag)
  | None =>
      atom <- _BarFlyMp4AtomOpen n (-1) ;;
      match atom with
      | None => ret (-1, tag)
      | Some atom =>
          '(status, atom1) <-
            _BarFlyMp4AtomAppendData (detached atom) (mp4_file tag) d ;;
          if negb (status =? 0) then ret (-1, tag)
          else
            '(status, tag1) <-
              _BarFlyMp4TagAddAtom tag parent_path (fst atom1) true ;;
            if negb (status =? 0) then ret (-1, tag1) else ret (0, tag1)
      end
  end.

(** The block that creates [ilst] under [meta]. *)
Definition add_ilst (tag : BarFlyMp4Tag_t) : M (Z * BarFlyMp4Tag_t) :=
  atom <- _BarFlyMp4AtomOpen "ilst" (-1) ;;
  match atom with
  | None => ret (-1, tag)
  | Some atom =>
      '(status, tag1) <- _BarFlyMp4TagAddAtom tag "moov.udta.meta" atom true ;;
      if negb (status =? 0) then ret (-1, tag1) else ret (0, tag1)
  end.

(** The blocks after the one of [udta]: [meta], [hdlr], [ilst]. *)
Definition add_below_udta (tag : BarFlyMp4Tag_t) : M (Z * BarFlyMp4Tag_t) :=
  '(status, tag1) <-
    add_with_data tag "moov.udta.meta" "moov.udta" "meta"
      BAR_FLY_MP4_ATOM_META_DATA ;;
  if negb (status =? 0) then ret (-1, tag1)
  else
    '(status, tag2) <-
      add_with_data tag1 "moov.udta.meta.hdlr" "moov.udta.meta" "hdlr"
        BAR_FLY_MP4_ATOM_HDLR_DATA ;;
    if negb (status =? 0) then ret (-1, tag2) else add_ilst tag2.

(** The first part of [_BarFlyMp4TagAddMetaAtom]: create the [ilst] atom if
    it does not exist. *)
Definition create_ilst (tag : BarFlyMp4Tag_t) : M (Z * BarFlyMp4Tag_t) :=
  match _BarFlyMp4TagFindAtom tag "moov.udta.meta.ilst" with
  | Some _ => ret (0, tag)
  | None =>
      '(status, tag1) <- add_udta tag ;;
      if negb (status =? 0) then ret (-1, tag1) else add_below_udta tag1
  end.

(** The second part: the atom named [n] with its child [data], which holds
    the class, four zero bytes and the value.  [None] when a step fails. *)
Definition build_meta_atom (mp4_file : list Z) (n : string)
    (class value : list Z) : M (option BarFlyMp4Atom_t) :=
  meta_atom <- _BarFlyMp4AtomOpen n (-1) ;;
  match meta_atom with
  | None => ret None
  | Some meta_atom =>
      data_atom <- _BarFlyMp4AtomOpen "data" (-1) ;;
      match data_atom with
      | None => ret None
      | Some data_atom =>
          '(status, d1) <-
            _BarFlyMp4AtomAppendData (detached data_atom) mp4_file
              (firstn (Z.to_nat BAR_FLY_MP4_ATOM_CLASS_LENGTH) class) ;;
          if negb (status =? 0) then ret None
          else
            '(status, d2) <-
              _BarFlyMp4AtomAppendData d1 mp4_file [0; 0; 0; 0] ;;
            if negb (status =? 0) then ret None
            else
              '(status, d3) <- _BarFlyMp4AtomAppendData d2 mp4_file value ;;
              if negb (status =? 0) then ret None
              else
                '(status, m) <-
                  _BarFlyMp4AtomAddChild (detached meta_atom) (fst d3) ;;
                if negb (status =? 0) then ret None
                else ret (Some (fst m))
      end
  end.

Definition ilst_path : string := "moov.udta.meta.ilst".

(** [_BarFlyMp4TagAddMetaAtom(tag, name, class, data, data_size, settings)]
    for a value of [data_size] bytes: the status and the tag after the call.
    The status of the last [_BarFlyMp4TagAddAtom] is assigned and not
    tested. *)
Definition _BarFlyMp4TagAddMetaAtom (tag : BarFlyMp4Tag_t) (n : string)
    (class value : list Z) : M (Z * BarFlyMp4Tag_t) :=
  '(status, tag1) <- create_ilst tag ;;
  if negb (status =? 0) then ret (-1, tag1)
  else
    meta_atom <- build_meta_atom (mp4_file tag1) n class value ;;
    match meta_atom with
    | None => ret (-1, tag1)
    | Some meta_atom =>
        '(_, tag2) <- _BarFlyMp4TagAddAtom tag1 ilst_path meta_atom true ;;
        ret (0, tag2)
    end.

(** The name of an [ilst] atom that begins with the byte [0xA9]. *)
Definition copyright_name (rest : string) : string :=
  String (ascii_of_nat 169) rest.

Definition BarFlyMp4TagAddAlbum (tag : BarFlyMp4Tag_t) (album : string)
  : M (Z * BarFlyMp4Tag_t) :=
  _BarFlyMp4TagAddMetaAtom tag (copyright_name "alb")
    BAR_FLY_MP4_ATOM_ALBUM_CLASS (bytes_of_string album).

Definition BarFlyMp4TagAddArtist (tag : BarFlyMp4Tag_t) (artist : string)
  : M (Z * BarFlyMp4Tag_t) :=
  _BarFlyMp4TagAddMetaAtom tag (copyright_name "ART")
    BAR_FLY_MP4_ATOM_ARTIST_CLASS (bytes_of_string artist).

Definition BarFlyMp4TagAddCoverArt (tag : BarFlyMp4Tag_t) (cover_art : list Z)
  : M (Z * BarFlyMp4Tag_t) :=
  _BarFlyMp4TagAddMetaAtom tag "covr" BAR_FLY_MP4_ATOM_COVER_CLASS cover_art.

Definition BarFlyMp4TagAddDisk (tag : BarFlyMp4Tag_t) (disk : nat)
  : M (Z * BarFlyMp4Tag_t) :=
  _BarFlyMp4TagAddMetaAtom tag "disk" BAR_FLY_MP4_ATOM_DISK_CLASS
    ([0; 0] ++ _BarFlyMp4ShortRender (Z.of_nat disk) ++ [0; 0; 0; 0]).

Definition BarFlyMp4TagAddTitle (tag : BarFlyMp4Tag_t) (title : string)
  : M (Z * BarFlyMp4Tag_t) :=
  _BarFlyMp4TagAddMetaAtom tag (copyright_name "nam")
    BAR_FLY_MP4_ATOM_TITLE_CLASS (bytes_of_string title).

Definition BarFlyMp4TagAddTrack (tag : BarFlyMp4Tag_t) (track : nat)
  : M (Z * BarFlyMp4Tag_t) :=
  _BarFlyMp4TagAddMetaAtom tag "trkn" BAR_FLY_MP4_ATOM_TRACK_CLASS
    ([0; 0] ++ _BarFlyMp4ShortRender (Z.of_nat track) ++ [0; 0; 0; 0]).

Definition BarFlyMp4TagAddYear (tag : BarFlyMp4Tag_t) (year : nat)
  : M (Z * BarFlyMp4Tag_t) :=
  _BarFlyMp4TagAddMetaAtom tag (copyright_name "day")
    BAR_FLY_MP4_ATOM_YEAR_CLASS
    (bytes_of_string (Path.take 4 (Path.print_hu year))).

(** *** Reading the file *)

(** The result of a parse that is bounded by fuel. *)
Inductive parsed (A : Type) : Type :=
| Parsed : A -> parsed A
| ParseError : parsed A
| OutOfFuel : parsed A.

Arguments Parsed {A} _.
Arguments ParseError {A}.
Arguments OutOfFuel {A}.

(** [_BarFlyMp4FileParseAtomSize] at the position [pos]: the size, converted
    from [long] to [size_t]; [None] on a short read or a size below the
    minimum. *)
Definition _BarFlyMp4FileParseAtomSize (mp4_file : list Z) (pos : Z)
  : option Z :=
  match file_range mp4_file pos BAR_FLY_MP4_ATOM_SIZE_LENGTH with
  | Some [b0; b1; b2; b3] =>
      let sz := size_t (_BarFlyMp4BufToLong b0 b1 b2 b3) in
      if sz <? BAR_FLY_MP4_ATOM_MIN_LENGTH then None else Some sz
  | _ => None
  end.

(** [_BarFlyMp4FileParseAtomName] at the position [pos]. *)
Definition _BarFlyMp4FileParseAtomName (mp4_file : list Z) (pos : Z)
  : option string :=
  match file_range mp4_file pos BAR_FLY_MP4_ATOM_NAME_LENGTH with
  | Some bs => Some (string_of_bytes bs)
  | None => None
  end.

Definition container_names : list string :=
  ["dinf"; "mdia"; "minf"; "moov"; "stbl"; "trak"]%string.

Definition payload_names : list string :=
  ["dref"; "esds"; "hdlr"; "iods"; "mdhd"; "mvhd"; "smhd"; "stco"; "stsc";
   "stsz"; "stts"; "tkhd"]%string.

(** The chain of [strcmp] tests of [_BarFlyMp4FileParseAtom]: the data size
    and the size of an atom named [n] whose size in the file is [size_l];
    [None] for an unknown atom. *)
Definition classify (n : string) (size_l : Z) : option (Z * Z) :=
  if name_in n container_names
  then Some (0, BAR_FLY_MP4_ATOM_SIZE_LENGTH + BAR_FLY_MP4_ATOM_NAME_LENGTH)
  else if name_in n payload_names
  then Some (size_t (size_l - BAR_FLY_MP4_ATOM_SIZE_LENGTH
                     - BAR_FLY_MP4_ATOM_NAME_LENGTH), size_l)
  else if String.eqb n "stsd"
  then Some (8, BAR_FLY_MP4_ATOM_SIZE_LENGTH + BAR_FLY_MP4_ATOM_NAME_LENGTH + 8)
  else if String.eqb n "mp4a"
  then Some (28, BAR_FLY_MP4_ATOM_SIZE_LENGTH + BAR_FLY_MP4_ATOM_NAME_LENGTH
                 + 28)
  else None.

(** [_BarFlyMp4FileParseAtom] with the file position at [pos]: the atom and
    the position after it.  [parse_children] is its [while] loop over the
    children, [remaining] bytes of the atom being left. *)
Fixpoint _BarFlyMp4FileParseAtom (fuel : nat) (mp4_file : list Z) (pos : Z)
  : M (parsed (BarFlyMp4Atom_t * Z)) :=
  match fuel with
  | O => ret OutOfFuel
  | S fuel' =>
      match _BarFlyMp4FileParseAtomSize mp4_file pos with
      | None => ret ParseError
      | Some size_l =>
          match _BarFlyMp4FileParseAtomName mp4_file
                  (pos + BAR_FLY_MP4_ATOM_SIZE_LENGTH) with
          | None => ret ParseError
          | Some n =>
              atom <- _BarFlyMp4AtomOpen n pos ;;
              match atom, classify n size_l with
              | Some atom, Some (ds, sz) =>
                  let atom1 :=
                    Atom (name atom) sz (children atom) (data atom) ds
                         (offset atom) in
                  let pos1 := pos + BAR_FLY_MP4_ATOM_MIN_LENGTH + long ds in
                  if pos1 <? 0 then ret ParseError
                  else parse_children fuel' mp4_file pos1 atom1
                         (size_t (size_l - sz))
              | _, _ => ret ParseError
              end
          end
      end
  end
with parse_children (fuel : nat) (mp4_file : list Z) (pos : Z)
       (atom : BarFlyMp4Atom_t) (remaining : Z)
  : M (parsed (BarFlyMp4Atom_t * Z)) :=
  match fuel with
  | O => ret OutOfFuel
  | S fuel' =>
      if 0 <? remaining then
        child <- _BarFlyMp4FileParseAtom fuel' mp4_file pos ;;
        match child with
        | Parsed (child, pos1) =>
            if remaining <? size child then ret ParseError
            else
              '(status, atom1) <-
                _BarFlyMp4AtomAddChild (detached atom) child ;;
              if negb (status =? 0) then ret ParseError
              else parse_children fuel' mp4_file pos1 (fst atom1)
                     (size_t (remaining - size child))
        | ParseError => ret ParseError
        | OutOfFuel => ret OutOfFuel
        end
      else ret (Parsed (atom, pos))
  end.

(** [BarFlyMp4TagOpen] on a file with the given contents. *)
Definition BarFlyMp4TagOpen (fuel : nat) (file : list Z)
  : M (parsed BarFlyMp4Tag_t) :=
  ok_tag <- alloc ;;
  if negb ok_tag then ret ParseError
  else
    ok_path <- alloc ;;
    if negb ok_path then ret ParseError
    else
      match _BarFlyMp4FileParseAtomSize file 0,
            _BarFlyMp4FileParseAtomName file BAR_FLY_MP4_ATOM_SIZE_LENGTH with
      | Some sz, Some n =>
          if negb (String.eqb n "ftyp") then ret ParseError
          else
            let pos :=
              BAR_FLY_MP4_ATOM_MIN_LENGTH
              + long (sz - BAR_FLY_MP4_ATOM_SIZE_LENGTH
                      - BAR_FLY_MP4_ATOM_NAME_LENGTH) in
            if pos <? 0 then ret ParseError
            else
              atom <- _BarFlyMp4FileParseAtom fuel file pos ;;
              match atom with
              | Parsed (atom, _) =>
                  if negb (String.eqb (name atom) "moov") then ret ParseError
                  else
                    '(status, tag) <-
                      _BarFlyMp4TagAddAtom
                        {| atoms := []; mp4_file := file |} "" atom false ;;
                    if negb (status =? 0) then ret ParseError
                    else ret (Parsed tag)
              | ParseError => ret ParseError
              | OutOfFuel => ret OutOfFuel
              end
      | _, _ => ret ParseError
      end.

(** *** Writing the file *)

(** The four bytes [fwrite(atom->name, 1, 4, out_file)] writes: the name
    array is filled with NUL bytes after the name. *)
Definition name_bytes (n : string) : list Z :=
  firstn 4 (bytes_of_string n ++ [0; 0; 0; 0]).

(** [_BarFlyMp4AtomRender]: the bytes written for the atom; [None] when a
    read from the original file fails.  The data that was never read is
    copied from the file at [offset + 8]. *)
Fixpoint _BarFlyMp4AtomRender (in_file : list Z) (atom : BarFlyMp4Atom_t)
  : option (list Z) :=
  match atom with
  | Atom n sz cs d ds off =>
      let payload :=
        if 0 <? ds then
          match d with
          | None =>
              file_range in_file
                (long (off + BAR_FLY_MP4_ATOM_SIZE_LENGTH
                       + BAR_FLY_MP4_ATOM_NAME_LENGTH)) ds
          | Some buf =>
              if Z.of_nat (List.length buf) <? ds then None
              else Some (firstn (Z.to_nat ds) buf)
          end
        else Some [] in
      let rendered_children :=
        (fix render_all (l : list BarFlyMp4Atom_t) : option (list Z) :=
           match l with
           | [] => Some []
           | c :: l' =>
               match _BarFlyMp4AtomRender in_file c, render_all l' with
               | Some x, Some y => Some (x ++ y)
               | _, _ => None
               end
           end) cs in
      match payload, rendered_children with
      | Some p, Some r =>
          Some (_BarFlyMp4LongRender sz ++ name_bytes n ++ p ++ r)
      | _, _ => None
      end
  end.

(** [BarFlyMp4TagWrite]: the contents of the file after the rename; [None]
    when the tag is not written.  The three copies are the bytes before the
    [moov] atom, the rendered [moov] atom, and the bytes after the end of
    the [moov] atom of the original file. *)
Definition BarFlyMp4TagWrite (tag : BarFlyMp4Tag_t) : option (list Z) :=
  match _BarFlyMp4TagFindAtom tag "moov" with
  | None => None
  | Some c =>
      let atom := fst (at_atom c) in
      match file_range (mp4_file tag) 0 (size_t (offset atom)),
            _BarFlyMp4AtomRender (mp4_file tag) atom,
            _BarFlyMp4FileParseAtomSize (mp4_file tag) (offset atom) with
      | Some before, Some rendered, Some atom_size =>
          let pos :=
            offset atom + BAR_FLY_MP4_ATOM_SIZE_LENGTH
            + long (atom_size - BAR_FLY_MP4_ATOM_SIZE_LENGTH) in
          if pos <? 0 then None
          else Some (before ++ rendered ++ skipn (Z.to_nat pos) (mp4_file tag))
      | _, _, _ => None
      end
  end.

(** *** The vocabulary of the properties *)

(** The sum of the recorded sizes of a list of atoms. *)
Fixpoint sum_sizes (cs : list BarFlyMp4Atom_t) : Z :=
  match cs with
  | [] => 0
  | c :: cs' => size c + sum_sizes cs'
  end.

(** What the size of an atom accounts for: the eight bytes of its size and
    name, its payload, and its children. *)
Definition accounted (a : BarFlyMp4Atom_t) : Z :=
  BAR_FLY_MP4_ATOM_MIN_LENGTH + data_size a + sum_sizes (children a).

(** The size accounting holds at an atom and at all atoms below it, in the
    arithmetic of [size_t]. *)
#[local] Unset Elimination Schemes.
Inductive sized : BarFlyMp4Atom_t -> Prop :=
| sized_atom : forall n s cs d ds off,
    s = size_t (BAR_FLY_MP4_ATOM_MIN_LENGTH + ds + sum_sizes cs) ->
    0 <= ds ->
    Forall sized cs ->
    sized (Atom n s cs d ds off).
#[local] Set Elimination Schemes.

(** [a] is the atom [t] or an atom below it. *)
Inductive within (a : BarFlyMp4Atom_t) : BarFlyMp4Atom_t -> Prop :=
| within_here : within a a
| within_child : forall t c, In c (children t) -> within a c -> within a t.

(** The atoms that a sequence of parse, append-data and add-child
    operations builds: a new atom, an atom read from a file, the top-level
    atom after data is appended to, or a child is added to, any atom [a]
    inside it ([chain] being the parents of [a]), and the top-level atoms
    of a tag after an atom is added to it. *)
#[local] Unset Elimination Schemes.
Inductive built : BarFlyMp4Atom_t -> Prop :=
| built_open : forall n off h a h',
    _BarFlyMp4AtomOpen n off h = Some (Some a, h') ->
    built a
| built_parse : forall fuel file pos h a pos' h',
    _BarFlyMp4FileParseAtom fuel file pos h = Some (Parsed (a, pos'), h') ->
    built a
| built_add_child : forall a chain child h status l h',
    built (root a chain) ->
    built child ->
    _BarFlyMp4AtomAddChild (a, chain) child h = Some ((status, l), h') ->
    built (root (fst l) (snd l))
| built_append_data : forall a chain file new h status l h',
    built (root a chain) ->
    _BarFlyMp4AtomAppendData (a, chain) file new h = Some ((status, l), h') ->
    built (root (fst l) (snd l))
| built_tag_add_atom :
    forall tag parent_path atom update_offsets h status tag' h' t,
    (forall x, In x (atoms tag) -> built x) ->
    built atom ->
    _BarFlyMp4TagAddAtom tag parent_path atom update_offsets h
    = Some ((status, tag'), h') ->
    In t (atoms tag') ->
    built t.
#[local] Set Elimination Schemes.

(** [a'] is the atom [a] after additions below it: the name, the data and
    the offset are those of [a], the children of [a] are there in their
    order, each after additions below it, and new children may follow
    them. *)
#[local] Unset Elimination Schemes.
Inductive grown : BarFlyMp4Atom_t -> BarFlyMp4Atom_t -> Prop :=
| grown_atom : forall n s s' cs cs' extra d ds off,
    Forall2 grown cs cs' ->
    grown (Atom n s cs d ds off) (Atom n s' (cs' ++ extra) d ds off).
#[local] Set Elimination Schemes.


(** A string of bytes. *)
Definition bytes (l : list Z) : Prop := Forall (fun b => 0 <= b < 256) l.

(** The 32-bit number that four bytes hold, the first byte being the most
    significant. *)
Definition be32 (b0 b1 b2 b3 : Z) : Z :=
  b0 * 2 ^ 24 + b1 * 2 ^ 16 + b2 * 2 ^ 8 + b3.

(** The four bytes of a 32-bit number, the most significant first. *)
Definition digits (v : Z) : list Z :=
  [(v / 2 ^ 24) mod 2 ^ 8; (v / 2 ^ 16) mod 2 ^ 8; (v / 2 ^ 8) mod 2 ^ 8;
   (v / 2 ^ 0) mod 2 ^ 8].

(** The first [n] entries of four bytes of a buffer. *)
Fixpoint read_entries (n : nat) (buf : list Z) : option (list Z) :=
  match n with
  | O => Some []
  | S n' =>
      match buf with
      | b0 :: b1 :: b2 :: b3 :: rest =>
          match read_entries n' rest with
          | Some es => Some (be32 b0 b1 b2 b3 :: es)
          | None => None
          end
      | _ => None
      end
  end.

(** The entries of a chunk-offset table: after four bytes of version and
    flags and the 32-bit count, that many 32-bit offsets.  [None] for a
    payload that is too short for its count, or whose count does not fit a
    positive [int]. *)
Definition stco_entries (payload : list Z) : option (list Z) :=
  match payload with
  | _ :: _ :: _ :: _ :: c0 :: c1 :: c2 :: c3 :: entries =>
      if be32 c0 c1 c2 c3 <? 2 ^ 31
      then read_entries (Z.to_nat (be32 c0 c1 c2 c3)) entries
      else None
  | _ => None
  end.

(** The payload of an atom: its buffer, or the bytes of the file that the
    buffer will be read from. *)
Definition payload_of (file : list Z) (a : BarFlyMp4Atom_t)
  : option (list Z) :=
  match data a with
  | Some d => Some d
  | None =>
      file_range file
        (long (offset a + BAR_FLY_MP4_ATOM_SIZE_LENGTH
               + BAR_FLY_MP4_ATOM_NAME_LENGTH))
        (data_size a)
  end.

(** The payload of the chunk-offset table that [_BarFlyMp4TagUpdateOffsets]
    finds in the tag. *)
Definition stco_payload (tag : BarFlyMp4Tag_t) : option (list Z) :=
  match _BarFlyMp4TagFindAtom tag stco_path with
  | Some c => payload_of (mp4_file tag) (fst (at_atom c))
  | None => None
  end.



(** *** Sample files *)

(** The bytes of an atom with the given name and contents. *)
Definition box (n : string) (contents : list Z) : list Z :=
  _BarFlyMp4LongRender (8 + Z.of_nat (List.length contents))
  ++ name_bytes n ++ contents.

(** A track whose chunk-offset table has the given entries. *)
Definition sample_trak (entries : list Z) : list Z :=
  box "trak"
    (box "tkhd" [1; 2; 3]
     ++ box "mdia"
          (box "minf"
             (box "stbl"
                (box "stco"
                   ([0; 0; 0; 0]
                    ++ _BarFlyMp4LongRender (Z.of_nat (List.length entries))
                    ++ flat_map _BarFlyMp4LongRender entries))))).

(** A file of one track, the chunks of which are at the offsets 500 and
    900. *)
Definition sample_file : list Z :=
  box "ftyp" [1; 2; 3; 4; 5; 6; 7; 8]
  ++ box "moov" (box "mvhd" [9; 9; 9; 9] ++ sample_trak [500; 900])
  ++ box "mdat" [7; 7; 7; 7; 7].

(** A file of two tracks. *)
Definition two_track_file : list Z :=
  box "ftyp" [1; 2; 3; 4; 5; 6; 7; 8]
  ++ box "moov" (box "mvhd" [9; 9; 9; 9] ++ sample_trak [500; 900]
                 ++ sample_trak [700; 1100])
  ++ box "mdat" [7; 7; 7; 7; 7].


(** The tag that [BarFlyMp4TagOpen] returns for a file, the artist ["A"]
    added to it with the allocations [h], and the file that
    [BarFlyMp4TagWrite] then writes. *)
Definition opened (file : list Z) : BarFlyMp4Tag_t :=
  match BarFlyMp4TagOpen 100 file [] with
  | Some (Parsed tag, _) => tag
  | _ => {| atoms := []; mp4_file := [] |}
  end.

Definition tagged (file : list Z) (h : heap) : option (list Z) :=
  match BarFlyMp4TagAddArtist (opened file) "A" h with
  | Some ((0, tag), _) => BarFlyMp4TagWrite tag
  | _ => None
  end.

(** The file that [tagged] writes, empty when it writes none. *)
Definition written (file : list Z) (h : heap) : list Z :=
  match tagged file h with
  | Some out => out
  | None => []
  end.

(** The entries of the chunk-offset table whose payload begins at the
    offset [pos] of a file. *)
Definition entries_at (file : list Z) (pos : nat) : option (list Z) :=
  stco_entries (skipn pos file).


(** The allocations of a run in which the eighteenth allocation fails, the
    one of the last [_BarFlyMp4AtomAddChild] when an artist is added to the
    tag of [sample_file]; and of a run in which the third fails, the one of
    the buffer of the chunk-offset table while [udta] is attached. *)
Definition last_attachment_fails : heap := repeat true 17 ++ [false].
Definition udta_attachment_fails : heap := [true; true; false].

(** The value and the heap a run returns, [fallback] when it does not
    return. *)
Definition value_of {A : Type} (fallback : A) (r : option (A * heap)) : A :=
  match r with
  | Some (x, _) => x
  | None => fallback
  end.

Definition heap_of {A : Type} (r : option (A * heap)) : heap :=
  match r with
  | Some (_, h) => h
  | None => []
  end.

(** The steps of [_BarFlyMp4TagAddMetaAtom] when the artist ["A"] is added
    to the tag of [sample_file] with the allocations [h]: the tag and the
    heap after [ilst] is there, the atom that is built and the heap after
    it, the tag and the heap after the atom is attached. *)
Definition artist_name : string := copyright_name "ART".

Definition no_atom : BarFlyMp4Atom_t := Atom "" 0 [] None 0 0.

Definition ilst_tag (h : heap) : BarFlyMp4Tag_t :=
  snd (value_of (0, opened sample_file) (create_ilst (opened sample_file) h)).

Definition ilst_heap (h : heap) : heap :=
  heap_of (create_ilst (opened sample_file) h).

Definition artist_atom (h : heap) : BarFlyMp4Atom_t :=
  match
    value_of None
      (build_meta_atom (mp4_file (ilst_tag h)) artist_name
         BAR_FLY_MP4_ATOM_ARTIST_CLASS (bytes_of_string "A") (ilst_heap h))
  with
  | Some a => a
  | None => no_atom
  end.

Definition artist_heap (h : heap) : heap :=
  heap_of
    (build_meta_atom (mp4_file (ilst_tag h)) artist_name
       BAR_FLY_MP4_ATOM_ARTIST_CLASS (bytes_of_string "A") (ilst_heap h)).

Definition artist_tag (h : heap) : BarFlyMp4Tag_t :=
  snd (value_of (0, opened sample_file)
         (_BarFlyMp4TagAddAtom (ilst_tag h) ilst_path (artist_atom h) true
            (artist_heap h))).

Definition artist_tag_heap (h : heap) : heap :=
  heap_of
    (_BarFlyMp4TagAddAtom (ilst_tag h) ilst_path (artist_atom h) true
       (artist_heap h)).

(** The tag and the heap after a new [udta] atom is attached to the [moov]
    atom of [sample_file] with the allocations [h]. *)
Definition udta_atom : BarFlyMp4Atom_t := Atom "udta" 8 [] None 0 (-1).

Definition udta_tag (h : heap) : BarFlyMp4Tag_t :=
  snd (value_of (0, opened sample_file)
         (_BarFlyMp4TagAddAtom (opened sample_file) "moov" udta_atom true h)).

Definition udta_tag_heap (h : heap) : heap :=
  heap_of (_BarFlyMp4TagAddAtom (opened sample_file) "moov" udta_atom true h).


(** A track whose chunk-offset table announces [count] entries and holds
    the given ones, and a file of one such track: three entries are
    announced and two are there. *)
Definition sample_trak_counting (count : Z) (entries : list Z) : list Z :=
  box "trak"
    (box "tkhd" [1; 2; 3]
     ++ box "mdia"
          (box "minf"
             (box "stbl"
                (box "stco"
                   ([0; 0; 0; 0]
                    ++ _BarFlyMp4LongRender count
                    ++ flat_map _BarFlyMp4LongRender entries))))).

Definition short_table_file : list Z :=
  box "ftyp" [1; 2; 3; 4; 5; 6; 7; 8]
  ++ box "moov" (box "mvhd" [9; 9; 9; 9] ++ sample_trak_counting 3 [500; 900])
  ++ box "mdat" [7; 7; 7; 7; 7].


(** The loop of [_BarFlyMp4AtomRender] over the children of an atom: the
    bytes written for them, one after the other. *)
Fixpoint render_children (in_file : list Z) (l : list BarFlyMp4Atom_t)
  : option (list Z) :=
  match l with
  | [] => Some []
  | c :: l' =>
      match _BarFlyMp4AtomRender in_file c, render_children in_file l' with
      | Some x, Some y => Some (x ++ y)
      | _, _ => None
      end
  end.

(** The payload [_BarFlyMp4AtomRender] writes for an atom: its buffer, or
    the bytes of the file when the data was never read. *)
Definition render_payload (in_file : list Z) (atom : BarFlyMp4Atom_t)
  : option (list Z) :=
  if 0 <? data_size atom then
    match data atom with
    | None =>
        file_range in_file
          (long (offset atom + BAR_FLY_MP4_ATOM_SIZE_LENGTH
                 + BAR_FLY_MP4_ATOM_NAME_LENGTH)) (data_size atom)
    | Some buf =>
        if Z.of_nat (List.length buf) <? data_size atom then None
        else Some (firstn (Z.to_nat (data_size atom)) buf)
    end
  else Some [].


(** An atom [hdlr] whose size field holds [ff ff ff ff], after a byte of
    padding: the bytes of a file, and the atom [_BarFlyMp4FileParseAtom]
    reads at the offset 1. *)
Definition huge_hdlr_file : list Z :=
  [0; 255; 255; 255; 255] ++ name_bytes "hdlr".

Definition huge_hdlr : BarFlyMp4Atom_t :=
  Atom "hdlr" (2 ^ 64 - 1) [] None (2 ^ 64 - 9) 1.

End Mp4.
(** ** Writing the ID3 tag to the file: [BarFlyID3WriteFile] of [fly_id3.c] *)

Module Id3File.

Import Path Fly.
Local Open Scope string_scope.

(** [BAR_FLY_COPY_BLOCK_SIZE] of [fly.h]. *)
Definition BAR_FLY_COPY_BLOCK_SIZE : nat := 100 * 1024.

(** [fopen(path, "rb")]: the entry the stream reads.  A directory can be
    opened for reading, and every [fread] on it fails.  [opened] tells
    whether the C library has a stream to give. *)
Definition fopen_read (path : string) (opened : bool) (w : world)
  : option entry :=
  match resolve true w path with
  | inr e => if (is_file w e || is_dir w e) && opened then Some e else None
  | inl _ => None
  end.

(** [fopen(path, "w+b")]: the file is created, or emptied when it exists,
    and a stream is opened on it; the call fails on a directory, when the
    directory of the path does not exist, and when the C library has no
    stream to give. *)
Definition fopen_truncate (path : string) (opened : bool) (w : world)
  : option (FILE * world) :=
  match resolve true w path with
  | inl _ => None
  | inr t =>
      if is_dir w t then None
      else if negb (is_file w t) && negb (proper (last_component path))
      then None
      else if opened then
        Some (open_stream t
                (set_files w
                   ((t, [])
                    :: filter (fun x => negb (same (fst x) t)) (files w))))
      else None
  end.

(** A stream whose file is given the name [n] follows the file. *)
Definition retarget (o n : entry) (ss : list (nat * stream))
  : list (nat * stream) :=
  map (fun x =>
         match target (snd x) with
         | Some t => if same t o
                     then (fst x, {| target := Some n;
                                     pending := pending (snd x) |})
                     else x
         | None => x
         end) ss.

(** [rename(old_path, new_path)] where [old_path] names a regular file, as
    it does at the one call of the writer: the file at [new_path], if any,
    is replaced, and keeps the streams that are open on it.  Another
    [old_path] is answered with -1.  [permitted] stands for what the file
    system decides and this model does not hold: the two paths are on one
    device. *)
Definition rename (old_path new_path : string) (permitted : bool) (w : world)
  : (Z * world) :=
  match resolve true w old_path, resolve true w new_path with
  | inr o, inr n =>
      if permitted && is_file w o && negb (is_dir w n)
         && (is_file w n || proper (last_component new_path))
      then
        if same o n then (0%Z, w)
        else (0%Z,
              {| files :=
                   map (fun x => if same (fst x) o then (n, snd x) else x)
                     (filter (fun x => negb (same (fst x) n)) (files w));
                 dirs := dirs w; cwd := cwd w; space := space w;
                 streams := retarget o n (forget n (streams w)) |})
      else ((-1)%Z, w)
  | _, _ => ((-1)%Z, w)
  end.

(** The bytes of the file at [e], none when there is no such file. *)
Definition bytes_at (w : world) (e : entry) : list Z :=
  match file_contents w e with
  | Some c => c
  | None => []
  end.

(** The loop [while (feof(audio_file) == 0)] of [BarFlyID3WriteFile]: the
    stream [audio_file] reads the entry [audio] from the position [pos]; a
    [fread] of a block fails on a directory, and sets the end-of-file
    indicator when fewer bytes than a block are left; the bytes read are
    written to the temporary file.  The result is whether the loop ends
    without a jump to [error].  [fuel] bounds the number of iterations. *)
Fixpoint copy_blocks (libc : stdio) (fuel : nat) (audio : entry) (pos : nat)
    (tmp_file : FILE) (w : world) : option (bool * world) :=
  match fuel with
  | 0 => None
  | S fuel' =>
      if negb (is_file w audio) then Some (false, w)
      else
        let audio_buffer :=
          firstn BAR_FLY_COPY_BLOCK_SIZE (skipn pos (bytes_at w audio)) in
        let read_count := List.length audio_buffer in
        let at_end := Nat.ltb read_count BAR_FLY_COPY_BLOCK_SIZE in
        match fwrite libc audio_buffer 1 read_count tmp_file w with
        | None => None
        | Some (write_count, w') =>
            if negb (Nat.eqb write_count read_count) then Some (false, w')
            else if at_end then Some (true, w')
                 else copy_blocks libc fuel' audio (pos + read_count)
                        tmp_file w'
        end
  end.

(** The label [error] once the temporary file is open, and [end] after it:
    [unlink(tmp_file_path)], then [fclose(tmp_file)], which hands the
    pending bytes to a file that has no name any more. *)
Definition bail_out (tmp_file_path : string) (tmp_file : FILE) (w : world)
  : option (Z * world) :=
  match fclose tmp_file (snd (unlink tmp_file_path w)) with
  | Some (_, w') => Some ((-1)%Z, w')
  | None => None
  end.

(** [BarFlyID3WriteFile(file_path, tag, settings)]: the status and the file
    system after the call.  [size1] is the size the first
    [id3_tag_render] returns and [rendered] the buffer the second one
    fills; [tmp_name] is the name [tmpnam] stores in [tmp_file_path], if
    it has one to give; [allocated], [opened_audio] and [opened_tmp] tell
    whether [malloc] and the two [fopen] have the memory they need.  The
    label [error] begins with [unlink(tmp_file_path)]: when it is reached
    before [tmpnam] has filled the array (no buffer, two sizes that
    differ, no audio file to read) the call has no defined result, [None],
    and so it has when the array is not filled at all.  The result of
    [fclose(tmp_file)] is not looked at; the stream that reads the audio
    file has nothing to flush. *)
Definition BarFlyID3WriteFile (libc : stdio) (file_path : string)
    (size1 : nat) (rendered : list Z) (tmp_name : option string)
    (allocated opened_audio opened_tmp permitted : bool) (w : world)
  : option (Z * world) :=
  if negb allocated then None
  else if negb (Nat.eqb size1 (List.length rendered)) then None
  else
    match fopen_read file_path opened_audio w, tmp_name with
    | None, _ => None
    | Some _, None => None
    | Some audio, Some tmp_file_path =>
        match fopen_truncate tmp_file_path opened_tmp w with
        | None => Some ((-1)%Z, snd (unlink tmp_file_path w))
        | Some (tmp_file, w1) =>
            match fwrite libc rendered 1 (List.length rendered) tmp_file w1
            with
            | None => None
            | Some (write_count, w2) =>
                if negb (Nat.eqb write_count (List.length rendered))
                then bail_out tmp_file_path tmp_file w2
                else
                  match copy_blocks libc (S (List.length (bytes_at w2 audio)))
                          audio 0 tmp_file w2 with
                  | None => None
                  | Some (false, w3) => bail_out tmp_file_path tmp_file w3
                  | Some (true, w3) =>
                      match fclose tmp_file w3 with
                      | None => None
                      | Some (_, w4) =>
                          match rename tmp_file_path file_path permitted w4
                          with
                          | (0%Z, w5) => Some (0%Z, w5)
                          | (_, w5) =>
                              Some ((-1)%Z, snd (unlink tmp_file_path w5))
                          end
                      end
                  end
            end
        end
    end.

(** *** Vocabulary of the properties *)

(** The temporary file [t] and its stream [f] are there, and nothing else
    has changed since [w0]: the other files and the directories. *)
Definition scratch (w0 : world) (t : entry) (f : FILE) (w : world) : Prop :=
  (exists s, stream_of w f = Some s /\ target s = Some t)
  /\ is_file w t = true
  /\ (forall e, e <> t -> file_contents w e = file_contents w0 e)
  /\ dirs w = dirs w0
  /\ cwd w = cwd w0.

(** Moreover the bytes [written] have been accepted by the stream: the
    file holds the first of them, which the device has taken out of the
    space it had in [w0], and the others are pending. *)
Definition copying (w0 : world) (t : entry) (f : FILE) (written : list Z)
    (w : world) : Prop :=
  (exists c pd,
      stream_of w f = Some {| target := Some t; pending := pd |}
      /\ file_contents w t = Some c
      /\ (c ++ pd)%list = written
      /\ space w + List.length c = space w0)
  /\ (forall e, e <> t -> file_contents w e = file_contents w0 e)
  /\ dirs w = dirs w0
  /\ cwd w = cwd w0.

(** A file system with a recording of three bytes below the working
    directory and the directory of the temporary files. *)
Definition tagging_world : world :=
  {| files := [(["music"; "Artist"; "Title.mp3"], [1; 2; 3]%Z)];
     dirs := [["music"; "Artist"]; ["music"]; ["tmp"]];
     cwd := ["music"]; space := 1000; streams := [] |}.

End Id3File.
(** ** Facts about path building *)

Module PathFacts.

Import Path.
Local Open Scope string_scope.

Lemma length_append (s t : string) :
  String.length (s ++ t) = String.length s + String.length t.
Proof. induction s as [|c s IH]; simpl; [reflexivity | now rewrite IH]. Qed.

Lemma append_assoc (s t u : string) : (s ++ t) ++ u = s ++ (t ++ u).
Proof. induction s as [|c s IH]; simpl; [reflexivity | now rewrite IH]. Qed.

Lemma length_advance (n : nat) (p : string) :
  String.length (advance n p) = String.length p - n.
Proof.
  revert p; induction n as [|n IH]; intros [|c p]; simpl; auto with arith.
Qed.

Lemma strcspn_percent_le (p : string) : strcspn_percent p <= String.length p.
Proof.
  induction p as [|c p IH]; simpl; [lia|].
  destruct (c =? "%")%char; lia.
Qed.

Lemma strcspn_percent_app (pre rest : string) :
  no_percent pre = true ->
  strcspn_percent (pre ++ String "%" rest) = String.length pre.
Proof.
  induction pre as [|c pre IH]; simpl; [reflexivity|].
  intros H. apply andb_prop in H as [Hc Hp].
  destruct (c =? "%")%char; [discriminate|]. now rewrite IH.
Qed.

Lemma take_app (pre rest : string) : take (String.length pre) (pre ++ rest) = pre.
Proof.
  induction pre as [|c pre IH]; simpl; [now destruct rest | now rewrite IH].
Qed.

Lemma advance_app (pre rest : string) :
  advance (String.length pre) (pre ++ rest) = rest.
Proof. induction pre as [|c pre IH]; simpl; [now destruct rest | exact IH]. Qed.

Section PatternFacts.

Variables path_artist path_album path_title : string.
Variables year track disc : nat.

Let subst := substitute path_artist path_album path_title year track disc.
Let pop := populate path_artist path_album path_title year track disc.

Lemma substitute_skips (p : string) : 1 <= snd (subst p).
Proof.
  unfold subst, substitute.
  repeat match goal with |- context [if ?b then _ else _] => destruct b end;
    simpl; lia.
Qed.

Lemma substitute_no_token (p : string) :
  begins_token p = false -> subst p = (EmptyString, 1).
Proof.
  unfold begins_token, subst, substitute. intros H.
  repeat (apply orb_false_elim in H; destruct H as [H ?]).
  now repeat match goal with E : _ = false |- _ => rewrite E; clear E end.
Qed.

Lemma populate_empty (fuel : nat) : pop fuel EmptyString = EmptyString.
Proof. now destruct fuel. Qed.

(** Every iteration consumes a byte of the pattern: any two amounts of fuel
    that are at least its length give the same path. *)
Lemma populate_fuel_irrelevant (f1 : nat) :
  forall (f2 : nat) (p : string),
    String.length p <= f1 -> String.length p <= f2 -> pop f1 p = pop f2 p.
Proof.
  induction f1 as [|f1 IH]; intros f2 p H1 H2.
  - destruct p; simpl in H1; [| lia]. now rewrite !populate_empty.
  - destruct p as [|c p]; [now rewrite !populate_empty|].
    destruct f2 as [|f2]; [simpl in H2; lia|].
    unfold pop. cbn [populate]. fold pop. f_equal.
    set (q := String c p) in *.
    assert (Hlen : String.length (advance (strcspn_percent q) q)
                   <= String.length q) by (rewrite length_advance; lia).
    destruct (advance (strcspn_percent q) q) as [|d p1] eqn:E.
    + now rewrite !populate_empty.
    + pose proof (substitute_skips (String d p1)) as Hs.
      fold subst. destruct (subst (String d p1)) as [text skipped].
      cbn [snd] in Hs. f_equal. apply IH;
        rewrite length_advance; subst q; cbn [String.length] in *; lia.
Qed.

Lemma populate_fuel (fuel : nat) (p : string) :
  String.length p <= fuel -> pop fuel p = pop (String.length p) p.
Proof. intros H. now apply populate_fuel_irrelevant. Qed.

(** One iteration of the loop, with the fuel of every call normalised to the
    length of the pattern that is left. *)
Lemma populate_unfold (c : ascii) (p : string) :
  let q := String c p in
  pop (String.length q) q
  = take (strcspn_percent q) q ++
    match advance (strcspn_percent q) q with
    | EmptyString => EmptyString
    | String _ _ as p1 =>
        fst (subst p1) ++
        pop (String.length (advance (snd (subst p1)) p1))
            (advance (snd (subst p1)) p1)
    end.
Proof.
  intros q. unfold pop at 1. cbn [String.length populate q]. fold pop q.
  f_equal.
  assert (Hlen : String.length (advance (strcspn_percent q) q)
                 <= String.length q) by (rewrite length_advance; lia).
  destruct (advance (strcspn_percent q) q) as [|d p1] eqn:E.
  - apply populate_empty.
  - pose proof (substitute_skips (String d p1)) as Hs. fold subst.
    destruct (subst (String d p1)) as [text skipped]. cbn [fst snd] in *.
    f_equal. apply populate_fuel.
    rewrite length_advance. subst q. cbn [String.length] in *. lia.
Qed.

(** At a ['%'] that begins no token the loop skips that one byte and goes on
    with the rest of the pattern. *)
Lemma populate_unknown_percent (pre rest : string) :
  no_percent pre = true ->
  begins_token (String "%" rest) = false ->
  pop (String.length (pre ++ String "%" rest)) (pre ++ String "%" rest)
  = pre ++ pop (String.length rest) rest.
Proof.
  intros Hpre Htok.
  remember (pre ++ String "%" rest) as q eqn:Eq.
  destruct q as [|c q]; [destruct pre; discriminate|].
  rewrite populate_unfold. cbv zeta. rewrite Eq.
  rewrite strcspn_percent_app by assumption.
  rewrite take_app, advance_app. f_equal.
  rewrite substitute_no_token by assumption. reflexivity.
Qed.

(** A byte other than ['%'] is copied to the path. *)
Lemma populate_literal (c : ascii) (rest : string) :
  (c =? "%")%char = false ->
  pop (String.length (String c rest)) (String c rest)
  = String c (pop (String.length rest) rest).
Proof.
  intros Hc. rewrite populate_unfold. cbv zeta.
  cbn [strcspn_percent]. rewrite Hc. cbn [take advance append]. f_equal.
  destruct rest as [|d rest].
  - reflexivity.
  - now rewrite populate_unfold.
Qed.

End PatternFacts.

(** *** The name translation *)

Lemma translate_char_length (spaces : bool) (c : ascii) :
  String.length (translate_char spaces c) <= 1.
Proof.
  unfold translate_char.
  repeat match goal with |- context [if ?b then _ else _] => destruct b end;
    simpl; lia.
Qed.

(** The translation never lengthens a name. *)
Lemma _BarFlyNameTranslate_length (src : string) (n : nat)
    (settings : BarSettings_t) :
  String.length (_BarFlyNameTranslate src n settings) <= String.length src.
Proof.
  induction src as [|c src IH]; simpl; [lia|].
  rewrite length_append.
  pose proof (translate_char_length (useSpaces settings) c). lia.
Qed.

(** The bound [n] has no effect on what is written. *)
Lemma _BarFlyNameTranslate_bound_unused (src : string) (n m : nat)
    (settings : BarSettings_t) :
  _BarFlyNameTranslate src n settings = _BarFlyNameTranslate src m settings.
Proof. induction src as [|c src IH]; simpl; [reflexivity | now rewrite IH]. Qed.

(** The translation reads [useSpaces] only. *)
Lemma _BarFlyNameTranslate_with_pattern (src : string) (n : nat)
    (settings : BarSettings_t) (pattern : string) :
  _BarFlyNameTranslate src n (with_pattern settings pattern)
  = _BarFlyNameTranslate src n settings.
Proof. induction src as [|c src IH]; simpl; [reflexivity | now rewrite IH]. Qed.

(** A run of letters is copied as it is, whatever its length. *)
Lemma _BarFlyNameTranslate_replicate (k n : nat) (settings : BarSettings_t) :
  _BarFlyNameTranslate (replicate k "a") n settings = replicate k "a".
Proof. induction k as [|k IH]; simpl; [reflexivity | now rewrite IH]. Qed.

Lemma length_replicate (k : nat) (c : ascii) :
  String.length (replicate k c) = k.
Proof. induction k as [|k IH]; simpl; [reflexivity | now rewrite IH]. Qed.

(** *** The claims on the path *)

(** C4 (as amended).  When the path renderer meets a ['%'] that begins none
    of the tokens [%artist], [%album], [%title], [%year], [%track], [%disc],
    it drops that ['%'] only, and goes on with the byte that follows it: the
    path is the text before the ['%'] followed by the rendering of the rest
    of the pattern; in particular a following byte other than ['%'] is
    copied to the path. *)
Theorem C4_unknown_percent_drops_only_the_percent :
  forall (artist album title : string) (year track disc : nat)
         (audio_format : PianoAudioFormat_t) (settings : BarSettings_t)
         (allocated : bool) (pre rest : string),
    no_percent pre = true ->
    begins_token (String "%" rest) = false ->
    audioFileName settings = pre ++ String "%" rest ->
    _BarFlyFileGetPath artist album title year track disc audio_format settings
      allocated
    = option_map (option_map (append pre))
        (_BarFlyFileGetPath artist album title year track disc audio_format
           (with_pattern settings rest) allocated)
    /\ (forall (c : ascii) (rest' : string),
          rest = String c rest' -> (c =? "%")%char = false ->
          _BarFlyFileGetPath artist album title year track disc audio_format
            settings allocated
          = option_map (option_map (fun q => pre ++ String c q))
              (_BarFlyFileGetPath artist album title year track disc
                 audio_format (with_pattern settings rest') allocated)).
Proof.
  intros artist album title year track disc audio_format settings allocated
    pre rest Hpre Htok Hpat.
  assert (Hmain :
    _BarFlyFileGetPath artist album title year track disc audio_format settings
      allocated
    = option_map (option_map (append pre))
        (_BarFlyFileGetPath artist album title year track disc audio_format
           (with_pattern settings rest) allocated)).
  { unfold _BarFlyFileGetPath. rewrite !_BarFlyNameTranslate_with_pattern.
    cbn [with_pattern audioFileName].
    destruct (fits _ && fits _ && fits _); [|reflexivity].
    destruct (extension audio_format) as [ext|]; [|reflexivity].
    destruct allocated; [|reflexivity].
    cbn [option_map]. rewrite Hpat.
    rewrite populate_unknown_percent by assumption.
    now rewrite append_assoc. }
  split; [exact Hmain|].
  intros c rest' -> Hc. rewrite Hmain.
  unfold _BarFlyFileGetPath. rewrite !_BarFlyNameTranslate_with_pattern.
  cbn [with_pattern audioFileName].
  destruct (fits _ && fits _ && fits _); [|reflexivity].
  destruct (extension audio_format) as [ext|]; [|reflexivity].
  destruct allocated; [|reflexivity].
  cbn [option_map]. now rewrite populate_literal by assumption.
Qed.

(** The theorem at the pattern [a%xb]. *)
Lemma C4_unknown_percent_witness :
  let settings :=
    {| audioFileName := "a%xb"; useSpaces := false; embedCover := false |} in
  _BarFlyFileGetPath "A" "B" "C" 0 0 0 PIANO_AF_MP3 settings true
  = option_map (option_map (append "a"))
      (_BarFlyFileGetPath "A" "B" "C" 0 0 0 PIANO_AF_MP3
         (with_pattern settings "xb") true).
Proof.
  intros settings.
  apply (C4_unknown_percent_drops_only_the_percent "A" "B" "C" 0 0 0
           PIANO_AF_MP3 settings true "a" "xb"); reflexivity.
Defined.

(** C4 (as stated) fails.  In the pattern [a%xb] the ['%'] begins no token;
    the rendered path keeps the byte [x] that follows it, where the claim
    has it dropped (which would give [ab.mp3]). *)
Lemma C4_following_byte_is_kept :
  let settings :=
    {| audioFileName := "a%xb"; useSpaces := false; embedCover := false |} in
  begins_token "%xb" = false
  /\ _BarFlyFileGetPath "A" "B" "C" 0 0 0 PIANO_AF_MP3 settings true
     = Some (Some "axb.mp3")
  /\ _BarFlyFileGetPath "A" "B" "C" 0 0 0 PIANO_AF_MP3 settings true
     <> Some (Some "ab.mp3").
Proof. repeat split. discriminate. Qed.

(** C5, at a failing input.  The bound [BAR_FLY_NAME_LENGTH] that the caller
    passes is not read: a name of 300 letters is written to the 256-byte
    buffer as 300 bytes (and a terminator). *)
Theorem C5_name_translation_is_not_capped :
  forall settings : BarSettings_t,
    String.length
      (_BarFlyNameTranslate (replicate 300 "a") BAR_FLY_NAME_LENGTH settings)
    = 300
    /\ 255 < String.length
        (_BarFlyNameTranslate (replicate 300 "a") BAR_FLY_NAME_LENGTH settings).
Proof.
  intros settings.
  rewrite _BarFlyNameTranslate_replicate, length_replicate. split; [reflexivity | lia].
Qed.

(** *** Further properties of the path *)

(** The two loops of [_BarFlyFileGetPath] agree: the first one counts the
    bytes the second one writes. *)
Lemma measure_populate (path_artist path_album path_title : string)
    (year track disc : nat) (fuel : nat) :
  forall p : string,
    measure path_artist path_album path_title year track disc fuel p
    = String.length
        (populate path_artist path_album path_title year track disc fuel p).
Proof.
  induction fuel as [|fuel IH]; intros p; [reflexivity|].
  destruct p as [|c p]; [reflexivity|].
  cbn [measure populate].
  set (q := String c p).
  rewrite length_append.
  assert (Ht : String.length (take (strcspn_percent q) q) = strcspn_percent q).
  { pose proof (strcspn_percent_le q) as Hle. clearbody q.
    revert Hle. generalize (strcspn_percent q) as k.
    induction q as [|a q IHq]; intros k Hle; destruct k as [|k]; cbn in *;
      try reflexivity; try lia.
    f_equal. apply IHq. lia. }
  rewrite Ht. f_equal.
  destruct (advance (strcspn_percent q) q) as [|c1 p1]; [apply IH|].
  destruct (substitute path_artist path_album path_title year track disc
              (String c1 p1)) as [text skipped].
  rewrite length_append. f_equal. apply IH.
Qed.

(** X1.  The buffer that [_BarFlyFileGetPath] allocates is exact: whenever
    a path is returned, the three translated names fit their arrays and
    the length of the path is the [path_length] the first loop has computed
    from the arrays (the call is [malloc(path_length + 1)]), so the second
    loop and the copy of the extension write [path_length] bytes and the
    NUL.  The result is [NULL] exactly when the names fit and the format
    has no extension or the allocation fails. *)
Theorem X1_path_length_is_the_length_of_the_path :
  forall (artist album title : string) (year track disc : nat)
         (audio_format : PianoAudioFormat_t) (settings : BarSettings_t)
         (allocated : bool),
    (forall path : string,
        _BarFlyFileGetPath artist album title year track disc audio_format
          settings allocated = Some (Some path) ->
        exists (path_artist path_album path_title ext : string),
          translated artist album title settings
          = Some (path_artist, path_album, path_title)
          /\ extension audio_format = Some ext
          /\ String.length path
             = path_length path_artist path_album path_title year track disc
                 (audioFileName settings) ext)
    /\ (_BarFlyFileGetPath artist album title year track disc audio_format
          settings allocated = Some None
        <-> translated artist album title settings <> None
            /\ (extension audio_format = None \/ allocated = false)).
Proof.
  intros artist album title year track disc audio_format settings allocated.
  unfold _BarFlyFileGetPath, translated, path_length.
  destruct (fits _ && fits _ && fits _).
  - destruct (extension audio_format) as [ext|].
    + destruct allocated.
      * split.
        -- intros path [= <-]. do 4 eexists.
           split; [reflexivity|]. split; [reflexivity|].
           now rewrite length_append, measure_populate.
        -- split; [discriminate|].
           intros [_ [H | H]]; discriminate.
      * split; [discriminate|].
        split; [|reflexivity]. intros _. split; [discriminate | now right].
    + split; [discriminate|].
      split; [|reflexivity]. intros _. split; [discriminate | now left].
  - split; [discriminate|]. split; [discriminate|]. intros [H _]. now elim H.
Qed.

(** The theorem on a pattern with the artist and the title. *)
Lemma X1_path_length_witness :
  exists (path_artist path_album path_title ext : string),
    translated "A" "B" "C"
      {| audioFileName := "%artist/%title"; useSpaces := true;
         embedCover := false |}
    = Some (path_artist, path_album, path_title)
    /\ extension PIANO_AF_MP3 = Some ext
    /\ String.length "A/C.mp3"
       = path_length path_artist path_album path_title 0 0 0
           "%artist/%title" ext.
Proof.
  exact (proj1 (X1_path_length_is_the_length_of_the_path "A" "B" "C" 0 0 0
                  PIANO_AF_MP3
                  {| audioFileName := "%artist/%title"; useSpaces := true;
                     embedCover := false |} true)
           "A/C.mp3" eq_refl).
Defined.

Lemma occurs_append (c : ascii) (s t : string) :
  occurs c (s ++ t) = occurs c s || occurs c t.
Proof.
  induction s as [|a s IH]; [reflexivity|].
  cbn [append occurs]. now rewrite IH, orb_assoc.
Qed.

Lemma translate_char_unusable (spaces : bool) (a c : ascii) :
  In c unusable -> occurs c (translate_char spaces a) = false.
Proof.
  intros Hc. unfold translate_char.
  destruct ((a =? "/") || (a =? "\") || (a =? "|") || (a =? ":")
            || (a =? ";") || (a =? "*") || (a =? "`"))%bool%char eqn:E1.
  { cbn in Hc. decompose [or] Hc; subst; try reflexivity; contradiction. }
  destruct (a =? "<")%char eqn:E2.
  { cbn in Hc. decompose [or] Hc; subst; try reflexivity; contradiction. }
  destruct (a =? ">")%char eqn:E3.
  { cbn in Hc. decompose [or] Hc; subst; try reflexivity; contradiction. }
  destruct ((a =? " ")%char && negb spaces)%bool eqn:E4.
  { cbn in Hc. decompose [or] Hc; subst; try reflexivity; contradiction. }
  destruct ((a =? dquote) || (a =? "?"))%bool%char eqn:E5; [reflexivity|].
  cbn [occurs]. rewrite orb_false_r.
  repeat (apply orb_false_elim in E1 as [E1 ?]).
  apply orb_false_elim in E5 as [E5 E6].
  cbn in Hc. decompose [or] Hc; subst; try assumption; contradiction.
Qed.

(** X2.  A name translated by [_BarFlyNameTranslate] holds none of the
    bytes [/ \ | : ; * ` < > ?] nor a double quote, so an artist, album or
    title never adds a directory to the path; and it holds no space when
    [useSpaces] is off. *)
Theorem X2_translated_name_has_no_unusable_byte :
  forall (src : string) (n : nat) (settings : BarSettings_t) (c : ascii),
    In c unusable \/ (c = " "%char /\ useSpaces settings = false) ->
    occurs c (_BarFlyNameTranslate src n settings) = false.
Proof.
  intros src n settings c Hc.
  induction src as [|a src IH]; [reflexivity|].
  cbn [_BarFlyNameTranslate]. rewrite occurs_append, IH, orb_false_r.
  destruct Hc as [Hc | [-> Hs]]; [now apply translate_char_unusable|].
  unfold translate_char. rewrite Hs. cbn [negb]. rewrite andb_true_r.
  destruct ((a =? "/") || (a =? "\") || (a =? "|") || (a =? ":")
            || (a =? ";") || (a =? "*") || (a =? "`"))%bool%char;
    [reflexivity|].
  destruct (a =? "<")%char; [reflexivity|].
  destruct (a =? ">")%char; [reflexivity|].
  destruct (a =? " ")%char eqn:E; [reflexivity|].
  destruct ((a =? dquote) || (a =? "?"))%bool%char; [reflexivity|].
  cbn [occurs]. now rewrite E.
Qed.

(** The theorem on an artist with a slash, a colon, a space, quotes and a
    question mark, with [useSpaces] off. *)
Lemma X2_translated_name_witness :
  occurs "/"
    (_BarFlyNameTranslate
       (String "A" (String "C" (String "/" (String "D" (String "C"
          (String ":" (String " " (String dquote (String "W" (String "h"
          (String "o" (String "?" (String dquote EmptyString)))))))))))))
       BAR_FLY_NAME_LENGTH
       {| audioFileName := "%artist"; useSpaces := false;
          embedCover := false |})
  = false
  /\ occurs " "
       (_BarFlyNameTranslate "Miles Davis" BAR_FLY_NAME_LENGTH
          {| audioFileName := "%artist"; useSpaces := false;
             embedCover := false |})
     = false.
Proof.
  split.
  - apply X2_translated_name_has_no_unusable_byte. left. cbn. tauto.
  - apply X2_translated_name_has_no_unusable_byte. right. split; reflexivity.
Defined.

Lemma _BarFlyNameTranslate_append (s t : string) (n : nat)
    (settings : BarSettings_t) :
  _BarFlyNameTranslate (s ++ t) n settings
  = _BarFlyNameTranslate s n settings ++ _BarFlyNameTranslate t n settings.
Proof.
  induction s as [|a s IH]; [reflexivity|].
  cbn [append _BarFlyNameTranslate]. now rewrite IH, append_assoc.
Qed.

Lemma translate_char_fixed (settings : BarSettings_t) (n : nat) (a : ascii) :
  _BarFlyNameTranslate (translate_char (useSpaces settings) a) n settings
  = translate_char (useSpaces settings) a.
Proof.
  unfold translate_char.
  destruct ((a =? "/") || (a =? "\") || (a =? "|") || (a =? ":")
            || (a =? ";") || (a =? "*") || (a =? "`"))%bool%char eqn:E1;
    [reflexivity|].
  destruct (a =? "<")%char eqn:E2; [reflexivity|].
  destruct (a =? ">")%char eqn:E3; [reflexivity|].
  destruct ((a =? " ")%char && negb (useSpaces settings))%bool eqn:E4.
  { cbn. destruct (useSpaces settings); reflexivity. }
  destruct ((a =? dquote) || (a =? "?"))%bool%char eqn:E5; [reflexivity|].
  cbn [_BarFlyNameTranslate]. unfold translate_char.
  now rewrite E1, E2, E3, E4, E5.
Qed.

(** X3.  [_BarFlyNameTranslate] is idempotent: a name that has been
    translated is left as it is by a second translation with the same
    settings. *)
Theorem X3_name_translation_is_idempotent :
  forall (src : string) (n m : nat) (settings : BarSettings_t),
    _BarFlyNameTranslate (_BarFlyNameTranslate src n settings) m settings
    = _BarFlyNameTranslate src n settings.
Proof.
  intros src n m settings. induction src as [|a src IH]; [reflexivity|].
  cbn [_BarFlyNameTranslate].
  now rewrite _BarFlyNameTranslate_append, IH, translate_char_fixed.
Qed.

Lemma populate_no_percent (path_artist path_album path_title : string)
    (year track disc : nat) (p : string) :
  no_percent p = true ->
  populate path_artist path_album path_title year track disc
    (String.length p) p = p.
Proof.
  induction p as [|c p IH]; [reflexivity|].
  cbn [no_percent]. intros H. apply andb_prop in H as [Hc Hp].
  apply negb_true_iff in Hc.
  rewrite populate_literal by assumption. now rewrite IH.
Qed.

(** X4.  When the three translated names fit their arrays, a pattern
    without ['%'] is the path, to which the extension of the format is
    added: the result is that path, or [NULL] when the format has no
    extension or the allocation fails. *)
Theorem X4_pattern_without_percent_is_literal :
  forall (artist album title : string) (year track disc : nat)
         (audio_format : PianoAudioFormat_t) (settings : BarSettings_t)
         (allocated : bool),
    translated artist album title settings <> None ->
    no_percent (audioFileName settings) = true ->
    _BarFlyFileGetPath artist album title year track disc audio_format
      settings allocated
    = Some (if allocated
            then option_map (append (audioFileName settings))
                   (extension audio_format)
            else None).
Proof.
  intros artist album title year track disc audio_format settings allocated
    Hfit H.
  unfold _BarFlyFileGetPath. unfold translated in Hfit.
  destruct (fits _ && fits _ && fits _); [|now elim Hfit].
  destruct (extension audio_format) as [ext|]; [|now destruct allocated].
  destruct allocated; [|reflexivity].
  cbn [option_map]. now rewrite populate_no_percent.
Qed.

(** The theorem at the pattern [music/song]. *)
Lemma X4_pattern_without_percent_witness :
  _BarFlyFileGetPath "A" "B" "C" 1999 1 2 PIANO_AF_AACPLUS
    {| audioFileName := "music/song"; useSpaces := false;
       embedCover := false |} true
  = Some (Some "music/song.m4a").
Proof.
  refine (X4_pattern_without_percent_is_literal "A" "B" "C" 1999 1 2
            PIANO_AF_AACPLUS
            {| audioFileName := "music/song"; useSpaces := false;
               embedCover := false |} true _ eq_refl).
  discriminate.
Defined.

Lemma substitute_token (path_artist path_album path_title : string)
    (year track disc : nat) (t : token) (rest : string) :
  substitute path_artist path_album path_title year track disc
    (token_text t ++ rest)
  = (match t with
     | ARTIST => path_artist
     | ALBUM => path_album
     | TITLE => path_title
     | YEAR => print_hu year
     | TRACK => print_02hu track
     | DISC => print_hu disc
     end, String.length (token_text t)).
Proof. destruct t; reflexivity. Qed.

Lemma populate_token (path_artist path_album path_title : string)
    (year track disc : nat) (t : token) (pre rest : string) :
  no_percent pre = true ->
  populate path_artist path_album path_title year track disc
    (String.length (pre ++ token_text t ++ rest)) (pre ++ token_text t ++ rest)
  = pre
    ++ match t with
       | ARTIST => path_artist
       | ALBUM => path_album
       | TITLE => path_title
       | YEAR => print_hu year
       | TRACK => print_02hu track
       | DISC => print_hu disc
       end
    ++ populate path_artist path_album path_title year track disc
         (String.length rest) rest.
Proof.
  intros Hpre.
  assert (Hr : exists r, token_text t ++ rest = String "%" r)
    by (destruct t; eexists; reflexivity).
  destruct Hr as [r Hr].
  remember (pre ++ token_text t ++ rest) as q eqn:Eq.
  destruct q as [|c q]; [rewrite Hr in Eq; destruct pre; discriminate|].
  rewrite populate_unfold. cbv zeta. rewrite Eq, Hr.
  rewrite strcspn_percent_app by assumption.
  rewrite take_app, advance_app. f_equal.
  rewrite <- Hr, substitute_token. cbn [fst snd].
  now rewrite advance_app.
Qed.

(** X5.  At a token of the pattern that follows bytes without ['%'], the
    path is those bytes, then the value of the token (the translated
    artist, album or title as the arrays hold them, the year, the track in
    two digits at least, the disc), then the path of the rest of the
    pattern. *)
Theorem X5_token_is_replaced_by_its_value :
  forall (artist album title : string) (year track disc : nat)
         (audio_format : PianoAudioFormat_t) (settings : BarSettings_t)
         (allocated : bool) (path_artist path_album path_title : string)
         (pre rest : string) (t : token),
    translated artist album title settings
    = Some (path_artist, path_album, path_title) ->
    no_percent pre = true ->
    audioFileName settings = pre ++ token_text t ++ rest ->
    _BarFlyFileGetPath artist album title year track disc audio_format
      settings allocated
    = option_map
        (option_map
           (fun q =>
              pre
              ++ token_value path_artist path_album path_title year track
                   disc t
              ++ q))
        (_BarFlyFileGetPath artist album title year track disc audio_format
           (with_pattern settings rest) allocated).
Proof.
  intros artist album title year track disc audio_format settings allocated
         path_artist path_album path_title pre rest t Hfit Hpre Hpat.
  unfold _BarFlyFileGetPath. unfold translated in Hfit.
  rewrite !_BarFlyNameTranslate_with_pattern.
  cbn [with_pattern audioFileName].
  destruct (fits _ && fits _ && fits _); [|discriminate].
  injection Hfit as <- <- <-.
  destruct (extension audio_format) as [ext|]; [|reflexivity].
  destruct allocated; [|reflexivity].
  cbn [option_map]. rewrite Hpat.
  rewrite populate_token by assumption.
  rewrite !append_assoc. destruct t; reflexivity.
Qed.

(** The theorem at the pattern [rec/%track - %title]. *)
Lemma X5_token_witness :
  let settings :=
    {| audioFileName := "rec/%track - %title"; useSpaces := true;
       embedCover := false |} in
  _BarFlyFileGetPath "A" "B" "C" 1999 7 2 PIANO_AF_MP3 settings true
  = option_map
      (option_map
         (fun q => "rec/" ++ token_value "A" "B" "C" 1999 7 2 TRACK ++ q))
      (_BarFlyFileGetPath "A" "B" "C" 1999 7 2 PIANO_AF_MP3
         (with_pattern settings " - %title") true).
Proof.
  intros settings.
  exact (X5_token_is_replaced_by_its_value "A" "B" "C" 1999 7 2 PIANO_AF_MP3
           settings true "A" "B" "C" "rec/" " - %title" TRACK
           eq_refl eq_refl eq_refl).
Defined.

End PathFacts.


(** ** Facts about the recorder *)

Module FlyFacts.

Import Path Fly.
Local Open Scope string_scope.

(** *** Entries, files and streams *)

Lemma same_true (a b : entry) : same a b = true <-> a = b.
Proof. unfold same. destruct (list_eq_dec string_dec a b); split; congruence. Qed.

Lemma same_refl (a : entry) : same a a = true.
Proof. now apply same_true. Qed.

Lemma same_false (a b : entry) : same a b = false <-> a <> b.
Proof. unfold same. destruct (list_eq_dec string_dec a b); split; congruence. Qed.

Lemma same_sym (a b : entry) : same a b = same b a.
Proof.
  destruct (same b a) eqn:E.
  - apply same_true in E. subst. apply same_refl.
  - apply same_false in E. apply same_false. congruence.
Qed.

Lemma is_dir_In (w : world) (e : entry) :
  is_dir w e = true <-> e = [] \/ In e (dirs w).
Proof.
  unfold is_dir. destruct e as [|n e].
  - split; auto.
  - rewrite existsb_exists. split.
    + intros [y [Hy E]]. apply same_true in E. subst. now right.
    + intros [H | H]; [discriminate|].
      exists (n :: e). split; [assumption | apply same_refl].
Qed.

Lemma is_file_In (w : world) (e : entry) :
  is_file w e = true <-> In e (map fst (files w)).
Proof.
  unfold is_file. rewrite existsb_exists, in_map_iff. split.
  - intros [x [Hx E]]. apply same_true in E. now exists x.
  - intros [x [E Hx]]. exists x. split; [assumption|].
    rewrite E. apply same_refl.
Qed.

Lemma file_contents_absent (w : world) (e : entry) :
  is_file w e = false <-> file_contents w e = None.
Proof.
  unfold is_file, file_contents. induction (files w) as [|[n c] l IH];
    [now split|].
  cbn [existsb find fst]. destruct (same n e); [now split | exact IH].
Qed.

Lemma file_contents_present (w : world) (e : entry) :
  is_file w e = true <-> exists c, file_contents w e = Some c.
Proof.
  destruct (is_file w e) eqn:E.
  - split; [intros _ | reflexivity].
    destruct (file_contents w e) as [c|] eqn:Ec; [now exists c|].
    apply file_contents_absent in Ec. congruence.
  - apply file_contents_absent in E. rewrite E.
    split; [discriminate | now intros [c Hc]].
Qed.

Lemma find_append (l : list (entry * list Z)) (e t : entry) (extra : list Z) :
  option_map snd
    (find (fun x => same (fst x) e)
       (map (fun x => if same (fst x) t
                      then (fst x, (snd x ++ extra)%list) else x) l))
  = if same e t
    then option_map (fun old => (old ++ extra)%list)
           (option_map snd (find (fun x => same (fst x) e) l))
    else option_map snd (find (fun x => same (fst x) e) l).
Proof.
  induction l as [|[n c] l IH].
  - cbn. now destruct (same e t).
  - cbn [map find fst snd].
    destruct (same n t) eqn:Ent; cbn [fst snd].
    + apply same_true in Ent. subst n.
      destruct (same t e) eqn:Ete.
      * apply same_true in Ete. subst e. now rewrite same_refl.
      * rewrite IH, (same_sym e t), Ete. reflexivity.
    + destruct (same n e) eqn:Ene.
      * apply same_true in Ene. subst n. now rewrite Ent.
      * exact IH.
Qed.

Lemma find_filter (l : list (entry * list Z)) (e t : entry) :
  e <> t ->
  find (fun x => same (fst x) e)
    (filter (fun x => negb (same (fst x) t)) l)
  = find (fun x => same (fst x) e) l.
Proof.
  intros Hne. induction l as [|[n c] l IH]; [reflexivity|].
  cbn [filter find fst].
  destruct (same n t) eqn:Ent; cbn [negb find fst].
  - apply same_true in Ent. subst n.
    apply same_false in Hne. now rewrite (same_sym t e), Hne.
  - destruct (same n e); [reflexivity | exact IH].
Qed.

Lemma find_filter_self (l : list (entry * list Z)) (e : entry) :
  find (fun x => same (fst x) e)
    (filter (fun x => negb (same (fst x) e)) l) = None.
Proof.
  induction l as [|[n c] l IH]; [reflexivity|].
  cbn [filter fst]. destruct (same n e) eqn:E; cbn [negb]; [exact IH|].
  cbn [find fst]. now rewrite E.
Qed.

(** What [device_write] changes: the file of the stream, at its end. *)
Lemma device_write_contents (t : option entry) (bytes : list Z) (w : world)
    (e : entry) :
  file_contents (device_write t bytes w) e
  = if match t with Some x => same e x | None => false end
    then option_map (fun old => (old ++ bytes)%list) (file_contents w e)
    else file_contents w e.
Proof.
  unfold file_contents, device_write. cbn [files].
  destruct t as [x|]; [apply find_append | reflexivity].
Qed.

Lemma stream_of_set_pending (f g : FILE) (held : list Z) (w : world) :
  stream_of (set_pending f held w) g
  = if Nat.eqb (fileno g) (fileno f)
    then option_map (fun s => {| target := target s; pending := held |})
           (stream_of w g)
    else stream_of w g.
Proof.
  unfold stream_of, set_pending. cbn [streams set_streams].
  induction (streams w) as [|[n s] l IH].
  - cbn. now destruct (Nat.eqb (fileno g) (fileno f)).
  - cbn [map find fst snd].
    destruct (Nat.eqb_spec n (fileno f)) as [-> | Hnf]; cbn [fst snd].
    + destruct (Nat.eqb_spec (fileno f) (fileno g)) as [E | Hne].
      * rewrite <- E, Nat.eqb_refl. reflexivity.
      * rewrite IH.
        destruct (Nat.eqb_spec (fileno g) (fileno f)); [congruence|reflexivity].
    + destruct (Nat.eqb_spec n (fileno g)) as [-> | Hng].
      * destruct (Nat.eqb_spec (fileno g) (fileno f)); [congruence|reflexivity].
      * exact IH.
Qed.

(** [fwrite] of a buffer that is not empty, on an open stream. *)
Lemma fwrite_cases (libc : stdio) (data : list Z) (size nmemb : nat)
    (f : FILE) (w : world) (s : stream) :
  stream_of w f = Some s ->
  size * nmemb <> 0 ->
  let accepted := (pending s ++ firstn (size * nmemb) data)%list in
  let asked :=
    Nat.min (transmits libc (pending s) (firstn (size * nmemb) data))
      (List.length accepted) in
  exists (n : nat) (held : list Z),
    fwrite libc data size nmemb f w
    = Some (n, set_pending f held
                 (device_write (target s)
                    (firstn (Nat.min asked (space w)) accepted) w))
    /\ (asked <= space w -> n = nmemb /\ held = skipn asked accepted)
    /\ (space w < asked -> n < nmemb).
Proof.
  intros Hs Hnz accepted asked. unfold fwrite. rewrite Hs.
  destruct (Nat.eqb_spec (size * nmemb) 0) as [E|_]; [contradiction|].
  fold accepted. fold asked.
  destruct (Nat.leb_spec asked (space w)) as [Hle|Hgt].
  - eexists; eexists. split; [reflexivity|]. split; [now split | lia].
  - eexists; eexists. split; [reflexivity|]. split; [lia|].
    intros _. apply Nat.Div0.div_lt_upper_bound.
    destruct size as [|size]; [cbn in Hnz; contradiction|]. lia.
Qed.

(** *** Writing *)

(** C10 (as amended).  On a recorder that is not completed, [BarFlyWrite]
    with a buffer of length zero returns -1 ([fwrite] of one item of size 0
    reports no item written) and changes nothing; with a buffer that is not
    empty it returns 0 exactly when the stream accepts the buffer, that is
    when the device takes every byte the C library hands it during the
    call, and -1 otherwise.  After a 0 the bytes of the stream are the
    former ones followed by the buffer: the file of the stream has gained
    the bytes that were handed to the device, and the others are pending in
    the stream. *)
Theorem C10_write_status :
  forall (libc : stdio) (fly : BarFly_t) (f : FILE) (s : stream) (w : world),
    completed fly = false ->
    audio_file fly = Live f ->
    stream_of w f = Some s ->
    BarFlyWrite libc fly [] w = Some ((-1)%Z, w)
    /\ (forall data : list Z,
          data <> [] ->
          let accepted := (pending s ++ data)%list in
          let asked :=
            Nat.min (transmits libc (pending s) data)
              (List.length accepted) in
          exists (st : Z) (w' : world),
            BarFlyWrite libc fly data w = Some (st, w')
            /\ (st = 0%Z <-> asked <= space w)
            /\ (st <> 0%Z -> st = (-1)%Z)
            /\ (forall e, target s = Some e ->
                  file_contents w' e
                  = option_map
                      (fun old =>
                         (old ++ firstn (Nat.min asked (space w)) accepted)%list)
                      (file_contents w e))
            /\ (st = 0%Z ->
                stream_of w' f
                = Some {| target := target s;
                          pending := skipn asked accepted |}
                /\ stream_contents w' f
                   = option_map (fun old => (old ++ data)%list)
                       (stream_contents w f))).
Proof.
  intros libc fly f s w Hc Hf Hs. unfold BarFlyWrite. rewrite Hc, Hf.
  cbn [negb]. split.
  { unfold fwrite. rewrite Hs. reflexivity. }
  intros data Hdata.
  set (accepted := (pending s ++ data)%list).
  set (asked := Nat.min (transmits libc (pending s) data)
                  (List.length accepted)).
  assert (Hnz : List.length data * 1 <> 0).
  { destruct data; [contradiction | cbn; lia]. }
  destruct (fwrite_cases libc data (List.length data) 1 f w s Hs Hnz)
    as (n & held & E & Hok & Hshort).
  rewrite Nat.mul_1_r, firstn_all in E, Hok, Hshort.
  fold accepted in E, Hok, Hshort. fold asked in E, Hok, Hshort.
  rewrite E.
  assert (Hfile : forall e, target s = Some e ->
            file_contents
              (set_pending f held
                 (device_write (target s)
                    (firstn (Nat.min asked (space w)) accepted) w)) e
            = option_map
                (fun old =>
                   (old ++ firstn (Nat.min asked (space w)) accepted)%list)
                (file_contents w e)).
  { intros e He.
    change (file_contents (set_pending f held ?x) e) with (file_contents x e).
    rewrite device_write_contents, He. now rewrite same_refl. }
  destruct (Nat.le_gt_cases asked (space w)) as [Hle|Hgt].
  - destruct (Hok Hle) as [-> ->]. cbn [Nat.eqb].
    eexists; eexists. split; [reflexivity|].
    split; [now split|]. split; [intros H; now elim H|].
    split; [exact Hfile|]. intros _.
    assert (Hst : stream_of
                    (set_pending f (skipn asked accepted)
                       (device_write (target s)
                          (firstn (Nat.min asked (space w)) accepted) w)) f
                  = Some {| target := target s;
                            pending := skipn asked accepted |}).
    { rewrite stream_of_set_pending, Nat.eqb_refl.
      change (stream_of (device_write ?t ?b w) f) with (stream_of w f).
      now rewrite Hs. }
    split; [exact Hst|].
    unfold stream_contents. rewrite Hst, Hs. cbn [target pending].
    destruct (target s) as [e|] eqn:Et; [|reflexivity].
    rewrite (Hfile e eq_refl), Nat.min_l by assumption.
    destruct (file_contents w e) as [c|]; [|reflexivity].
    cbn [option_map]. f_equal. rewrite <- !app_assoc. f_equal.
    apply firstn_skipn.
  - specialize (Hshort Hgt).
    assert (n = 0) by lia. subst n. cbn [Nat.eqb].
    eexists; eexists. split; [reflexivity|].
    split; [split; [discriminate | lia]|].
    split; [reflexivity|]. split; [exact Hfile|]. discriminate.
Qed.

(** The theorem on the recorder [recording_fly] and a library that hands
    the device blocks of 4096 bytes: the empty buffer, and a buffer of
    three bytes. *)
Lemma C10_write_status_witness :
  BarFlyWrite (block_buffered 4096) recording_fly [] recording_world
  = Some ((-1)%Z, recording_world)
  /\ exists (st : Z) (w' : world),
       BarFlyWrite (block_buffered 4096) recording_fly [1; 2; 3]%Z
         recording_world
       = Some (st, w')
       /\ (st = 0%Z <-> 0 <= space recording_world)
       /\ (st <> 0%Z -> st = (-1)%Z)
       /\ (forall e, target recording_stream = Some e ->
             file_contents w' e
             = option_map (fun old => (old ++ [])%list)
                 (file_contents recording_world e))
       /\ (st = 0%Z ->
           stream_of w' {| fileno := 3 |}
           = Some {| target := Some recording_entry;
                     pending := [1; 2; 3]%Z |}
           /\ stream_contents w' {| fileno := 3 |}
              = option_map (fun old => (old ++ [1; 2; 3]%Z)%list)
                  (stream_contents recording_world {| fileno := 3 |})).
Proof.
  pose proof (C10_write_status (block_buffered 4096) recording_fly
                {| fileno := 3 |} recording_stream recording_world
                eq_refl eq_refl eq_refl) as H.
  split; [exact (proj1 H)|].
  refine (proj2 H [1; 2; 3]%Z _). discriminate.
Defined.

(** C10 (as stated) fails.  The recorder sets no buffering mode, and a C
    library that hands the device whole blocks accepts a buffer of three
    bytes without writing a byte: on a device that takes no byte at all,
    [BarFlyWrite] returns 0, the file is as empty as it was and the three
    bytes are pending in the stream. *)
Lemma C10_success_without_a_byte_written :
  exists w' : world,
    BarFlyWrite (block_buffered 4096) recording_fly [1; 2; 3]%Z full_world
    = Some (0%Z, w')
    /\ space full_world = 0
    /\ file_contents full_world recording_entry = Some []
    /\ file_contents w' recording_entry = Some []
    /\ stream_of w' {| fileno := 3 |}
       = Some {| target := Some recording_entry; pending := [1; 2; 3]%Z |}.
Proof. eexists. repeat split. Qed.

(** What [BarFlyWrite] changes, whatever it returns: no directory, no name
    of a file, and no file but the file of the stream, which gains some of
    the pending bytes and of the bytes of the buffer, in their order. *)
Lemma set_pending_files (f : FILE) (held : list Z) (w : world) :
  files (set_pending f held w) = files w
  /\ dirs (set_pending f held w) = dirs w
  /\ cwd (set_pending f held w) = cwd w
  /\ space (set_pending f held w) = space w.
Proof. now repeat split. Qed.

Lemma device_write_names (t : option entry) (bytes : list Z) (w : world) :
  map fst (files (device_write t bytes w)) = map fst (files w)
  /\ dirs (device_write t bytes w) = dirs w
  /\ cwd (device_write t bytes w) = cwd w
  /\ streams (device_write t bytes w) = streams w.
Proof.
  unfold device_write. cbn [files dirs cwd streams].
  split; [|now repeat split].
  destruct t as [e|]; [|reflexivity].
  rewrite map_map. apply map_ext. intros x. now destruct (same (fst x) e).
Qed.

(** X11.  What [BarFlyWrite] changes on a recorder that is not completed,
    whatever it returns: no directory and no name of a file; every file
    but the file of the stream keeps its bytes; the file of the stream
    keeps its bytes and gains, at its end, the bytes the C library hands
    to the device during the call, as far as the device takes them: the
    first of the pending bytes followed by the buffer, and none for an
    empty buffer. *)
Theorem X11_write_appends_to_the_file :
  forall (libc : stdio) (fly : BarFly_t) (f : FILE) (s : stream)
         (data : list Z) (w : world) (st : Z) (w' : world),
    completed fly = false ->
    audio_file fly = Live f ->
    stream_of w f = Some s ->
    BarFlyWrite libc fly data w = Some (st, w') ->
    dirs w' = dirs w
    /\ map fst (files w') = map fst (files w)
    /\ (forall e, target s <> Some e ->
          file_contents w' e = file_contents w e)
    /\ (forall e, target s = Some e ->
          file_contents w' e
          = option_map
              (fun old =>
                 (old ++ match data with
                         | [] => []
                         | _ :: _ =>
                             firstn
                               (Nat.min
                                  (Nat.min (transmits libc (pending s) data)
                                     (List.length (pending s ++ data)))
                                  (space w))
                               (pending s ++ data)
                         end)%list)
              (file_contents w e)).
Proof.
  intros libc fly f s data w st w' Hc Hf Hs H.
  unfold BarFlyWrite in H. rewrite Hc, Hf in H. cbn [negb] in H.
  destruct data as [|b data].
  { unfold fwrite in H. rewrite Hs in H. cbn in H. injection H as <- <-.
    repeat split; try reflexivity.
    intros e _.
    destruct (file_contents w e); [|reflexivity].
    cbn [option_map]. now rewrite app_nil_r. }
  assert (Hnz : List.length (b :: data) * 1 <> 0) by (cbn; lia).
  destruct (fwrite_cases libc (b :: data) _ 1 f w s Hs Hnz)
    as (n & held & E & _ & _).
  rewrite Nat.mul_1_r, firstn_all in E. rewrite E in H.
  set (w1 := set_pending f held _) in H.
  assert (Hw : w' = w1) by (destruct (Nat.eqb n 1); now injection H as _ <-).
  subst w'. unfold w1.
  destruct (device_write_names (target s)
              (firstn
                 (Nat.min
                    (Nat.min (transmits libc (pending s) (b :: data))
                       (List.length (pending s ++ b :: data)))
                    (space w))
                 (pending s ++ b :: data)) w) as (Hn & Hd & _ & _).
  split; [exact Hd|]. split; [exact Hn|]. split.
  - intros e He.
    change (file_contents (set_pending f held ?x) e) with (file_contents x e).
    rewrite device_write_contents.
    destruct (target s) as [t|]; [|reflexivity].
    destruct (same e t) eqn:Eet; [|reflexivity].
    apply same_true in Eet. subst. now elim He.
  - intros e He.
    change (file_contents (set_pending f held ?x) e) with (file_contents x e).
    rewrite device_write_contents, He, same_refl. reflexivity.
Qed.

(** The theorem on three bytes written by [recording_fly] through a
    library that hands the device every byte at once. *)
Lemma X11_write_witness :
  let w' :=
    {| files := [(recording_entry, [1; 2; 3]%Z)];
       dirs := dirs recording_world; cwd := cwd recording_world;
       space := 997; streams := streams recording_world |} in
  dirs w' = dirs recording_world
  /\ map fst (files w') = map fst (files recording_world)
  /\ (forall e, target recording_stream <> Some e ->
        file_contents w' e = file_contents recording_world e)
  /\ (forall e, target recording_stream = Some e ->
        file_contents w' e
        = option_map (fun old => (old ++ [1; 2; 3]%Z)%list)
            (file_contents recording_world e)).
Proof.
  intros w'.
  exact (X11_write_appends_to_the_file unbuffered recording_fly
           {| fileno := 3 |} recording_stream [1; 2; 3]%Z recording_world
           0%Z w' eq_refl eq_refl eq_refl eq_refl).
Defined.

(** *** Tagging *)

(** C6, at its failing inputs.  [BarFlyTag] on a recorder that is not
    completed and whose stream is open sets the status to [TAGGING] and
    runs the tag writer, and never closes the stream: after the call the
    handle exists while the status is [TAGGING], so the invariant "the
    handle exists iff the status is [RECORDING]" is lost. *)
Theorem C6_tag_keeps_the_stream_open :
  forall (fetch : string -> option (list Z))
         (mp4_write id3_write : BarFly_t -> option (list Z) -> world -> Z * world)
         (fly : BarFly_t) (f : FILE) (settings : BarSettings_t) (w : world),
    completed fly = false ->
    audio_file fly = Live f ->
    exists (st : Z) (fly' : BarFly_t) (w' : world),
      BarFlyTag fetch mp4_write id3_write fly settings w = Some (st, fly', w')
      /\ status fly' = TAGGING
      /\ audio_file fly' = Live f
      /\ ~ handle_iff_recording fly'.
Proof.
  intros fetch mp4_write id3_write fly f settings w Hc Hf.
  unfold BarFlyTag. rewrite Hc, Hf. cbn [negb not_null].
  destruct (_BarFlyTagWrite fetch mp4_write id3_write
              (set_status fly TAGGING) settings w) as [st w'].
  eexists; eexists; eexists; split; [reflexivity|].
  cbn [set_completed set_status status audio_file]. rewrite Hf.
  repeat split.
  intros [H _]. assert (TAGGING = RECORDING) by (apply H; now exists f).
  discriminate.
Qed.

(** The theorem on [recording_fly], with a fetcher that fails and writers
    that succeed. *)
Lemma C6_tag_keeps_the_stream_open_witness :
  exists (st : Z) (fly' : BarFly_t) (w' : world),
    BarFlyTag (fun _ => None) (fun _ _ w => (0%Z, w)) (fun _ _ w => (0%Z, w))
      recording_fly
      {| audioFileName := "%artist/%album/%title"; useSpaces := true;
         embedCover := true |}
      recording_world
    = Some (st, fly', w')
    /\ status fly' = TAGGING
    /\ audio_file fly' = Live {| fileno := 3 |}
    /\ ~ handle_iff_recording fly'.
Proof.
  apply (C6_tag_keeps_the_stream_open (fun _ => None) (fun _ _ w => (0%Z, w))
           (fun _ _ w => (0%Z, w)) recording_fly
           {| fileno := 3 |}); reflexivity.
Defined.

(** [fclose] hands the pending bytes to the device, for the file of the
    stream, and changes no other file. *)
Lemma fclose_cases (f : FILE) (w : world) (s : stream) :
  stream_of w f = Some s ->
  exists (st : Z) (w' : world),
    fclose f w = Some (st, w')
    /\ dirs w' = dirs w
    /\ cwd w' = cwd w
    /\ map fst (files w') = map fst (files w)
    /\ (forall e, target s <> Some e ->
          file_contents w' e = file_contents w e)
    /\ (forall e, target s = Some e ->
          file_contents w' e
          = option_map
              (fun old =>
                 (old ++ firstn (Nat.min (List.length (pending s)) (space w))
                           (pending s))%list)
              (file_contents w e))
    /\ streams w'
       = filter (fun x => negb (Nat.eqb (fst x) (fileno f))) (streams w).
Proof.
  intros Hs. unfold fclose. rewrite Hs.
  eexists; eexists. split; [reflexivity|].
  set (bytes := firstn _ (pending s)).
  destruct (device_write_names (target s) bytes w) as (Hn & Hd & Hc & Hst).
  change (dirs (remove_stream f ?x)) with (dirs x).
  change (cwd (remove_stream f ?x)) with (cwd x).
  change (files (remove_stream f ?x)) with (files x).
  split; [exact Hd|]. split; [exact Hc|]. split; [exact Hn|].
  split; [|split].
  - intros e He.
    change (file_contents (remove_stream f ?x) e) with (file_contents x e).
    rewrite device_write_contents.
    destruct (target s) as [t|]; [|reflexivity].
    destruct (same e t) eqn:Eet; [|reflexivity].
    apply same_true in Eet. subst. now elim He.
  - intros e He.
    change (file_contents (remove_stream f ?x) e) with (file_contents x e).
    now rewrite device_write_contents, He, same_refl.
  - reflexivity.
Qed.

(** X12.  A recording that has been through [BarFlyTag] is kept: whatever
    the tag writer has returned, the recorder is completed, and the
    [BarFlyClose] that follows (the stream being still open) returns 0 and
    deletes nothing: the directories and the names of the files are those
    the tag writer has left, every file keeps its bytes, and the file of
    the stream gains the pending bytes the device takes. *)
Theorem X12_tagged_recording_is_kept :
  forall (fetch : string -> option (list Z))
         (mp4_write id3_write : BarFly_t -> option (list Z) -> world -> Z * world)
         (fly : BarFly_t) (f : FILE) (settings : BarSettings_t) (w : world)
         (st : Z) (fly1 : BarFly_t) (w1 : world) (s : stream)
         (duplicated : bool),
    completed fly = false ->
    audio_file fly = Live f ->
    audio_file_path fly <> Released ->
    cover_art_url fly <> Released ->
    BarFlyTag fetch mp4_write id3_write fly settings w = Some (st, fly1, w1) ->
    stream_of w1 f = Some s ->
    completed fly1 = true
    /\ exists (fly2 : BarFly_t) (w2 : world),
         BarFlyClose fly1 duplicated w1 = Some (0%Z, fly2, w2)
         /\ dirs w2 = dirs w1
         /\ map fst (files w2) = map fst (files w1)
         /\ (forall e, target s <> Some e ->
               file_contents w2 e = file_contents w1 e)
         /\ (forall e, target s = Some e ->
               file_contents w2 e
               = option_map
                   (fun old =>
                      (old ++ firstn (Nat.min (List.length (pending s))
                                        (space w1))
                                (pending s))%list)
                   (file_contents w1 e)).
Proof.
  intros fetch mp4_write id3_write fly f settings w st fly1 w1 s duplicated
    Hc Hf Hp Hu H Hs.
  unfold BarFlyTag in H. rewrite Hc, Hf in H. cbn [negb not_null] in H.
  destruct (_BarFlyTagWrite fetch mp4_write id3_write
              (set_status fly TAGGING) settings w) as [st' w'].
  injection H as <- <- <-. split; [reflexivity|].
  destruct (fclose_cases f w' s Hs)
    as (stc & w2 & Ec & Hd & _ & Hn & Ho & Ht & _).
  destruct fly as [af afp fmt comp ar al ti y t d url stt].
  cbn [audio_file completed audio_file_path cover_art_url] in Hc, Hf, Hp, Hu.
  subst af comp. unfold BarFlyClose.
  cbn [set_completed set_status audio_file completed audio_file_path
       cover_art_url audio_format artist album title year track disc status].
  rewrite Ec.
  cbn [set_audio_file set_audio_file_path set_cover_art_url completed negb
       audio_file audio_file_path cover_art_url audio_format artist album
       title year track disc status].
  destruct afp as [|path|]; [| |contradiction];
    destruct url as [|u|]; try contradiction;
    cbn [release]; eexists; eexists; (split; [reflexivity|]);
    repeat split; assumption.
Qed.

(** The theorem on [recording_fly] after three bytes were written, with a
    fetcher that fails and writers that succeed. *)
Lemma X12_tagged_recording_witness :
  let w :=
    {| files := files recording_world; dirs := dirs recording_world;
       cwd := cwd recording_world; space := 1000;
       streams := [(3, {| target := Some recording_entry;
                          pending := [1; 2; 3]%Z |})] |} in
  let fly1 := set_completed (set_status recording_fly TAGGING) true in
  completed fly1 = true
  /\ exists (fly2 : BarFly_t) (w2 : world),
       BarFlyClose fly1 true w = Some (0%Z, fly2, w2)
       /\ dirs w2 = dirs w
       /\ map fst (files w2) = map fst (files w)
       /\ (forall e, Some recording_entry <> Some e ->
             file_contents w2 e = file_contents w e)
       /\ (forall e, Some recording_entry = Some e ->
             file_contents w2 e
             = option_map (fun old => (old ++ [1; 2; 3]%Z)%list)
                 (file_contents w e)).
Proof.
  intros w fly1.
  refine (X12_tagged_recording_is_kept (fun _ => None)
            (fun _ _ w => (0%Z, w)) (fun _ _ w => (0%Z, w)) recording_fly
            {| fileno := 3 |}
            {| audioFileName := "%artist/%album/%title"; useSpaces := true;
               embedCover := true |}
            w 0%Z fly1 w
            {| target := Some recording_entry; pending := [1; 2; 3]%Z |}
            true eq_refl eq_refl _ _ eq_refl eq_refl);
    discriminate.
Defined.

(** *** Resolving path names *)

(** A path name that resolves stands for its [place]. *)
Lemma walk_place (w : world) (cs : list string) :
  forall (cur e : entry),
    walk w cur cs = inr e -> e = fold_left step cs cur.
Proof.
  induction cs as [|c cs IH]; intros cur e H; cbn [walk fold_left] in *.
  - now injection H as <-.
  - destruct (is_dir w cur); [|discriminate].
    destruct (NAME_MAX <? String.length c)%nat; [discriminate|].
    now apply IH.
Qed.

Lemma step_empty (cur : entry) : step cur "" = cur.
Proof. reflexivity. Qed.

Lemma trim_nil (cs : list string) :
  trim cs = [] -> forall cur, fold_left step cs cur = cur.
Proof.
  induction cs as [|c cs IH]; intros H cur; [reflexivity|].
  cbn [trim] in H. destruct (trim cs) as [|r rs] eqn:E; [|discriminate].
  destruct (String.eqb_spec c ""); [|discriminate]. subst c.
  cbn [fold_left]. rewrite step_empty. now apply IH.
Qed.

Lemma fold_left_step_trim (cs : list string) :
  forall cur, fold_left step (trim cs) cur = fold_left step cs cur.
Proof.
  induction cs as [|c cs IH]; intros cur; [reflexivity|].
  cbn [trim]. destruct (trim cs) as [|r rs] eqn:E.
  - destruct (String.eqb_spec c "") as [-> | Hne].
    + cbn [fold_left]. rewrite step_empty. symmetry. now apply trim_nil.
    + cbn [fold_left]. symmetry. now apply trim_nil.
  - cbn [fold_left]. rewrite <- IH. reflexivity.
Qed.

Lemma resolve_place (trailing : bool) (w : world) (p : string) (e : entry) :
  resolve trailing w p = inr e -> e = place (cwd w) p.
Proof.
  unfold resolve, place.
  destruct (String.eqb p ""); [discriminate|].
  destruct (PATH_MAX <=? String.length p)%nat; [discriminate|].
  intros H. apply walk_place in H. rewrite H.
  destruct trailing; [reflexivity | apply fold_left_step_trim].
Qed.

(** The errors of a resolution. *)
Lemma walk_error (w : world) (cs : list string) :
  forall (cur : entry) (e : errno_t),
    walk w cur cs = inl e -> e = ENAMETOOLONG \/ e = ENOTDIR \/ e = ENOENT.
Proof.
  induction cs as [|c cs IH]; intros cur e H; cbn [walk] in H;
    [discriminate|].
  destruct (is_dir w cur).
  - destruct (NAME_MAX <? String.length c)%nat;
      [injection H as <-; auto | now apply IH in H].
  - destruct (is_file w cur); injection H as <-; auto.
Qed.

Lemma resolve_error (trailing : bool) (w : world) (p : string) (e : errno_t) :
  resolve trailing w p = inl e ->
  e = ENAMETOOLONG \/ e = ENOTDIR \/ e = ENOENT.
Proof.
  unfold resolve.
  destruct (String.eqb p ""); [intros [= <-]; auto|].
  destruct (PATH_MAX <=? String.length p)%nat; [intros [= <-]; auto|].
  apply walk_error.
Qed.

(** A resolution looks at the directories, and at the files only to name
    the error. *)
Lemma walk_same_dirs (w w' : world) (cs : list string) :
  (forall d, is_dir w d = true -> is_dir w' d = true) ->
  forall (cur e : entry),
    walk w cur cs = inr e -> walk w' cur cs = inr e.
Proof.
  intros Hd. induction cs as [|c cs IH]; intros cur e H; cbn [walk] in *;
    [assumption|].
  destruct (is_dir w cur) eqn:E; [|discriminate].
  rewrite (Hd _ E).
  destruct (NAME_MAX <? String.length c)%nat; [discriminate|].
  now apply IH.
Qed.

Lemma resolve_same_dirs (trailing : bool) (w w' : world) (p : string)
    (e : entry) :
  cwd w' = cwd w ->
  (forall d, is_dir w d = true -> is_dir w' d = true) ->
  resolve trailing w p = inr e -> resolve trailing w' p = inr e.
Proof.
  intros Hc Hd. unfold resolve. rewrite Hc.
  destruct (String.eqb p ""); [discriminate|].
  destruct (PATH_MAX <=? String.length p)%nat; [discriminate|].
  now apply walk_same_dirs.
Qed.

(** *** Opening the file *)

Lemma mkdir_cases (d : string) (w : world) :
  (exists t, mkdir d w = (0%Z, None, set_dirs w (t :: dirs w))
             /\ resolve false w d = inr t
             /\ is_dir w t = false /\ is_file w t = false)
  \/ (exists e, mkdir d w = ((-1)%Z, Some e, w)
                /\ (e = EEXIST ->
                    exists t, resolve false w d = inr t
                              /\ (is_dir w t || is_file w t) = true)).
Proof.
  unfold mkdir. destruct (resolve false w d) as [e|t] eqn:Er.
  - right. exists e. split; [reflexivity|]. intros ->.
    apply resolve_error in Er. destruct Er as [H | [H | H]]; discriminate.
  - destruct (is_dir w t || is_file w t) eqn:Ex.
    + right. exists EEXIST. split; [reflexivity|]. intros _. now exists t.
    + apply orb_false_elim in Ex as [Hd Hf].
      destruct (proper (last_component d)).
      * left. exists t. now repeat split.
      * right. exists ENOENT. split; [reflexivity | discriminate].
Qed.

Lemma is_dir_set_dirs_cons (w : world) (t d : entry) :
  is_dir w d = true -> is_dir (set_dirs w (t :: dirs w)) d = true.
Proof.
  rewrite !is_dir_In. cbn [dirs set_dirs]. intros [H | H]; [now left|].
  right. now right.
Qed.

(** The loop that creates the parent directories changes no file and no
    stream, and removes no directory. *)
Lemma make_parents_frame (ds : list string) :
  forall (copied : list bool) (w : world) (st : Z) (w' : world),
    make_parents ds copied w = Some (st, w') ->
    files w' = files w
    /\ streams w' = streams w
    /\ cwd w' = cwd w
    /\ space w' = space w
    /\ (forall d, In d (dirs w) -> In d (dirs w'))
    /\ (st = 0%Z \/ st = (-1)%Z).
Proof.
  induction ds as [|d ds IH]; intros copied w st w' H; cbn [make_parents] in H.
  - injection H as <- <-. repeat split; auto.
  - destruct (hd true copied).
    2:{ injection H as <- <-. repeat split; auto. }
    destruct (mkdir_cases d w) as [(t & E & _) | (e & E & _)]; rewrite E in H.
    + apply IH in H as (Hf & Hs & Hc & Hsp & Hd & Hst).
      cbn [files streams cwd space dirs set_dirs] in *.
      repeat split; try assumption. intros x Hx. apply Hd. now right.
    + destruct e; try discriminate H. now apply IH in H.
Qed.

Lemma open_excl_cases (p : string) (w : world) :
  (exists t, open_excl p w = inr (t, set_files w ((t, []) :: files w))
             /\ resolve true w p = inr t
             /\ is_dir w t = false /\ is_file w t = false)
  \/ (exists e, open_excl p w = inl e
                /\ (e = EEXIST ->
                    exists t, resolve true w p = inr t
                              /\ (is_dir w t || is_file w t) = true)).
Proof.
  unfold open_excl. destruct (ends_with_slash p).
  { right. exists EISDIR. split; [reflexivity | discriminate]. }
  destruct (resolve true w p) as [e|t] eqn:Er.
  - right. exists e. split; [reflexivity|]. intros ->.
    apply resolve_error in Er. destruct Er as [H | [H | H]]; discriminate.
  - destruct (is_dir w t || is_file w t) eqn:Ex.
    + right. exists EEXIST. split; [reflexivity|]. intros _. now exists t.
    + apply orb_false_elim in Ex as [Hd Hf].
      destruct (proper (last_component p)).
      * left. exists t. now repeat split.
      * right. exists ENOENT. split; [reflexivity | discriminate].
Qed.

Lemma stream_of_open_stream (t : entry) (w : world) :
  stream_of (snd (open_stream t w)) (fst (open_stream t w))
  = Some {| target := Some t; pending := [] |}.
Proof.
  unfold stream_of, open_stream. cbn [fst snd streams set_streams find fileno].
  now rewrite Nat.eqb_refl.
Qed.

(** The outcomes of [_BarFlyFileOpen], [w1] being the file system after
    the parent directories have been created. *)
Lemma _BarFlyFileOpen_cases (path : string) (copied : list bool)
    (fdopened : bool) (w : world) (st : Z) (f : option FILE) (w' : world) :
  _BarFlyFileOpen path copied fdopened w = Some (st, f, w') ->
  (st = (-1)%Z /\ f = None
   /\ make_parents (slash_prefixes "" path) copied w = Some ((-1)%Z, w'))
  \/ exists w1,
       make_parents (slash_prefixes "" path) copied w = Some (0%Z, w1)
       /\ ((exists t,
              st = 0%Z /\ fdopened = true
              /\ f = Some {| fileno := unused w1 |}
              /\ resolve true w1 path = inr t
              /\ is_dir w1 t = false /\ is_file w1 t = false
              /\ w' = snd (open_stream t (set_files w1 ((t, []) :: files w1))))
           \/ (exists t,
                 st = (-1)%Z /\ fdopened = false /\ f = None
                 /\ resolve true w1 path = inr t
                 /\ is_dir w1 t = false /\ is_file w1 t = false
                 /\ w' = set_files w1 ((t, []) :: files w1))
           \/ (exists t,
                 st = (-2)%Z /\ f = None /\ w' = w1
                 /\ resolve true w1 path = inr t
                 /\ (is_dir w1 t || is_file w1 t) = true)
           \/ (exists e,
                 st = (-1)%Z /\ f = None /\ w' = w1
                 /\ open_excl path w1 = inl e /\ e <> EEXIST)).
Proof.
  unfold _BarFlyFileOpen. intros H.
  destruct (make_parents (slash_prefixes "" path) copied w) as [[st1 w1]|] eqn:Em;
    [|discriminate].
  pose proof (make_parents_frame _ _ _ _ _ Em) as (_ & _ & _ & _ & _ & Hst).
  destruct Hst as [-> | ->].
  2:{ injection H as <- <- <-. now left. }
  right. exists w1. split; [reflexivity|].
  unfold _BarFlyFileOpenStream in H.
  destruct (open_excl_cases path w1)
    as [(t & E & Hr & Hd & Hf) | (e & E & He)]; rewrite E in H.
  - destruct fdopened.
    + left. exists t. cbn in H. injection H as <- <- <-. now repeat split.
    + right. left. exists t. injection H as <- <- <-. now repeat split.
  - destruct e; injection H as <- <- <-;
      try (right; right; right; eexists; repeat split;
           [eassumption | discriminate]).
    right. right. left. destruct (He eq_refl) as (t & Hr & Hx).
    exists t. now repeat split.
Qed.

(** X7.  [_BarFlyFileOpen], whenever it returns, has removed no directory
    and changed no file that was there.  When it returns 0 the file is new
    and empty, and the stream that is returned is open on it with no byte
    pending; when it returns -2 the files are as they were; when it
    returns -1 the files are as they were, or [fdopen] has failed and the
    new, empty file is left behind. *)
Theorem X7_open_creates_or_leaves_the_files :
  forall (path : string) (copied : list bool) (fdopened : bool) (w : world)
         (st : Z) (f : option FILE) (w' : world),
    _BarFlyFileOpen path copied fdopened w = Some (st, f, w') ->
    (forall d, In d (dirs w) -> In d (dirs w'))
    /\ (forall e c, file_contents w e = Some c -> file_contents w' e = Some c)
    /\ ((st = 0%Z /\ fdopened = true
         /\ exists g t,
              f = Some g
              /\ resolve true w' path = inr t
              /\ is_file w t = false
              /\ files w' = (t, []) :: files w
              /\ stream_of w' g = Some {| target := Some t; pending := [] |})
        \/ (st = (-2)%Z /\ f = None /\ files w' = files w)
        \/ (st = (-1)%Z /\ f = None
            /\ (files w' = files w
                \/ (fdopened = false
                    /\ exists t, is_file w t = false
                                 /\ files w' = (t, []) :: files w)))).
Proof.
  intros path copied fdopened w st f w' H.
  assert (Hnew : forall (w1 : world) (t : entry),
            files w1 = files w -> is_file w1 t = false ->
            forall e c, file_contents w e = Some c ->
                        option_map snd
                          (find (fun x => same (fst x) e) ((t, []) :: files w1))
                        = Some c).
  { intros w1 t Hf Ht e c Hc. cbn [find fst].
    destruct (same t e) eqn:Ete; [|now rewrite Hf].
    apply same_true in Ete. subst t.
    unfold is_file in Ht. rewrite Hf in Ht.
    apply (file_contents_absent w e) in Ht. congruence. }
  apply _BarFlyFileOpen_cases in H
    as [(-> & -> & Em)
       | (w1 & Em & [(t & -> & -> & -> & Hr & Hd & Hf & ->)
                    | [(t & -> & -> & -> & Hr & Hd & Hf & ->)
                      | [(t & -> & -> & -> & Hr & Hx)
                        | (e & -> & -> & -> & _)]]])];
    apply make_parents_frame in Em as (Hfiles & Hstreams & Hcwd & _ & Hdirs & _).
  - split; [assumption|]. split; [unfold file_contents; now rewrite Hfiles|].
    right. right. auto.
  - split; [assumption|].
    split; [intros e c Hc; unfold file_contents; cbn [open_stream snd files
            set_streams set_files]; now apply Hnew|].
    left. split; [reflexivity|]. split; [reflexivity|].
    exists {| fileno := unused w1 |}, t. split; [reflexivity|].
    split.
    { apply (resolve_same_dirs true w1); [reflexivity | auto | assumption]. }
    split; [unfold is_file in *; now rewrite <- Hfiles|].
    split; [cbn; now rewrite Hfiles|].
    apply (stream_of_open_stream t (set_files w1 ((t, []) :: files w1))).
  - split; [assumption|].
    split; [intros e c Hc; unfold file_contents; cbn [files set_files];
            now apply Hnew|].
    right. right. split; [reflexivity|]. split; [reflexivity|]. right.
    split; [reflexivity|]. exists t.
    split; [unfold is_file in *; now rewrite <- Hfiles|].
    cbn. now rewrite Hfiles.
  - split; [assumption|]. split; [unfold file_contents; now rewrite Hfiles|].
    right. left. auto.
  - split; [assumption|]. split; [unfold file_contents; now rewrite Hfiles|].
    right. right. auto.
Qed.

(** The theorem on the path of [recording_fly], in a file system that has
    the working directory only. *)
Lemma X7_open_witness :
  let w :=
    {| files := []; dirs := [["music"]]; cwd := ["music"]; space := 1000;
       streams := [] |} in
  let w' :=
    {| files := [(recording_entry, [])];
       dirs := [["music"; "Artist"; "Album"]; ["music"; "Artist"]; ["music"]];
       cwd := ["music"]; space := 1000;
       streams := [(1, recording_stream)] |} in
  let f := Some {| fileno := 1 |} in
  (forall d, In d (dirs w) -> In d (dirs w'))
  /\ (forall e c, file_contents w e = Some c -> file_contents w' e = Some c)
  /\ ((0%Z = 0%Z /\ true = true
       /\ exists g t,
            f = Some g
            /\ resolve true w' "Artist/Album/Title.mp3" = inr t
            /\ is_file w t = false
            /\ files w' = (t, []) :: files w
            /\ stream_of w' g = Some {| target := Some t; pending := [] |})
      \/ (0%Z = (-2)%Z /\ f = None /\ files w' = files w)
      \/ (0%Z = (-1)%Z /\ f = None
          /\ (files w' = files w
              \/ (true = false
                  /\ exists t, is_file w t = false
                               /\ files w' = (t, []) :: files w)))).
Proof.
  intros w w' f.
  exact (X7_open_creates_or_leaves_the_files "Artist/Album/Title.mp3" []
           true w 0%Z f w' eq_refl).
Defined.

(** X8.  A path name that begins with ['/'] is never opened: the first
    directory [_BarFlyFileOpen] creates is the empty prefix of the path,
    [mkdir] fails on it with [ENOENT], and the message that follows is
    formatted with an argument missing, so the call has no defined result
    (when the copy of the prefix cannot be allocated it returns -1). *)
Theorem X8_absolute_path_is_not_opened :
  forall (rest : string) (copied : list bool) (fdopened : bool) (w : world),
    _BarFlyFileOpen (String "/" rest) copied fdopened w
    = if hd true copied then None else Some ((-1)%Z, None, w).
Proof.
  intros rest copied fdopened w. unfold _BarFlyFileOpen.
  cbn [slash_prefixes Ascii.eqb Bool.eqb make_parents].
  destruct (hd true copied); reflexivity.
Qed.

(** *** [BarFlyOpen] *)

(** What [_BarFlyFileOpen] leaves when it returns 0, and when it returns
    -2. *)
Lemma _BarFlyFileOpen_created (path : string) (copied : list bool)
    (fdopened : bool) (w : world) (f : option FILE) (w' : world) :
  _BarFlyFileOpen path copied fdopened w = Some (0%Z, f, w') ->
  exists g t,
    f = Some g
    /\ resolve true w' path = inr t
    /\ is_file w t = false
    /\ files w' = (t, []) :: files w
    /\ stream_of w' g = Some {| target := Some t; pending := [] |}.
Proof.
  intros H.
  apply _BarFlyFileOpen_cases in H
    as [(E & _)
       | (w1 & Em & [(t & _ & _ & -> & Hr & Hd & Hf & ->)
                    | [(t & E & _)
                      | [(t & E & _) | (e & E & _)]]])];
    try discriminate.
  apply make_parents_frame in Em as (Hfiles & Hstreams & Hcwd & _ & Hdirs & _).
  exists {| fileno := unused w1 |}, t. split; [reflexivity|].
  split.
  { apply (resolve_same_dirs true w1); [reflexivity | auto | assumption]. }
  split; [unfold is_file in *; now rewrite <- Hfiles|].
  split; [cbn; now rewrite Hfiles|].
  apply (stream_of_open_stream t (set_files w1 ((t, []) :: files w1))).
Qed.

Lemma _BarFlyFileOpen_exists (path : string) (copied : list bool)
    (fdopened : bool) (w : world) (f : option FILE) (w' : world) :
  _BarFlyFileOpen path copied fdopened w = Some ((-2)%Z, f, w') ->
  f = None /\ files w' = files w
  /\ exists t, resolve true w' path = inr t
               /\ (is_dir w' t || is_file w' t) = true.
Proof.
  intros H.
  apply _BarFlyFileOpen_cases in H
    as [(E & _)
       | (w1 & Em & [(t & E & _)
                    | [(t & E & _)
                      | [(t & _ & -> & -> & Hr & Hx) | (e & E & _)]]])];
    try discriminate.
  apply make_parents_frame in Em as (Hfiles & _).
  split; [reflexivity|]. split; [assumption|]. now exists t.
Qed.

(** The scrapes leave the temporary structure without a stream and without
    a path, not completed and not recording. *)
Lemma scrape_fields
    (fetch : string -> option (list Z)) (parse_year : list Z -> option nat)
    (parse_cover : list Z -> option string)
    (regexec : string -> list Z -> option (nat * nat))
    (song : PianoSong_t) (st : Z) (fly : BarFly_t) :
  scrape fetch parse_year parse_cover regexec song = Some (st, fly) ->
  completed fly = false /\ audio_file fly = NULL
  /\ audio_file_path fly = NULL /\ status fly = NOT_RECORDING
  /\ cover_art_url fly <> Released.
Proof.
  unfold scrape, _BarFlyParseTrackDisc.
  destruct (fetch (albumDetailURL song)) as [buf1|];
    [destruct (parse_year buf1); destruct (parse_cover buf1) |];
    (destruct (fetch (albumExplorerUrl song)) as [buf2|];
     [destruct (fits (regex_title (song_title song)));
      [destruct (regexec (regex_title (song_title song)) buf2) as [[t d]|] |]
     |]);
    intros [= <- <-]; repeat split; discriminate.
Qed.

(** The cases of [BarFlyOpen]. *)
Lemma BarFlyOpen_cases
    (fetch : string -> option (list Z)) (parse_year : list Z -> option nat)
    (parse_cover : list Z -> option string)
    (regexec : string -> list Z -> option (nat * nat))
    (song : PianoSong_t) (settings : BarSettings_t) (allocated : bool)
    (copied : list bool) (fdopened : bool) (w : world)
    (st : Z) (out : option BarFly_t) (w' : world) :
  BarFlyOpen fetch parse_year parse_cover regexec song settings allocated
    copied fdopened w = Some (st, out, w') ->
  exists (st0 : Z) (fly0 : BarFly_t),
    scrape fetch parse_year parse_cover regexec song = Some (st0, fly0)
    /\ ((_BarFlyFileGetPath (song_artist song) (song_album song)
           (song_title song) (year fly0) (track fly0) (disc fly0)
           (audioFormat song) settings allocated = Some None
         /\ st = (-1)%Z /\ out = None /\ w' = w)
        \/ exists (path : string) (st1 : Z) (f : option FILE),
             _BarFlyFileGetPath (song_artist song) (song_album song)
               (song_title song) (year fly0) (track fly0) (disc fly0)
               (audioFormat song) settings allocated = Some (Some path)
             /\ _BarFlyFileOpen path copied fdopened w = Some (st1, f, w')
             /\ ((st1 = 0%Z /\ st = st0
                  /\ exists g, f = Some g
                     /\ out = Some (set_status
                                      (set_audio_file
                                         (set_audio_file_path fly0 (Live path))
                                         (Live g))
                                      RECORDING))
                 \/ (st1 = (-2)%Z /\ st = st0 /\ f = None
                     /\ out = Some (set_completed
                                      (set_status
                                         (set_audio_file_path fly0 (Live path))
                                         NOT_RECORDING_EXIST)
                                      true))
                 \/ (st1 = (-1)%Z /\ st = (-1)%Z /\ f = None /\ out = None))).
Proof.
  unfold BarFlyOpen. intros H.
  destruct (scrape fetch parse_year parse_cover regexec song)
    as [[st0 fly0]|]; [|discriminate].
  exists st0, fly0. split; [reflexivity|].
  destruct (_BarFlyFileGetPath (song_artist song) (song_album song)
              (song_title song) (year fly0) (track fly0) (disc fly0)
              (audioFormat song) settings allocated) as [[path|]|];
    [| injection H as <- <- <-; now left | discriminate].
  right.
  destruct (_BarFlyFileOpen path copied fdopened w) as [[[st1 f] w1]|] eqn:Eo;
    [|discriminate].
  exists path, st1, f. split; [reflexivity|].
  assert (Hcases : (st1 = 0%Z /\ exists g, f = Some g)
                   \/ (st1 = (-2)%Z /\ f = None)
                   \/ (st1 = (-1)%Z /\ f = None)).
  { apply _BarFlyFileOpen_cases in Eo
      as [(-> & -> & _)
         | (w2 & _ & [(t & -> & _ & -> & _)
                     | [(t & -> & _ & -> & _)
                       | [(t & -> & -> & _) | (e & -> & -> & _)]]])]; eauto. }
  destruct Hcases as [(-> & g & ->) | [(-> & ->) | (-> & ->)]];
    injection H as <- <- <-.
  - split; [assumption|]. left. split; [reflexivity|].
    split; [reflexivity|]. now exists g.
  - split; [assumption|]. right. left. now repeat split.
  - split; [assumption|]. right. right. now repeat split.
Qed.

(** After a call that writes it, the structure satisfies the invariant on
    the handle. *)
Lemma BarFlyOpen_handle_iff_recording
    (fetch : string -> option (list Z)) (parse_year : list Z -> option nat)
    (parse_cover : list Z -> option string)
    (regexec : string -> list Z -> option (nat * nat))
    (song : PianoSong_t) (settings : BarSettings_t) (allocated : bool)
    (copied : list bool) (fdopened : bool) (w : world)
    (st : Z) (output_fly : BarFly_t) (w' : world) :
  BarFlyOpen fetch parse_year parse_cover regexec song settings allocated
    copied fdopened w = Some (st, Some output_fly, w') ->
  handle_iff_recording output_fly.
Proof.
  intros H. apply BarFlyOpen_cases in H as (st0 & fly0 & Hs & H).
  apply scrape_fields in Hs as (_ & Hf & _).
  destruct H as [(_ & _ & H & _) | (path & st1 & f & _ & _ & H)];
    [discriminate|].
  destruct H as [(_ & _ & g & _ & [= ->])
                | [(_ & _ & _ & [= ->]) | (_ & _ & _ & H)]];
    [| | discriminate];
    unfold handle_iff_recording, handle_exists; cbn; split.
  - reflexivity.
  - intros _. now exists g.
  - rewrite Hf. intros [f' [=]].
  - discriminate.
Qed.



(** X10.  A recording that exists is left alone: when [BarFlyOpen] finds
    the file (the status is [NOT_RECORDING_EXIST]), every file is as it
    was, each [BarFlyWrite] that follows returns 0 and writes nothing, and
    [BarFlyClose] returns 0 and deletes nothing. *)
Theorem X10_existing_recording_is_left_alone :
  forall (fetch : string -> option (list Z))
         (parse_year : list Z -> option nat)
         (parse_cover : list Z -> option string)
         (regexec : string -> list Z -> option (nat * nat))
         (song : PianoSong_t) (settings : BarSettings_t) (allocated : bool)
         (copied : list bool) (fdopened : bool) (w : world)
         (st : Z) (fly1 : BarFly_t) (w1 : world),
    BarFlyOpen fetch parse_year parse_cover regexec song settings allocated
      copied fdopened w = Some (st, Some fly1, w1) ->
    status fly1 = NOT_RECORDING_EXIST ->
    files w1 = files w
    /\ (forall (libc : stdio) (data : list Z),
          BarFlyWrite libc fly1 data w1 = Some (0%Z, w1))
    /\ (forall duplicated : bool,
          exists fly2 : BarFly_t,
            BarFlyClose fly1 duplicated w1 = Some (0%Z, fly2, w1)).
Proof.
  intros fetch parse_year parse_cover regexec song settings allocated copied
    fdopened w st fly1 w1 H Hst.
  apply BarFlyOpen_cases in H as (st0 & fly0 & Hs & H).
  apply scrape_fields in Hs as (Hc & Hf & Hp & _ & Hu).
  destruct H as [(_ & _ & H & _) | (path & st1 & f & _ & Ho & H)];
    [discriminate|].
  destruct H as [(_ & _ & g & _ & [= ->])
                | [(-> & _ & -> & [= ->]) | (_ & _ & _ & H)]];
    [discriminate Hst | | discriminate].
  split.
  { now apply _BarFlyFileOpen_exists in Ho. }
  split.
  - intros libc data. reflexivity.
  - intros duplicated.
    destruct fly0 as [af afp fmt comp ar al ti y t d url stt].
    cbn [audio_file completed cover_art_url] in Hf, Hc, Hu. subst af comp.
    destruct url as [|url|]; [| |now elim Hu]; eexists; reflexivity.
Qed.

(** The theorem on a song whose file is there. *)
Lemma X10_existing_recording_witness :
  let fly1 :=
    {| audio_file := NULL;
       audio_file_path := Live "Artist/Album/Title.mp3";
       audio_format := PIANO_AF_MP3; completed := true;
       artist := "Artist"; album := "Album"; title := "Title";
       year := 0; track := 0; disc := 0;
       cover_art_url := NULL; status := NOT_RECORDING_EXIST |} in
  files recording_world = files recording_world
  /\ (forall (libc : stdio) (data : list Z),
        BarFlyWrite libc fly1 data recording_world
        = Some (0%Z, recording_world))
  /\ (forall duplicated : bool,
        exists fly2 : BarFly_t,
          BarFlyClose fly1 duplicated recording_world
          = Some (0%Z, fly2, recording_world)).
Proof.
  intros fly1.
  exact (X10_existing_recording_is_left_alone
           (fun _ => None) (fun _ => None) (fun _ => None) (fun _ _ => None)
           {| song_artist := "Artist"; song_album := "Album";
              song_title := "Title"; audioFormat := PIANO_AF_MP3;
              albumDetailURL := "http://detail";
              albumExplorerUrl := "http://explorer" |}
           {| audioFileName := "%artist/%album/%title"; useSpaces := true;
              embedCover := true |}
           true [] true recording_world (-1)%Z fly1 recording_world
           eq_refl eq_refl).
Defined.

(** *** Path names made of names *)

Lemma strrchr_slash_lt (s : string) (i : nat) :
  strrchr_slash s = Some i -> i < String.length s.
Proof.
  revert i; induction s as [|c s IH]; intros i; cbn; [discriminate|].
  destruct (strrchr_slash s) as [j|].
  - intros [= <-]. specialize (IH j eq_refl). lia.
  - destruct (c =? "/")%char; [intros [= <-]; lia | discriminate].
Qed.

Lemma length_take (n : nat) (s : string) :
  String.length (take n s) = Nat.min n (String.length s).
Proof.
  revert s; induction n as [|n IH]; intros [|c s]; cbn; auto.
Qed.

Lemma parent_dir_shorter (p d : string) :
  parent_dir p = Some d -> String.length d < String.length p.
Proof.
  unfold parent_dir. destruct (strrchr_slash p) as [i|] eqn:E; [|discriminate].
  intros [= <-]. apply strrchr_slash_lt in E. rewrite length_take. lia.
Qed.

Lemma ancestor_shorter (d p : string) :
  ancestor d p -> String.length d < String.length p.
Proof.
  induction 1 as [p H | p q H _ IH].
  - now apply parent_dir_shorter.
  - apply parent_dir_shorter in H. lia.
Qed.

(** The components of a path name on both sides of a slash. *)
Lemma components_app (p1 p2 : string) :
  forall b : string,
    components b (p1 ++ String "/" p2)
    = (components b p1 ++ components "" p2)%list.
Proof.
  induction p1 as [|c p1 IH]; intros b; [reflexivity|].
  cbn [append components]. destruct (c =? "/")%char.
  - cbn [app]. now rewrite IH.
  - apply IH.
Qed.

Lemma components_no_slash (s : string) :
  forall b : string, strrchr_slash s = None -> components b s = [b ++ s].
Proof.
  induction s as [|c s IH]; intros b H; cbn [components strrchr_slash] in *.
  - f_equal. clear. induction b as [|a b IH]; [reflexivity|].
    cbn [append]. now rewrite <- IH.
  - destruct (strrchr_slash s); [discriminate|].
    destruct (c =? "/")%char; [discriminate|].
    rewrite IH by reflexivity. now rewrite PathFacts.append_assoc.
Qed.

Lemma components_not_nil (p b : string) : components b p <> [].
Proof.
  revert b. induction p as [|c p IH]; intros b; cbn [components];
    [discriminate|].
  destruct (c =? "/")%char; [discriminate | apply IH].
Qed.

(** A path name is its part before its last slash, the slash, and a rest
    that has none. *)
Lemma cut_at_last_slash (p : string) :
  forall i : nat,
    strrchr_slash p = Some i ->
    p = take i p ++ String "/" (advance (S i) p)
    /\ strrchr_slash (advance (S i) p) = None.
Proof.
  induction p as [|c p IH]; intros i H; cbn [strrchr_slash] in H;
    [discriminate|].
  destruct (strrchr_slash p) as [j|] eqn:E.
  - injection H as <-. destruct (IH j eq_refl) as [H1 H2].
    change (advance (S (S j)) (String c p)) with (advance (S j) p).
    change (take (S j) (String c p)) with (String c (take j p)).
    split; [cbn [append]; now f_equal | exact H2].
  - destruct (Ascii.eqb_spec c "/") as [-> | _]; [|discriminate].
    injection H as <-. cbn [take advance append]. destruct p; auto.
Qed.

(** Cutting a path name at its last slash removes its last component. *)
Lemma parent_dir_components (p q : string) :
  parent_dir p = Some q ->
  exists x : string, components "" p = (components "" q ++ [x])%list.
Proof.
  unfold parent_dir. destruct (strrchr_slash p) as [i|] eqn:E; [|discriminate].
  intros [= <-]. destruct (cut_at_last_slash p i E) as [H1 H2].
  exists (advance (S i) p). rewrite H1 at 1. rewrite components_app.
  now rewrite (components_no_slash _ "" H2).
Qed.

Lemma parent_dir_none (p : string) :
  parent_dir p = None -> components "" p = [p].
Proof.
  unfold parent_dir. destruct (strrchr_slash p) eqn:E; [discriminate|].
  intros _. now rewrite components_no_slash.
Qed.

(** The directories named in a path are the beginnings of its list of
    components. *)
Lemma ancestor_firstn (d p : string) :
  ancestor d p ->
  exists k : nat,
    0 < k < List.length (components "" p)
    /\ components "" d = firstn k (components "" p).
Proof.
  induction 1 as [p H | p q H _ (k & Hk & IH)];
    apply parent_dir_components in H as [x Hx]; rewrite Hx.
  - exists (List.length (components "" d)). rewrite length_app. cbn [List.length].
    pose proof (components_not_nil d "") as Hn.
    destruct (components "" d) as [|c cs] eqn:E; [congruence|].
    split; [cbn [List.length]; lia|].
    rewrite firstn_app, Nat.sub_diag, firstn_all. cbn [firstn].
    now rewrite app_nil_r.
  - exists k. rewrite length_app. cbn [List.length]. split; [lia|].
    rewrite firstn_app.
    replace (k - List.length (components "" q)) with 0 by lia.
    cbn [firstn]. now rewrite app_nil_r.
Qed.

Lemma proper_step (cur : entry) (c : string) :
  proper c = true -> step cur c = (cur ++ [c])%list.
Proof.
  unfold proper, step. intros H.
  apply andb_true_iff in H as [H H3]. apply andb_true_iff in H as [H1 H2].
  apply negb_true_iff in H1, H2, H3. now rewrite H1, H2, H3.
Qed.

Lemma proper_fold (cs : list string) :
  forall cur : entry,
    forallb proper cs = true -> fold_left step cs cur = (cur ++ cs)%list.
Proof.
  induction cs as [|c cs IH]; intros cur H; cbn [fold_left forallb] in *.
  - now rewrite app_nil_r.
  - apply andb_true_iff in H as [Hc H].
    rewrite proper_step, IH by assumption. now rewrite <- app_assoc.
Qed.

Lemma proper_trim (cs : list string) :
  forallb proper cs = true -> trim cs = cs.
Proof.
  induction cs as [|c cs IH]; intros H; [reflexivity|].
  cbn [forallb trim] in *. apply andb_true_iff in H as [Hc H].
  rewrite (IH H). destruct cs; [|reflexivity].
  destruct (String.eqb_spec c "") as [-> | _]; [discriminate | reflexivity].
Qed.

Lemma proper_firstn (k : nat) (cs : list string) :
  forallb proper cs = true -> forallb proper (firstn k cs) = true.
Proof.
  rewrite !forallb_forall. intros H c Hc. apply H.
  rewrite <- (firstn_skipn k cs). apply in_or_app. now left.
Qed.

Lemma plain_relative (p : string) :
  plain p = true ->
  absolute p = false /\ String.eqb p "" = false.
Proof.
  unfold plain. destruct p as [|c p]; [discriminate|].
  cbn [absolute components]. destruct (c =? "/")%char; [discriminate|].
  auto.
Qed.

Lemma plain_place (origin : entry) (p : string) :
  plain p = true -> place origin p = (origin ++ components "" p)%list.
Proof.
  intros H. unfold place. destruct (plain_relative p H) as [-> _].
  now apply proper_fold.
Qed.

(** *** Removing the directories *)

(** The resolution of components that are names looks each beginning of
    the list up as a directory. *)
Lemma walk_proper (w : world) (cs : list string) :
  forall cur : entry,
    forallb proper cs = true ->
    (forall c, In c cs -> (NAME_MAX <? String.length c)%nat = false) ->
    (forall k, k < List.length cs ->
               is_dir w (cur ++ firstn k cs)%list = true) ->
    walk w cur cs = inr (cur ++ cs)%list.
Proof.
  induction cs as [|c cs IH]; intros cur Hp Hn Hd; cbn [walk].
  - now rewrite app_nil_r.
  - cbn [forallb] in Hp. apply andb_true_iff in Hp as [Hc Hp].
    assert (H0 : is_dir w cur = true).
    { specialize (Hd 0). cbn [firstn List.length] in Hd.
      rewrite app_nil_r in Hd. apply Hd. lia. }
    rewrite H0, (Hn c (or_introl eq_refl)), proper_step by assumption.
    rewrite IH; [now rewrite <- app_assoc | assumption | |].
    + intros c' Hc'. apply Hn. now right.
    + intros k Hk. specialize (Hd (S k)). cbn [firstn List.length] in Hd.
      rewrite <- app_assoc. apply Hd. lia.
Qed.

Lemma walk_proper_inv (w : world) (cs : list string) :
  forall cur e : entry,
    forallb proper cs = true ->
    walk w cur cs = inr e ->
    (forall c, In c cs -> (NAME_MAX <? String.length c)%nat = false)
    /\ (forall k, k < List.length cs ->
                  is_dir w (cur ++ firstn k cs)%list = true).
Proof.
  induction cs as [|c cs IH]; intros cur e Hp H; cbn [walk] in H.
  - split; [intros c [] | cbn [List.length]; intros k Hk; lia].
  - cbn [forallb] in Hp. apply andb_true_iff in Hp as [Hc Hp].
    destruct (is_dir w cur) eqn:Ed; [|discriminate].
    destruct (NAME_MAX <? String.length c)%nat eqn:En; [discriminate|].
    rewrite proper_step in H by assumption.
    destruct (IH _ _ Hp H) as [Hn Hd]. split.
    + intros c' [<- | Hc']; [assumption | now apply Hn].
    + intros [|k] Hk; cbn [firstn].
      * now rewrite app_nil_r.
      * cbn [List.length] in Hk. specialize (Hd k).
        rewrite <- app_assoc in Hd. apply Hd. lia.
Qed.

Lemma proper_last (cs : list string) :
  forallb proper cs = true -> cs <> [] -> proper (last cs "") = true.
Proof.
  induction cs as [|c cs IH]; intros H Hne; [congruence|].
  cbn [forallb] in H. apply andb_true_iff in H as [Hc H].
  destruct cs as [|c' cs]; [exact Hc|].
  change (last (c :: c' :: cs) "") with (last (c' :: cs) "").
  apply IH; [assumption | discriminate].
Qed.

Lemma is_dir_filter_other (w : world) (e d : entry) :
  d <> e ->
  is_dir (set_dirs w (filter (fun x => negb (same x e)) (dirs w))) d
  = is_dir w d.
Proof.
  intros Hne. destruct (is_dir w d) eqn:E.
  - apply is_dir_In. apply is_dir_In in E as [-> | E]; [now left|].
    right. cbn [dirs set_dirs]. apply filter_In. split; [assumption|].
    apply negb_true_iff. now apply same_false.
  - destruct (is_dir (set_dirs w _) d) eqn:E'; [|reflexivity].
    apply is_dir_In in E' as [-> | E']; [discriminate E|].
    cbn [dirs set_dirs] in E'. apply filter_In in E' as [E' _].
    assert (is_dir w d = true) by (apply is_dir_In; now right). congruence.
Qed.

(** [rmdir] on a path name made of names, each directory named in it
    being there. *)
Lemma rmdir_plain (q : string) (w : world) :
  plain q = true ->
  String.length q < PATH_MAX ->
  (forall c, In c (components "" q) ->
             (NAME_MAX <? String.length c)%nat = false) ->
  (forall k, k <= List.length (components "" q) ->
             is_dir w (cwd w ++ firstn k (components "" q))%list = true) ->
  rmdir q w
  = if has_entries w (cwd w ++ components "" q)%list
    then ((-1)%Z, Some ENOTEMPTY, w)
    else (0%Z, None,
          set_dirs w
            (filter (fun x => negb (same x (cwd w ++ components "" q)%list))
               (dirs w))).
Proof.
  intros Hp Hlen Hn Hd. unfold rmdir, resolve, last_component.
  destruct (plain_relative q Hp) as [-> ->].
  apply Nat.leb_gt in Hlen. rewrite Hlen.
  unfold plain in Hp. rewrite (proper_trim _ Hp).
  rewrite (walk_proper w _ (cwd w) Hp Hn)
    by (intros k Hk; apply Hd; lia).
  pose proof (proper_last _ Hp (components_not_nil q "")) as Hl.
  unfold proper in Hl.
  apply andb_true_iff in Hl as [Hl H3]. apply andb_true_iff in Hl as [_ H2].
  apply negb_true_iff in H2, H3. rewrite H2, H3.
  specialize (Hd _ (le_n _)). rewrite firstn_all in Hd. rewrite Hd.
  destruct (cwd w ++ components "" q)%list as [|n e] eqn:E; [|reflexivity].
  apply app_eq_nil in E as [_ E]. now apply components_not_nil in E.
Qed.

(** An entry of a directory is one name longer than the directory. *)
Lemma inside_length (d e : entry) :
  inside d e = true -> List.length e = S (List.length d).
Proof.
  unfold inside. destruct e as [|n e]; [discriminate|].
  intros H. apply same_true in H. subst d.
  assert (Hne : n :: e <> []) by discriminate.
  rewrite (app_removelast_last n Hne) at 1.
  rewrite length_app. cbn [List.length]. lia.
Qed.

(** The loop removes directories named in the path, and nothing else; it
    leaves the files, the streams and the working directory. *)
Lemma delete_parents_frame (fuel : nat) :
  forall (p : string) (w : world) (st : Z) (w' : world),
    delete_parents fuel p w = Some (st, w') ->
    files w' = files w
    /\ streams w' = streams w
    /\ cwd w' = cwd w
    /\ (forall x, In x (dirs w') -> In x (dirs w))
    /\ (forall x, In x (dirs w) ->
          In x (dirs w')
          \/ exists q, ancestor q p /\ x = place (cwd w) q)
    /\ (forall x, In x (dirs w) ->
          existsb (fun f => inside x (fst f)) (files w) = true ->
          In x (dirs w')).
Proof.
  induction fuel as [|fuel IH]; intros p w st w' H; cbn [delete_parents] in H.
  - injection H as <- <-. repeat split; auto.
  - destruct (parent_dir p) as [d|] eqn:Ep;
      [| injection H as <- <-; repeat split; auto].
    assert (Hup : forall (v : world) (x : entry),
               cwd v = cwd w ->
               (exists q, ancestor q d /\ x = place (cwd v) q) ->
               exists q, ancestor q p /\ x = place (cwd w) q).
    { intros v x Hv (q & Hq & ->). exists q. rewrite Hv.
      split; [now apply ancestor_up with d | reflexivity]. }
    unfold rmdir in H.
    destruct (resolve false w d) as [er|e] eqn:Er.
    { destruct er; try discriminate H; apply IH in H
        as (Hf & Hs & Hc & Hsub & Hrem & Hkeep);
        repeat split; try assumption;
        intros x Hx; destruct (Hrem x Hx); eauto. }
    destruct (String.eqb (last_component d) ".") ; [discriminate|].
    destruct (String.eqb (last_component d) "..").
    { apply IH in H as (Hf & Hs & Hc & Hsub & Hrem & Hkeep).
      repeat split; try assumption.
      intros x Hx; destruct (Hrem x Hx); eauto. }
    destruct e as [|n e]; [discriminate|].
    destruct (is_dir w (n :: e)) eqn:Ed.
    2:{ destruct (is_file w (n :: e)); discriminate. }
    destruct (has_entries w (n :: e)) eqn:Eh.
    { apply IH in H as (Hf & Hs & Hc & Hsub & Hrem & Hkeep).
      repeat split; try assumption.
      intros x Hx; destruct (Hrem x Hx); eauto. }
    apply IH in H as (Hf & Hs & Hc & Hsub & Hrem & Hkeep).
    cbn [files streams cwd dirs set_dirs] in *.
    split; [assumption|]. split; [assumption|]. split; [assumption|].
    split; [|split].
    + intros x Hx. apply Hsub in Hx. now apply filter_In in Hx.
    + intros x Hx. destruct (same x (n :: e)) eqn:Ex.
      * apply same_true in Ex. subst x. right. exists d.
        split; [now apply ancestor_parent|].
        now apply resolve_place in Er.
      * destruct (Hrem x) as [Hin | Hq]; [| now left | eauto].
        apply filter_In. split; [assumption|]. now rewrite Ex.
    + intros x Hx Hfile. apply Hkeep; [|assumption].
      apply filter_In. split; [assumption|].
      apply negb_true_iff, same_false. intros ->.
      unfold has_entries in Eh. now rewrite Hfile in Eh.
Qed.

(** On a path name made of names, each directory named in it being there,
    the loop returns 0 and leaves none of them empty. *)
Lemma delete_parents_plain (fuel : nat) :
  forall (p : string) (w : world),
    String.length p <= fuel ->
    plain p = true ->
    String.length p < PATH_MAX ->
    (forall c, In c (components "" p) ->
               (NAME_MAX <? String.length c)%nat = false) ->
    (forall k, k < List.length (components "" p) ->
               is_dir w (cwd w ++ firstn k (components "" p))%list = true) ->
    exists w' : world,
      delete_parents fuel p w = Some (0%Z, w')
      /\ (forall k, 0 < k < List.length (components "" p) ->
            is_dir w' (cwd w ++ firstn k (components "" p))%list = true ->
            has_entries w' (cwd w ++ firstn k (components "" p))%list = true).
Proof.
  induction fuel as [|fuel IH]; intros p w Hfuel Hp Hlen Hn Hd.
  { destruct p; [discriminate Hp | cbn in Hfuel; lia]. }
  cbn [delete_parents]. destruct (parent_dir p) as [q|] eqn:Ep.
  2:{ exists w. split; [reflexivity|].
      rewrite (parent_dir_none p Ep). cbn [List.length]. intros k Hk. lia. }
  pose proof (parent_dir_shorter _ _ Ep) as Hshort.
  destruct (parent_dir_components _ _ Ep) as [x Hx].
  set (cq := components "" q) in *.
  assert (Hpq : plain q = true).
  { unfold plain in *. fold cq. rewrite Hx, forallb_app in Hp.
    now apply andb_true_iff in Hp as [Hp _]. }
  assert (Hnq : forall c, In c cq -> (NAME_MAX <? String.length c)%nat = false).
  { intros c Hc. apply Hn. rewrite Hx. apply in_or_app. now left. }
  assert (Hfirst : forall k, k <= List.length cq ->
                     firstn k (components "" p) = firstn k cq).
  { intros k Hk. rewrite Hx, firstn_app.
    replace (k - List.length cq) with 0 by lia.
    cbn [firstn]. now rewrite app_nil_r. }
  assert (Hcs : List.length (components "" p) = S (List.length cq)).
  { rewrite Hx, length_app. cbn [List.length]. lia. }
  assert (Hdq : forall k, k <= List.length cq ->
                  is_dir w (cwd w ++ firstn k cq)%list = true).
  { intros k Hk. rewrite <- Hfirst by assumption. apply Hd. lia. }
  rewrite (rmdir_plain q w Hpq) by (assumption || lia).
  fold cq. set (e := (cwd w ++ cq)%list).
  assert (Hcqne : cq <> []) by apply components_not_nil.
  assert (Hdiff : forall k, k < List.length cq -> (cwd w ++ firstn k cq)%list <> e).
  { intros k Hk E. apply (f_equal (@List.length string)) in E.
    unfold e in E. rewrite !length_app, length_firstn in E. lia. }
  destruct (has_entries w e) eqn:Eh.
  - destruct (IH q w) as (w' & Ed & Hemp); try assumption; try lia.
    { intros k Hk. apply Hdq. fold cq in Hk. lia. }
    exists w'. split; [exact Ed|].
    intros k Hk. rewrite Hcs in Hk. rewrite Hfirst by lia.
    destruct (Nat.eq_dec k (List.length cq)) as [-> | Hne].
    + intros _. rewrite firstn_all. fold e.
      apply delete_parents_frame in Ed as (Hf & _ & _ & _ & Hrem & _).
      unfold has_entries in *. rewrite Hf.
      destruct (existsb (fun x0 => inside e (fst x0)) (files w));
        [reflexivity|].
      cbn [orb] in *. apply existsb_exists in Eh as (y & Hy & Hin).
      apply existsb_exists. exists y. split; [|assumption].
      destruct (Hrem y Hy) as [H | (r & Hr & ->)]; [assumption|].
      exfalso. apply inside_length in Hin.
      apply ancestor_firstn in Hr as (j & Hj & Ej). fold cq in Hj, Ej.
      assert (Hpr : plain r = true).
      { unfold plain. rewrite Ej. now apply proper_firstn. }
      rewrite (plain_place _ _ Hpr), Ej in Hin. unfold e in Hin.
      rewrite !length_app, length_firstn in Hin. lia.
    + fold cq in Hemp. rewrite <- (Hfirst k) by lia.
      rewrite Hfirst by lia. apply Hemp. lia.
  - set (w1 := set_dirs w (filter (fun y => negb (same y e)) (dirs w))).
    destruct (IH q w1) as (w' & Ed & Hemp); try assumption; try lia.
    { intros k Hk. fold cq in Hk. change (cwd w1) with (cwd w). fold cq.
      unfold w1. rewrite is_dir_filter_other by now apply Hdiff.
      apply Hdq. lia. }
    exists w'. split; [exact Ed|].
    intros k Hk. rewrite Hcs in Hk. rewrite Hfirst by lia.
    destruct (Nat.eq_dec k (List.length cq)) as [-> | Hne].
    + rewrite firstn_all. fold e. intros Hdir. exfalso.
      apply delete_parents_frame in Ed as (_ & _ & _ & Hsub & _).
      apply is_dir_In in Hdir as [Hnil | Hin].
      * unfold e in Hnil. apply app_eq_nil in Hnil as [_ Hnil]. congruence.
      * apply Hsub in Hin. unfold w1 in Hin. cbn [dirs set_dirs] in Hin.
        apply filter_In in Hin as [_ Hin]. now rewrite same_refl in Hin.
    + fold cq in Hemp. change (cwd w1) with (cwd w) in Hemp.
      apply Hemp. lia.
Qed.

(** *** Closing *)

Lemma unlink_cases (p : string) (w : world) :
  (exists t,
      resolve true w p = inr t /\ is_file w t = true
      /\ unlink p w
         = (0%Z,
            {| files := filter (fun x => negb (same (fst x) t)) (files w);
               dirs := dirs w; cwd := cwd w; space := space w;
               streams := forget t (streams w) |}))
  \/ unlink p w = ((-1)%Z, w).
Proof.
  unfold unlink. destruct (resolve true w p) as [e|t] eqn:Er; [now right|].
  destruct (is_file w t) eqn:Ef; [|now right].
  left. now exists t.
Qed.

Lemma resolve_length (trailing : bool) (w : world) (p : string) (e : entry) :
  resolve trailing w p = inr e -> String.length p < PATH_MAX.
Proof.
  unfold resolve. destruct (String.eqb p ""); [discriminate|].
  destruct (PATH_MAX <=? String.length p)%nat eqn:E; [discriminate|].
  intros _. now apply Nat.leb_gt.
Qed.

(** A path name made of names that resolves: its components are short
    enough and every directory named in it is there. *)
Lemma resolve_plain_inv (w : world) (p : string) (e : entry) :
  plain p = true ->
  resolve true w p = inr e ->
  (forall c, In c (components "" p) ->
             (NAME_MAX <? String.length c)%nat = false)
  /\ (forall k, k < List.length (components "" p) ->
                is_dir w (cwd w ++ firstn k (components "" p))%list = true).
Proof.
  intros Hp H. unfold resolve in H.
  destruct (plain_relative p Hp) as [Ha Hn]. rewrite Ha, Hn in H.
  destruct (PATH_MAX <=? String.length p)%nat; [discriminate|].
  now apply walk_proper_inv in H.
Qed.

Lemma filter_absent (l : list (entry * list Z)) (t : entry) :
  existsb (fun x => same (fst x) t) l = false ->
  filter (fun x => negb (same (fst x) t)) l = l.
Proof.
  induction l as [|[n c] l IH]; [reflexivity|].
  cbn [existsb filter fst]. intros H. apply orb_false_elim in H as [H1 H2].
  rewrite H1. cbn [negb]. now rewrite IH.
Qed.

Lemma is_file_filter_self (l : list (entry * list Z)) (t : entry) :
  existsb (fun x => same (fst x) t)
    (filter (fun x => negb (same (fst x) t)) l) = false.
Proof.
  induction l as [|[n c] l IH]; [reflexivity|].
  cbn [filter fst]. destruct (same n t) eqn:E; cbn [negb]; [exact IH|].
  cbn [existsb fst]. now rewrite E.
Qed.

Lemma is_file_filter_other (l : list (entry * list Z)) (e t : entry) :
  e <> t ->
  existsb (fun x => same (fst x) e)
    (filter (fun x => negb (same (fst x) t)) l)
  = existsb (fun x => same (fst x) e) l.
Proof.
  intros He. induction l as [|[n c] l IH]; [reflexivity|].
  cbn [filter fst]. destruct (same n t) eqn:E; cbn [negb existsb fst].
  - apply same_true in E. subst n.
    assert (E : same t e = false) by (apply same_false; congruence).
    now rewrite E.
  - now rewrite IH.
Qed.

(** [_BarFlyFileDelete] on a path name made of names that reaches a
    file. *)
Lemma _BarFlyFileDelete_plain (fly : BarFly_t) (path : string) (t : entry)
    (duplicated : bool) (w : world) :
  audio_file_path fly = Live path ->
  plain path = true ->
  resolve true w path = inr t ->
  is_file w t = true ->
  exists w' : world,
    _BarFlyFileDelete fly duplicated w
    = Some ((if duplicated then 0%Z else (-1)%Z), w')
    /\ files w' = filter (fun x => negb (same (fst x) t)) (files w)
    /\ (forall x, In x (dirs w') -> In x (dirs w))
    /\ (duplicated = false -> dirs w' = dirs w)
    /\ (duplicated = true ->
        forall d, ancestor d path ->
                  is_dir w' (place (cwd w) d) = true ->
                  has_entries w' (place (cwd w) d) = true).
Proof.
  intros Hpath Hp Hr Hf. unfold _BarFlyFileDelete. rewrite Hpath.
  destruct (unlink_cases path w) as [(t' & Hr' & _ & ->) | E].
  2:{ unfold unlink in E. rewrite Hr, Hf in E. discriminate. }
  assert (t' = t) by congruence. subst t'. clear Hr'.
  set (w1 := {| files := filter (fun x => negb (same (fst x) t)) (files w);
                dirs := dirs w; cwd := cwd w; space := space w;
                streams := forget t (streams w) |}).
  destruct duplicated.
  2:{ exists w1. repeat split; auto. discriminate. }
  destruct (resolve_plain_inv w path t Hp Hr) as [Hn Hd].
  destruct (delete_parents_plain (String.length path) path w1 (le_n _) Hp
              (resolve_length _ _ _ _ Hr) Hn Hd)
    as (w' & Ed & Hemp).
  exists w'. split; [exact Ed|].
  pose proof (delete_parents_frame _ _ _ _ _ Ed) as (Hfiles & _ & _ & Hsub & _).
  split; [exact Hfiles|]. split; [exact Hsub|].
  split; [discriminate|].
  intros _ d Hanc.
  apply ancestor_firstn in Hanc as (k & Hk & Ek).
  assert (Hpd : plain d = true).
  { unfold plain. rewrite Ek. now apply proper_firstn. }
  rewrite (plain_place _ _ Hpd), Ek. now apply Hemp.
Qed.

(** [BarFlyClose] on a recorder that is not completed and whose stream is
    open: the stream is closed, and what [_BarFlyFileDelete] does
    follows. *)
Lemma BarFlyClose_abort (fly : BarFly_t) (f : FILE) (s : stream)
    (duplicated : bool) (w : world) :
  completed fly = false ->
  audio_file fly = Live f ->
  stream_of w f = Some s ->
  audio_file_path fly <> NULL ->
  cover_art_url fly <> Released ->
  exists (st0 : Z) (w0 : world) (fly' : BarFly_t),
    fclose f w = Some (st0, w0)
    /\ audio_file fly' = Released
    /\ audio_file_path fly' = Released
    /\ completed fly' = false
    /\ status fly' = DELETING
    /\ forall (st : Z) (w' : world),
         _BarFlyFileDelete fly duplicated w0 = Some (st, w') ->
         BarFlyClose fly duplicated w
         = Some ((if (st =? 0)%Z then 0%Z else (-1)%Z), fly', w').
Proof.
  intros Hc Hf Hs Hp Hu.
  destruct (fclose_cases f w s Hs) as (st0 & w0 & Ec & _).
  destruct fly as [af afp fmt comp ar al ti y t d url stt].
  cbn [audio_file completed audio_file_path cover_art_url] in Hc, Hf, Hp, Hu.
  subst af comp.
  exists st0, w0.
  exists {| audio_file := Released; audio_file_path := Released;
            audio_format := fmt; completed := false;
            artist := ar; album := al; title := ti;
            year := y; track := t; disc := d;
            cover_art_url := match url with NULL => NULL | _ => Released end;
            status := DELETING |}.
  split; [exact Ec|]. repeat split.
  intros st w' Hdel. unfold BarFlyClose.
  cbn [audio_file]. rewrite Ec.
  cbn [set_audio_file set_status completed negb audio_file audio_file_path
       cover_art_url audio_format artist album title year track disc status].
  unfold _BarFlyFileDelete in *.
  cbn [set_audio_file set_status audio_file_path] in *.
  rewrite Hdel.
  cbn [set_audio_file set_status set_audio_file_path set_cover_art_url
       completed audio_file audio_file_path cover_art_url audio_format
       artist album title year track disc status].
  destruct afp as [|path|]; [contradiction | | discriminate Hdel];
    destruct url as [|u|]; try contradiction; reflexivity.
Qed.

(** C7 (as amended).  On a recorder that is not completed, whose stream is
    open and whose path, made of plain names, reaches its file, the first
    [BarFlyClose] removes the partial file; when the path could be copied
    for the loop over its directories it returns 0 and leaves none of the
    directories named in the path empty, and otherwise it returns -1.  It
    releases the stream and the path without resetting the structure
    ([audio_file] and [audio_file_path] stay non-[NULL], [completed] stays
    false), so a second call is not a no-op: it closes the released stream
    again, which is undefined. *)
Theorem C7_first_close_deletes_second_is_undefined :
  forall (fly : BarFly_t) (f : FILE) (s : stream) (path : string)
         (t : entry) (duplicated : bool) (w : world),
    completed fly = false ->
    audio_file fly = Live f ->
    stream_of w f = Some s ->
    audio_file_path fly = Live path ->
    cover_art_url fly <> Released ->
    plain path = true ->
    resolve true w path = inr t ->
    is_file w t = true ->
    exists (fly' : BarFly_t) (w' : world),
      BarFlyClose fly duplicated w
      = Some ((if duplicated then 0%Z else (-1)%Z), fly', w')
      /\ is_file w' t = false
      /\ lookup w' path = None
      /\ (forall e, e <> t -> is_file w' e = is_file w e)
      /\ (forall d, In d (dirs w') -> In d (dirs w))
      /\ (duplicated = false -> dirs w' = dirs w)
      /\ (duplicated = true ->
          forall d, ancestor d path ->
                    is_dir w' (place (cwd w) d) = true ->
                    has_entries w' (place (cwd w) d) = true)
      /\ audio_file fly' = Released
      /\ audio_file_path fly' = Released
      /\ completed fly' = false
      /\ status fly' = DELETING
      /\ (forall again : bool, BarFlyClose fly' again w' = None).
Proof.
  intros fly f s path t duplicated w Hc Hf Hs Hpath Hu Hp Hr Hfile.
  destruct (BarFlyClose_abort fly f s duplicated w Hc Hf Hs)
    as (st0 & w0 & fly' & Ec & Ha & Hb & Hcc & Hst & Hclose);
    [congruence | assumption |].
  destruct (fclose_cases f w s Hs)
    as (st0' & w0' & Ec' & Hd0 & Hc0 & Hn0 & _).
  assert (w0' = w0) by congruence. subst w0'. clear Ec'.
  assert (Hr0 : resolve true w0 path = inr t).
  { apply (resolve_same_dirs true w); [assumption | | assumption].
    intros d. unfold is_dir. now rewrite Hd0. }
  assert (Hfile0 : is_file w0 t = true).
  { apply is_file_In. rewrite Hn0. now apply is_file_In. }
  destruct (_BarFlyFileDelete_plain fly path t duplicated w0 Hpath Hp Hr0
              Hfile0)
    as (w' & Ed & Hfiles & Hsub & Hkeep & Hemp).
  exists fly', w'. rewrite (Hclose _ _ Ed).
  assert (Hgone : is_file w' t = false).
  { unfold is_file. rewrite Hfiles. apply is_file_filter_self. }
  split; [now destruct duplicated|]. split; [exact Hgone|].
  split.
  { unfold lookup. destruct (resolve true w' path) as [er|t'] eqn:Er';
      [reflexivity|].
    apply resolve_place in Er'. apply resolve_place in Hr.
    assert (Hcw : cwd w' = cwd w).
    { unfold _BarFlyFileDelete in Ed. rewrite Hpath in Ed.
      destruct (unlink_cases path w0) as [(t0 & _ & _ & Eu) | Eu];
        rewrite Eu in Ed.
      - destruct duplicated; [|injection Ed as <-; exact Hc0].
        apply delete_parents_frame in Ed as (_ & _ & Hcwd & _).
        now rewrite Hcwd.
      - injection Ed as _ <-. exact Hc0. }
    rewrite Hcw, <- Hr in Er'. subst t'.
    apply file_contents_absent in Hgone. now rewrite Hgone. }
  split.
  { intros e He. unfold is_file at 1. rewrite Hfiles.
    transitivity (is_file w0 e).
    - now apply is_file_filter_other.
    - destruct (is_file w e) eqn:E.
      + apply is_file_In. rewrite Hn0. now apply is_file_In.
      + destruct (is_file w0 e) eqn:E0; [|reflexivity].
        apply is_file_In in E0. rewrite Hn0 in E0. apply is_file_In in E0.
        congruence. }
  split; [intros d Hd; rewrite <- Hd0; now apply Hsub|].
  split; [intros Hdup; rewrite <- Hd0; now apply Hkeep|].
  split.
  { intros Hdup d Hanc. rewrite <- Hc0. now apply Hemp. }
  repeat split; try assumption.
  intros again. unfold BarFlyClose. now rewrite Ha.
Qed.

(** The theorem on [recording_fly]. *)
Lemma C7_first_close_witness :
  exists (fly' : BarFly_t) (w' : world),
    BarFlyClose recording_fly true recording_world = Some (0%Z, fly', w')
    /\ is_file w' recording_entry = false
    /\ lookup w' "Artist/Album/Title.mp3" = None
    /\ (forall e, e <> recording_entry ->
                  is_file w' e = is_file recording_world e)
    /\ (forall d, In d (dirs w') -> In d (dirs recording_world))
    /\ (true = false -> dirs w' = dirs recording_world)
    /\ (true = true ->
        forall d, ancestor d "Artist/Album/Title.mp3" ->
                  is_dir w' (place (cwd recording_world) d) = true ->
                  has_entries w' (place (cwd recording_world) d) = true)
    /\ audio_file fly' = Released
    /\ audio_file_path fly' = Released
    /\ completed fly' = false
    /\ status fly' = DELETING
    /\ (forall again : bool, BarFlyClose fly' again w' = None).
Proof.
  refine (C7_first_close_deletes_second_is_undefined recording_fly
            {| fileno := 3 |} recording_stream "Artist/Album/Title.mp3"
            recording_entry true recording_world
            eq_refl eq_refl eq_refl eq_refl _ eq_refl eq_refl eq_refl).
  discriminate.
Defined.

(** C7 (as stated) fails.  The first [BarFlyClose] on [recording_fly]
    succeeds, and removes the file and the two directories of the path;
    the second call, on the structure and file system the first one has
    left, is not a no-op that succeeds: it is undefined. *)
Lemma C7_second_close_is_not_a_no_op :
  exists (fly1 : BarFly_t) (w1 : world),
    BarFlyClose recording_fly true recording_world = Some (0%Z, fly1, w1)
    /\ files w1 = [] /\ dirs w1 = [["music"]]
    /\ BarFlyClose fly1 true w1 = None
    /\ BarFlyClose fly1 true w1 <> Some (0%Z, fly1, w1).
Proof.
  eexists; eexists. split; [vm_compute; reflexivity|].
  repeat split. discriminate.
Qed.

(** *** Opening, then closing *)

Lemma device_write_nil (t : option entry) (w : world) :
  files (device_write t [] w) = files w.
Proof.
  unfold device_write. cbn [files]. destruct t as [e|]; [|reflexivity].
  induction (files w) as [|[n c] l IH]; [reflexivity|].
  cbn [map fst snd]. rewrite IH, app_nil_r. now destruct (same n e).
Qed.

(** X9.  Opening and then giving up restores the files: when [BarFlyOpen]
    has created the file (the status is [RECORDING]) and its path is made
    of plain names, the [BarFlyClose] that follows returns 0, and the
    files, with their contents, are those from before [BarFlyOpen]; no
    directory is there that was not there after [BarFlyOpen], and none of
    the directories named in the path is left empty. *)
Theorem X9_open_then_close_restores_the_files :
  forall (fetch : string -> option (list Z))
         (parse_year : list Z -> option nat)
         (parse_cover : list Z -> option string)
         (regexec : string -> list Z -> option (nat * nat))
         (song : PianoSong_t) (settings : BarSettings_t) (allocated : bool)
         (copied : list bool) (fdopened : bool) (w : world)
         (st : Z) (fly1 : BarFly_t) (w1 : world) (path : string),
    BarFlyOpen fetch parse_year parse_cover regexec song settings allocated
      copied fdopened w = Some (st, Some fly1, w1) ->
    status fly1 = RECORDING ->
    audio_file_path fly1 = Live path ->
    plain path = true ->
    exists (fly2 : BarFly_t) (w2 : world),
      BarFlyClose fly1 true w1 = Some (0%Z, fly2, w2)
      /\ files w2 = files w
      /\ (forall d, In d (dirs w2) -> In d (dirs w1))
      /\ (forall d, ancestor d path ->
                    is_dir w2 (place (cwd w1) d) = true ->
                    has_entries w2 (place (cwd w1) d) = true).
Proof.
  intros fetch parse_year parse_cover regexec song settings allocated copied
    fdopened w st fly1 w1 path Hopen Hrec Hpath Hplain.
  apply BarFlyOpen_cases in Hopen as (st0 & fly0 & Hs & H).
  apply scrape_fields in Hs as (Hc & Hf & _ & _ & Hu).
  destruct H as [(_ & _ & H & _) | (path' & st1 & f & _ & Ho & H)];
    [discriminate|].
  destruct H as [(-> & _ & g & -> & [= ->])
                | [(_ & _ & _ & [= ->]) | (_ & _ & _ & H)]];
    [| discriminate Hrec | discriminate].
  cbn [audio_file_path set_status set_audio_file set_audio_file_path] in Hpath.
  injection Hpath as ->.
  destruct (_BarFlyFileOpen_created _ _ _ _ _ _ Ho)
    as (g' & t & [= <-] & Hr & Hnew & Hfiles & Hst).
  set (fly1 := set_status _ RECORDING).
  destruct (BarFlyClose_abort fly1 g {| target := Some t; pending := [] |}
              true w1)
    as (stc & w0 & fly2 & Ec & _ & _ & _ & _ & Hclose);
    try reflexivity; try assumption; try discriminate.
  assert (Hw0 : files w0 = files w1 /\ dirs w0 = dirs w1 /\ cwd w0 = cwd w1).
  { unfold fclose in Ec. rewrite Hst in Ec. cbn [pending target] in Ec.
    injection Ec as _ <-.
    change (files (remove_stream g ?x)) with (files x).
    now rewrite device_write_nil. }
  destruct Hw0 as (Hf0 & Hd0 & Hc0).
  assert (Hr0 : resolve true w0 path = inr t).
  { apply (resolve_same_dirs true w1); [assumption | | assumption].
    intros d. unfold is_dir. now rewrite Hd0. }
  assert (Hfile0 : is_file w0 t = true).
  { unfold is_file. rewrite Hf0, Hfiles. cbn [existsb fst].
    now rewrite same_refl. }
  destruct (_BarFlyFileDelete_plain fly1 path t true w0 eq_refl Hplain Hr0
              Hfile0)
    as (w2 & Ed & Hfiles2 & Hsub & _ & Hemp).
  exists fly2, w2. rewrite (Hclose _ _ Ed). split; [reflexivity|].
  split.
  { rewrite Hfiles2, Hf0, Hfiles. cbn [filter fst].
    rewrite same_refl. cbn [negb]. now apply filter_absent. }
  split; [intros d Hd; rewrite <- Hd0; now apply Hsub|].
  intros d Hanc. rewrite <- Hc0. now apply Hemp.
Qed.

(** The theorem on the song [Title] of [Artist], recorded below a working
    directory that has nothing else. *)
Lemma X9_open_then_close_witness :
  let w :=
    {| files := []; dirs := [["music"]]; cwd := ["music"]; space := 1000;
       streams := [] |} in
  let w1 :=
    {| files := [(recording_entry, [])];
       dirs := [["music"; "Artist"; "Album"]; ["music"; "Artist"]; ["music"]];
       cwd := ["music"]; space := 1000;
       streams := [(1, recording_stream)] |} in
  let fly1 :=
    {| audio_file := Live {| fileno := 1 |};
       audio_file_path := Live "Artist/Album/Title.mp3";
       audio_format := PIANO_AF_MP3; completed := false;
       artist := "Artist"; album := "Album"; title := "Title";
       year := 0; track := 0; disc := 0;
       cover_art_url := NULL; status := RECORDING |} in
  exists (fly2 : BarFly_t) (w2 : world),
    BarFlyClose fly1 true w1 = Some (0%Z, fly2, w2)
    /\ files w2 = files w
    /\ (forall d, In d (dirs w2) -> In d (dirs w1))
    /\ (forall d, ancestor d "Artist/Album/Title.mp3" ->
                  is_dir w2 (place (cwd w1) d) = true ->
                  has_entries w2 (place (cwd w1) d) = true).
Proof.
  intros w w1 fly1.
  exact (X9_open_then_close_restores_the_files (fun _ => None)
           (fun _ => None) (fun _ => None) (fun _ _ => None)
           {| song_artist := "Artist"; song_album := "Album";
              song_title := "Title"; audioFormat := PIANO_AF_MP3;
              albumDetailURL := "http://detail";
              albumExplorerUrl := "http://explorer" |}
           {| audioFileName := "%artist/%album/%title"; useSpaces := true;
              embedCover := true |}
           true [] true w (-1)%Z fly1 w1 "Artist/Album/Title.mp3"
           eq_refl eq_refl eq_refl eq_refl).
Defined.

(** *** What deleting leaves *)

(** X13.  [_BarFlyFileDelete] removes nothing but the file of the recorder
    and directories named in its path: every other file keeps its contents,
    a directory that is not named in the path stays, and so does a
    directory that holds another file. *)
Theorem X13_delete_keeps_the_other_entries :
  forall (fly : BarFly_t) (path : string) (duplicated : bool) (w : world)
         (st : Z) (w' : world),
    audio_file_path fly = Live path ->
    _BarFlyFileDelete fly duplicated w = Some (st, w') ->
    (forall e, e <> place (cwd w) path ->
               file_contents w' e = file_contents w e)
    /\ (forall d, In d (dirs w') -> In d (dirs w))
    /\ (forall d, In d (dirs w) ->
                  (forall q, ancestor q path -> d <> place (cwd w) q) ->
                  In d (dirs w'))
    /\ (forall d x, In d (dirs w) -> In x (map fst (files w)) ->
                    x <> place (cwd w) path -> inside d x = true ->
                    In d (dirs w')).
Proof.
  intros fly path duplicated w st w' Hp H. unfold _BarFlyFileDelete in H.
  rewrite Hp in H.
  destruct (unlink_cases path w) as [(t & Hr & Hf & E) | E]; rewrite E in H.
  2:{ injection H as <- <-. repeat split; auto. }
  apply resolve_place in Hr. rewrite <- Hr.
  set (w1 := {| files := filter (fun x => negb (same (fst x) t)) (files w);
                dirs := dirs w; cwd := cwd w; space := space w;
                streams := forget t (streams w) |}) in *.
  assert (Hcont : forall e, e <> t -> file_contents w1 e = file_contents w e).
  { intros e He. unfold file_contents. cbn [files w1].
    now rewrite find_filter. }
  destruct duplicated.
  2:{ injection H as <- <-. repeat split; auto. }
  pose proof (delete_parents_frame _ _ _ _ _ H)
    as (Hfiles & _ & _ & Hsub & Hrem & Hkeep).
  split; [|split; [|split]].
  - intros e He. unfold file_contents. rewrite Hfiles.
    now apply Hcont.
  - exact Hsub.
  - intros d Hd Hn. destruct (Hrem d Hd) as [Hin | (q & Hq & ->)];
      [assumption|]. now elim (Hn q Hq).
  - intros d x Hd Hx Hne Hin. apply Hkeep; [assumption|].
    apply existsb_exists. apply in_map_iff in Hx as [y [<- Hy]].
    exists y. split; [|assumption]. cbn [files w1].
    apply filter_In. split; [assumption|].
    apply negb_true_iff, same_false. congruence.
Qed.

(** The theorem on a directory that holds two recordings, one of which is
    deleted. *)
Lemma X13_delete_witness :
  let other : entry := ["music"; "Artist"; "Album"; "Other.mp3"] in
  let w :=
    {| files := [(recording_entry, []); (other, [7%Z])];
       dirs := dirs recording_world; cwd := ["music"]; space := 1000;
       streams := [] |} in
  let w' :=
    {| files := [(other, [7%Z])];
       dirs := dirs recording_world; cwd := ["music"]; space := 1000;
       streams := [] |} in
  (forall e, e <> place (cwd w) "Artist/Album/Title.mp3" ->
             file_contents w' e = file_contents w e)
  /\ (forall d, In d (dirs w') -> In d (dirs w))
  /\ (forall d, In d (dirs w) ->
                (forall q, ancestor q "Artist/Album/Title.mp3" ->
                           d <> place (cwd w) q) ->
                In d (dirs w'))
  /\ (forall d x, In d (dirs w) -> In x (map fst (files w)) ->
                  x <> place (cwd w) "Artist/Album/Title.mp3" ->
                  inside d x = true -> In d (dirs w')).
Proof.
  intros other w w'.
  exact (X13_delete_keeps_the_other_entries recording_fly
           "Artist/Album/Title.mp3" true w 0%Z w' eq_refl eq_refl).
Defined.

(** *** The title in the regular expression *)

Lemma regex_title_char_escaped (a c : ascii) :
  In c regex_escaped -> occurs c (regex_title_char a) = false.
Proof.
  intros Hc. unfold regex_title_char.
  destruct ((a =? "^") || (a =? "$") || (a =? "(") || (a =? ")")
            || (a =? ">") || (a =? "<") || (a =? "[") || (a =? "{")
            || (a =? "\") || (a =? "|") || (a =? ".") || (a =? "*")
            || (a =? "+") || (a =? "&"))%bool%char eqn:E1.
  { cbn in Hc. decompose [or] Hc; subst; try reflexivity; contradiction. }
  destruct (a =? "?")%char eqn:E2; [reflexivity|].
  cbn [occurs]. rewrite orb_false_r.
  repeat (apply orb_false_elim in E1 as [E1 ?]).
  cbn in Hc. decompose [or] Hc; subst; try assumption; contradiction.
Qed.

Lemma regex_title_char_length (a : ascii) :
  String.length (regex_title_char a) + (if (a =? "?")%char then 1 else 0) = 1.
Proof.
  unfold regex_title_char.
  destruct (a =? "?")%char eqn:E.
  - apply Ascii.eqb_eq in E. subst a. reflexivity.
  - destruct ((a =? "^") || (a =? "$") || (a =? "(") || (a =? ")")
              || (a =? ">") || (a =? "<") || (a =? "[") || (a =? "{")
              || (a =? "\") || (a =? "|") || (a =? ".") || (a =? "*")
              || (a =? "+") || (a =? "&"))%bool%char; reflexivity.
Qed.

(** X6.  The title that [_BarFlyParseTrackDisc] puts in its regular
    expression holds none of the bytes [^ $ ( ) > < [ { \ | * + & ?]: a
    metacharacter of the title has become a dot and a question mark is left
    out.  Its length is the number of bytes of the title that are no
    question mark, whatever the size of the buffer [regex_title]. *)
Theorem X6_regex_title_has_no_metacharacter :
  forall (title : string) (c : ascii),
    In c regex_escaped ->
    occurs c (regex_title title) = false
    /\ String.length (regex_title title) + count_char "?" title
       = String.length title.
Proof.
  intros title c Hc. induction title as [|a title [IH1 IH2]].
  - split; reflexivity.
  - cbn [regex_title count_char String.length]. split.
    + now rewrite PathFacts.occurs_append, IH1, regex_title_char_escaped.
    + rewrite PathFacts.length_append.
      pose proof (regex_title_char_length a). lia.
Qed.

(** The theorem on a title with parentheses and a question mark. *)
Lemma X6_regex_title_witness :
  occurs "(" (regex_title "Why? (Live)") = false
  /\ String.length (regex_title "Why? (Live)") + count_char "?" "Why? (Live)"
     = String.length "Why? (Live)".
Proof.
  apply X6_regex_title_has_no_metacharacter. cbn. tauto.
Defined.

End FlyFacts.

(** ** Facts about the options of the ID3 tag *)

Module Id3Facts.

Import Id3.
Local Open Scope Z_scope.

(** Clearing the options of a mask disables every option inside it. *)
Lemma id3_tag_options_clear (options mask option : Z) :
  Z.land option (Z.lnot mask) = 0 ->
  Z.land (id3_tag_options options mask 0) option = 0.
Proof.
  intros Hin. unfold id3_tag_options.
  destruct (Z.eqb_spec mask 0) as [-> | _].
  - change (Z.lnot 0) with (-1) in Hin. rewrite Z.land_m1_r in Hin.
    subst option. apply Z.land_0_r.
  - rewrite Z.land_0_l, Z.lor_0_r, <- Z.land_assoc.
    rewrite (Z.land_comm (Z.lnot mask)), Hin. apply Z.land_0_r.
Qed.

Lemma land_lnot_lor_l (a b : Z) : Z.land a (Z.lnot (Z.lor a b)) = 0.
Proof.
  apply Z.bits_inj'. intros n Hn.
  rewrite Z.land_spec, Z.lnot_spec, Z.lor_spec, Z.bits_0 by assumption.
  now destruct (Z.testbit a n), (Z.testbit b n).
Qed.

Lemma land_lnot_lor_r (a b : Z) : Z.land b (Z.lnot (Z.lor a b)) = 0.
Proof. rewrite Z.lor_comm. apply land_lnot_lor_l. Qed.

Lemma land_lnot_lor_mono (a b c : Z) :
  Z.land a (Z.lnot b) = 0 -> Z.land a (Z.lnot (Z.lor b c)) = 0.
Proof.
  intros H. apply Z.bits_inj'. intros n Hn.
  apply (f_equal (fun z => Z.testbit z n)) in H.
  rewrite Z.land_spec, Z.lnot_spec, Z.bits_0 in H by assumption.
  rewrite Z.land_spec, Z.lnot_spec, Z.lor_spec, Z.bits_0 by assumption.
  destruct (Z.testbit a n), (Z.testbit b n), (Z.testbit c n);
    simpl in *; congruence.
Qed.

(** C3 (as amended).  In every ID3v2 tag that [_BarFlyTagID3Write] builds,
    the four tag-level options unsynchronisation, appended-tag, CRC and
    compression are all disabled: the call passes the four of them as the
    mask and 0 as the values, whatever the options of a new tag are. *)
Theorem C3_tag_options_all_disabled :
  forall unsynchronisation appendedtag crc compression new_tag_options : Z,
    let options :=
      written_tag_options unsynchronisation appendedtag crc compression
        new_tag_options in
    ~ enabled options unsynchronisation
    /\ ~ enabled options appendedtag
    /\ ~ enabled options crc
    /\ ~ enabled options compression.
Proof.
  intros u a c z o options. unfold enabled, options, written_tag_options.
  repeat split; intros H; apply H; apply id3_tag_options_clear.
  - apply land_lnot_lor_mono, land_lnot_lor_mono, land_lnot_lor_l.
  - apply land_lnot_lor_mono, land_lnot_lor_mono, land_lnot_lor_r.
  - apply land_lnot_lor_mono, land_lnot_lor_r.
  - apply land_lnot_lor_r.
Qed.

(** C3 (as stated) fails.  With the option bits of [id3tag.h], the tag that
    is written does not have the unsynchronisation option enabled, whether
    the new tag came with no option or with all of them. *)
Lemma C3_unsynchronisation_is_disabled :
  ~ enabled
      (written_tag_options ID3_TAG_OPTION_UNSYNCHRONISATION
         ID3_TAG_OPTION_APPENDEDTAG ID3_TAG_OPTION_CRC
         ID3_TAG_OPTION_COMPRESSION 0)
      ID3_TAG_OPTION_UNSYNCHRONISATION
  /\ ~ enabled
        (written_tag_options ID3_TAG_OPTION_UNSYNCHRONISATION
           ID3_TAG_OPTION_APPENDEDTAG ID3_TAG_OPTION_CRC
           ID3_TAG_OPTION_COMPRESSION
           (Z.lor (Z.lor (Z.lor ID3_TAG_OPTION_UNSYNCHRONISATION
                                ID3_TAG_OPTION_APPENDEDTAG)
                         ID3_TAG_OPTION_CRC)
                  ID3_TAG_OPTION_COMPRESSION))
        ID3_TAG_OPTION_UNSYNCHRONISATION.
Proof. split; intros H; apply H; reflexivity. Qed.

End Id3Facts.

(** ** Facts about the MP4 tag editor *)

Module Mp4Facts.

Import Mp4.
Local Open Scope Z_scope.
Local Open Scope mp4_scope.

(** *** The monad *)

Lemma bind_Some {A B : Type} (c : M A) (k : A -> M B) (h : heap)
    (y : B) (h2 : heap) :
  bind c k h = Some (y, h2) ->
  exists (x : A) (h1 : heap), c h = Some (x, h1) /\ k x h1 = Some (y, h2).
Proof.
  unfold bind. destruct (c h) as [[x h1]|]; [|discriminate].
  intros H. now exists x, h1.
Qed.

Lemma ret_Some {A : Type} (x y : A) (h h' : heap) :
  ret x h = Some (y, h') -> x = y /\ h = h'.
Proof. unfold ret. now intros [= -> ->]. Qed.

(** Splits a run of the editor along its binds, conditionals and matches. *)
Ltac run_step H :=
  match type of H with
  | bind _ _ _ = Some _ =>
      let x := fresh "x" in
      let h := fresh "h" in
      let E := fresh "E" in
      apply bind_Some in H as (x & h & E & H)
  | ret _ _ = Some _ =>
      apply ret_Some in H as [H ?]; try (inversion H; clear H); subst
  | undefined _ = Some _ => discriminate H
  | (if ?b then _ else _) _ = Some _ =>
      let Eb := fresh "Eb" in destruct b eqn:Eb
  | (match ?x with _ => _ end) _ = Some _ =>
      let Ex := fresh "Ex" in destruct x eqn:Ex
  | (let '(_, _) := ?x in _) _ = Some _ => destruct x
  end.

(** *** Induction on atoms *)

Lemma atom_ind (P : BarFlyMp4Atom_t -> Prop) :
  (forall n s cs d ds off, Forall P cs -> P (Atom n s cs d ds off)) ->
  forall a, P a.
Proof.
  intros H. fix IH 1. intros [n s cs d ds off]. apply H.
  induction cs as [|c cs IHcs]; constructor; [apply IH | exact IHcs].
Qed.

Lemma atom_eta (a : BarFlyMp4Atom_t) :
  a = Atom (name a) (size a) (children a) (data a) (data_size a) (offset a).
Proof. now destruct a. Qed.

(** *** The arithmetic of [size_t] *)

Lemma size_t_range (x : Z) : 0 <= size_t x < 2 ^ 64.
Proof. unfold size_t. apply Z.mod_pos_bound. reflexivity. Qed.

Lemma size_t_small (x : Z) : 0 <= x < 2 ^ 64 -> size_t x = x.
Proof. unfold size_t. apply Z.mod_small. Qed.

Lemma size_t_add_l (x y : Z) : size_t (size_t x + y) = size_t (x + y).
Proof. unfold size_t. apply Z.add_mod_idemp_l. discriminate. Qed.

Lemma size_t_add_r (x y : Z) : size_t (x + size_t y) = size_t (x + y).
Proof. unfold size_t. apply Z.add_mod_idemp_r. discriminate. Qed.

Lemma sum_sizes_app (l1 l2 : list BarFlyMp4Atom_t) :
  sum_sizes (l1 ++ l2) = sum_sizes l1 + sum_sizes l2.
Proof. induction l1 as [|c l1 IH]; cbn [sum_sizes app]; lia. Qed.

(** *** The size accounting *)

Lemma sized_inv (a : BarFlyMp4Atom_t) :
  sized a ->
  size a = size_t (accounted a) /\ 0 <= data_size a
  /\ Forall sized (children a).
Proof. intros H. inversion H; subst. now repeat split. Qed.

Lemma sized_intro (a : BarFlyMp4Atom_t) :
  size a = size_t (accounted a) -> 0 <= data_size a ->
  Forall sized (children a) -> sized a.
Proof.
  intros Hs Hd Hc. rewrite (atom_eta a). now constructor.
Qed.

Lemma sized_size_nonneg (a : BarFlyMp4Atom_t) : sized a -> 0 <= size a.
Proof.
  intros H. apply sized_inv in H as (-> & _). apply size_t_range.
Qed.

Lemma sum_sizes_nonneg (cs : list BarFlyMp4Atom_t) :
  Forall sized cs -> 0 <= sum_sizes cs.
Proof.
  induction 1 as [|c cs Hc _ IH]; cbn [sum_sizes]; [lia|].
  apply sized_size_nonneg in Hc. lia.
Qed.

(** Inside a sized atom every atom is sized. *)
Lemma sized_within (t : BarFlyMp4Atom_t) :
  sized t -> forall a, within a t -> sized a.
Proof.
  intros Ht a Hw. induction Hw as [|t c Hin _ IH]; [assumption|].
  apply IH. apply sized_inv in Ht as (_ & _ & Hc).
  rewrite Forall_forall in Hc. now apply Hc.
Qed.

Lemma sized_fill_inv (fr : frame) (a : BarFlyMp4Atom_t) :
  sized (fill fr a) -> sized a.
Proof.
  intros H. apply sized_inv in H as (_ & _ & Hc). cbn [fill children] in Hc.
  apply Forall_app in Hc as [_ Hc]. now inversion Hc.
Qed.

Lemma sized_root_inv (chain : list frame) :
  forall a, sized (root a chain) -> sized a.
Proof.
  induction chain as [|fr up IH]; intros a H; cbn [root] in H;
    [assumption|].
  apply IH in H. now apply sized_fill_inv in H.
Qed.

(** Replacing an atom by one that is larger by [delta], and bumping its
    chain of parents by [delta], keeps the accounting of the whole tree. *)
Lemma sized_root_bump (chain : list frame) :
  forall (a a' : BarFlyMp4Atom_t) (delta : Z),
    sized (root a chain) ->
    sized a' ->
    size a' = size_t (size a + delta) ->
    sized (root a' (bump_chain chain delta)).
Proof.
  induction chain as [|fr up IH]; intros a a' delta Hroot Ha' Hsize;
    cbn [root bump_chain] in *; [assumption|].
  apply (IH (fill fr a)); [assumption | |].
  - assert (Hfill : sized (fill fr a)) by now apply sized_root_inv in Hroot.
    apply sized_inv in Hfill as (Hs & Hd & Hc).
    unfold accounted in Hs. cbn [fill size children data_size] in *.
    apply sized_intro; unfold accounted;
      cbn [fill bump_frame size children data_size
           f_name f_size f_before f_after f_data f_data_size f_offset].
    + rewrite Hs, size_t_add_l. rewrite !sum_sizes_app. cbn [sum_sizes].
      rewrite Hsize.
      replace (BAR_FLY_MP4_ATOM_MIN_LENGTH + f_data_size fr +
               (sum_sizes (f_before fr) +
                (size_t (size a + delta) + sum_sizes (f_after fr))))
        with (BAR_FLY_MP4_ATOM_MIN_LENGTH + f_data_size fr
              + sum_sizes (f_before fr) + sum_sizes (f_after fr)
              + size_t (size a + delta)) by lia.
      rewrite size_t_add_r. f_equal. lia.
    + assumption.
    + apply Forall_app in Hc as [Hb Hc]. apply Forall_app. split; [assumption|].
      inversion Hc; subst. now constructor.
  - reflexivity.
Qed.

(** Replacing an atom by one of the same size keeps the accounting. *)
Lemma sized_root_replace (chain : list frame) :
  forall (a a' : BarFlyMp4Atom_t),
    sized (root a chain) ->
    sized a' ->
    size a' = size a ->
    sized (root a' chain).
Proof.
  induction chain as [|fr up IH]; intros a a' Hroot Ha' Hsize;
    cbn [root] in *; [assumption|].
  apply (IH (fill fr a)); [assumption | | reflexivity].
  assert (Hfill : sized (fill fr a)) by now apply sized_root_inv in Hroot.
  apply sized_inv in Hfill as (Hs & Hd & Hc).
  unfold accounted in Hs. cbn [fill size children data_size] in *.
  apply sized_intro; unfold accounted; cbn [fill size children data_size].
  - rewrite Hs, !sum_sizes_app. cbn [sum_sizes]. now rewrite Hsize.
  - assumption.
  - apply Forall_app in Hc as [Hb Hc]. apply Forall_app. split; [assumption|].
    inversion Hc; subst. now constructor.
Qed.

(** Reading the data of an atom from the file changes neither its size nor
    its children. *)
Lemma _BarFlyMp4FileParseAtomData_sized_root (file : list Z)
    (a : BarFlyMp4Atom_t) (chain : list frame) (h h' : heap) (status : Z)
    (a' : BarFlyMp4Atom_t) :
  sized (root a chain) ->
  _BarFlyMp4FileParseAtomData file a h = Some ((status, a'), h') ->
  sized (root a' chain).
Proof.
  intros Hroot H.
  assert (Hcases :
    a' = a \/ exists d, a' = Atom (name a) (size a) (children a) (Some d)
                               (data_size a) (offset a)).
  { unfold _BarFlyMp4FileParseAtomData in H.
    destruct (data a) eqn:Ed; [run_step H; now left|].
    repeat run_step H; try discriminate; try (now left).
    right. now eexists. }
  destruct Hcases as [-> | [d ->]]; [assumption|].
  apply (sized_root_replace chain a); [assumption | | reflexivity].
  apply sized_root_inv, sized_inv in Hroot as (Hs & Hd & Hc).
  apply sized_intro; assumption.
Qed.

Lemma _BarFlyMp4AtomOpen_sized (n : string) (off : Z) (h h' : heap)
    (a : BarFlyMp4Atom_t) :
  _BarFlyMp4AtomOpen n off h = Some (Some a, h') -> sized a.
Proof.
  unfold _BarFlyMp4AtomOpen. intros H.
  repeat run_step H; try discriminate.
  constructor; [reflexivity | lia | constructor].
Qed.

Lemma _BarFlyMp4AtomOpen_fields (n : string) (off : Z) (h h' : heap)
    (a : BarFlyMp4Atom_t) :
  _BarFlyMp4AtomOpen n off h = Some (Some a, h') ->
  a = Atom (Path.take 4 n) BAR_FLY_MP4_ATOM_MIN_LENGTH [] None 0 off.
Proof.
  unfold _BarFlyMp4AtomOpen. intros H.
  repeat run_step H; try discriminate. reflexivity.
Qed.

(** [_BarFlyMp4AtomAddChild] keeps the accounting: the child is appended
    to the parent, and its size is added to the parent and to every atom of
    the chain of parents. *)
Lemma _BarFlyMp4AtomAddChild_sized (a : BarFlyMp4Atom_t) (chain : list frame)
    (child : BarFlyMp4Atom_t) (h h' : heap) (status : Z) (l : location) :
  sized (root a chain) ->
  sized child ->
  _BarFlyMp4AtomAddChild (a, chain) child h = Some ((status, l), h') ->
  sized (root (fst l) (snd l)).
Proof.
  intros Hroot Hchild H. unfold _BarFlyMp4AtomAddChild in H.
  repeat run_step H; try discriminate; [| assumption].
  cbn [_BarFlyMp4AtomBumpSize fst snd].
  apply (sized_root_bump chain a); [assumption | | reflexivity].
  apply sized_root_inv, sized_inv in Hroot as (Hs & Hd & Hc).
  apply sized_intro; unfold accounted in *;
    cbn [set_size size children data_size].
  - rewrite Hs, size_t_add_l, sum_sizes_app. cbn [sum_sizes]. f_equal. lia.
  - assumption.
  - apply Forall_app. split; [assumption | now constructor].
Qed.

Lemma _BarFlyMp4AtomAddChild_detached (a child : BarFlyMp4Atom_t)
    (h h' : heap) (status : Z) (l : location) :
  _BarFlyMp4AtomAddChild (detached a) child h = Some ((status, l), h') ->
  snd l = [].
Proof.
  unfold _BarFlyMp4AtomAddChild. intros H.
  repeat run_step H; try discriminate; reflexivity.
Qed.

Lemma _BarFlyMp4FileParseAtomData_cases (file : list Z) (a : BarFlyMp4Atom_t)
    (h h' : heap) (status : Z) (a' : BarFlyMp4Atom_t) :
  _BarFlyMp4FileParseAtomData file a h = Some ((status, a'), h') ->
  (a' = a /\ (status = 0 \/ status = -1))
  \/ (status = 0 /\ data a = None /\ 0 < data_size a
      /\ name_in (name a) data_atom_names = true
      /\ exists d, payload_of file a = Some d
                   /\ a' = Atom (name a) (size a) (children a) (Some d)
                              (data_size a) (offset a)).
Proof.
  unfold _BarFlyMp4FileParseAtomData, payload_of. intros H.
  destruct (data a) eqn:Ed.
  { run_step H. left. auto. }
  repeat run_step H; try discriminate; try (left; now auto).
  right. repeat split; try assumption; [now apply Z.ltb_lt|].
  eexists; split; reflexivity.
Qed.

(** [_BarFlyMp4AtomAppendData] keeps the accounting: the bytes are counted
    in the data size and the size of the atom, and added to every atom of
    the chain of parents. *)
Lemma _BarFlyMp4AtomAppendData_sized (a : BarFlyMp4Atom_t)
    (chain : list frame) (file new : list Z) (h h' : heap) (status : Z)
    (l : location) :
  sized (root a chain) ->
  _BarFlyMp4AtomAppendData (a, chain) file new h = Some ((status, l), h') ->
  sized (root (fst l) (snd l)).
Proof.
  intros Hroot H. unfold _BarFlyMp4AtomAppendData in H. cbn [fst snd] in H.
  destruct (0 <? Z.of_nat (List.length new)) eqn:Enew;
    [| run_step H; assumption ].
  run_step H. destruct x as [st a0].
  assert (Hsame : size a0 = size a /\ data_size a0 = data_size a
                  /\ children a0 = children a
                  /\ (negb (st =? 0) = true -> a0 = a)).
  { apply _BarFlyMp4FileParseAtomData_cases in E
      as [[-> _] | (-> & _ & _ & _ & d & _ & ->)]; now repeat split. }
  destruct Hsame as (Es & Eds & Ecs & Efail).
  destruct (negb (st =? 0)) eqn:Est.
  { run_step H. cbn [fst snd]. now rewrite Efail. }
  run_step H. destruct x as [|].
  2:{ run_step H. cbn [fst snd].
      now apply (_BarFlyMp4FileParseAtomData_sized_root _ _ _ _ _ _ _ Hroot E). }
  run_step H. cbn [fst snd].
  apply (sized_root_bump chain a); [assumption | | cbn [size]; now rewrite Es].
  apply sized_root_inv, sized_inv in Hroot as (Hs & Hd & Hc).
  apply sized_intro; unfold accounted in *; cbn [size children data_size].
  - rewrite Es, Eds, Ecs, Hs, size_t_add_l.
    replace (BAR_FLY_MP4_ATOM_MIN_LENGTH
             + size_t (data_size a + Z.of_nat (List.length new))
             + sum_sizes (children a))
      with (BAR_FLY_MP4_ATOM_MIN_LENGTH + sum_sizes (children a)
            + size_t (data_size a + Z.of_nat (List.length new))) by lia.
    rewrite size_t_add_r. f_equal. lia.
  - apply size_t_range.
  - now rewrite Ecs.
Qed.

(** *** Reading atoms from a file *)

Lemma _BarFlyMp4FileParseAtomSize_range (file : list Z) (pos sz : Z) :
  _BarFlyMp4FileParseAtomSize file pos = Some sz ->
  BAR_FLY_MP4_ATOM_MIN_LENGTH <= sz < 2 ^ 64.
Proof.
  unfold _BarFlyMp4FileParseAtomSize.
  destruct (file_range file pos BAR_FLY_MP4_ATOM_SIZE_LENGTH)
    as [[|b0 [|b1 [|b2 [|b3 [|b4 l]]]]]|]; try discriminate.
  destruct (Z.ltb_spec (size_t (_BarFlyMp4BufToLong b0 b1 b2 b3))
              BAR_FLY_MP4_ATOM_MIN_LENGTH); [discriminate|].
  intros [= <-]. split; [assumption | apply size_t_range].
Qed.

(** The data size and size that the parser gives a new atom account for
    each other. *)
Lemma classify_sized (n : string) (size_l ds sz : Z) :
  BAR_FLY_MP4_ATOM_MIN_LENGTH <= size_l < 2 ^ 64 ->
  classify n size_l = Some (ds, sz) ->
  sz = size_t (BAR_FLY_MP4_ATOM_MIN_LENGTH + ds + 0) /\ 0 <= ds.
Proof.
  unfold classify, BAR_FLY_MP4_ATOM_MIN_LENGTH, BAR_FLY_MP4_ATOM_SIZE_LENGTH,
    BAR_FLY_MP4_ATOM_NAME_LENGTH.
  intros Hl H.
  destruct (name_in n container_names);
    [injection H as <- <-; split; [reflexivity | lia]|].
  destruct (name_in n payload_names).
  { injection H as <- <-. rewrite (size_t_small (size_l - 4 - 4)) by lia.
    rewrite size_t_small by lia. split; lia. }
  destruct (String.eqb n "stsd");
    [injection H as <- <-; split; [reflexivity | lia]|].
  destruct (String.eqb n "mp4a");
    [injection H as <- <-; split; [reflexivity | lia] | discriminate].
Qed.

(** The parser builds atoms whose sizes are accounted for: the size of a
    parent starts at its own bytes, and grows by the size of each child that
    is added to it. *)
Lemma parse_sized (fuel : nat) :
  (forall file pos h a pos' h',
      _BarFlyMp4FileParseAtom fuel file pos h = Some (Parsed (a, pos'), h') ->
      sized a)
  /\ (forall file pos atom remaining h a pos' h',
        sized atom ->
        parse_children fuel file pos atom remaining h
        = Some (Parsed (a, pos'), h') ->
        sized a).
Proof.
  induction fuel as [|fuel [IHa IHc]].
  - split; intros; cbn in *; discriminate.
  - split.
    + intros file pos h a pos' h' H. cbn [_BarFlyMp4FileParseAtom] in H.
      destruct (_BarFlyMp4FileParseAtomSize file pos) as [size_l|] eqn:Esz;
        [| discriminate].
      destruct (_BarFlyMp4FileParseAtomName file
                  (pos + BAR_FLY_MP4_ATOM_SIZE_LENGTH)) as [n|];
        [| discriminate].
      run_step H. destruct x as [atom|]; [| discriminate].
      destruct (classify n size_l) as [[ds sz]|] eqn:Ecl; [| discriminate].
      destruct (_ <? 0); [discriminate|].
      apply IHc in H; [assumption|].
      apply _BarFlyMp4AtomOpen_fields in E. subst atom.
      apply _BarFlyMp4FileParseAtomSize_range in Esz.
      destruct (classify_sized _ _ _ _ Esz Ecl) as [-> Hds].
      cbn [name children data offset]. constructor;
        [reflexivity | assumption | constructor].
    + intros file pos atom remaining h a pos' h' Hatom H.
      cbn [parse_children] in H.
      destruct (0 <? remaining); [| now injection H as <- _ _].
      run_step H. destruct x as [[child pos1]| |]; try discriminate.
      destruct (remaining <? size child); [discriminate|].
      run_step H. destruct x as [status atom1].
      destruct (negb (status =? 0)); [discriminate|].
      apply IHc in H; [assumption|].
      pose proof (_BarFlyMp4AtomAddChild_detached _ _ _ _ _ _ E0) as Hd.
      pose proof (_BarFlyMp4AtomAddChild_sized atom [] child h0 h1 status
                    atom1) as Hs.
      rewrite Hd in Hs. apply Hs;
        [assumption | now apply IHa in E | assumption].
Qed.

(** *** Four bytes and the number they hold *)

(** A multiple of [2^k] and a number below [2^k] share no bit. *)
Lemma lor_add (q b k : Z) :
  0 <= k -> 0 <= b < 2 ^ k -> Z.lor (q * 2 ^ k) b = q * 2 ^ k + b.
Proof.
  intros Hk Hb.
  assert (Hland : Z.land (q * 2 ^ k) b = 0).
  { apply Z.bits_inj'. intros n Hn. rewrite Z.land_spec, Z.bits_0.
    destruct (Z.lt_ge_cases n k) as [Hlt | Hge].
    - now rewrite Z.mul_pow2_bits_low.
    - replace (Z.testbit b n) with false; [apply andb_false_r|].
      symmetry. apply Z.testbit_false; [assumption|].
      rewrite Z.div_small; [reflexivity|].
      split; [lia|]. apply Z.lt_le_trans with (2 ^ k); [lia|].
      apply Z.pow_le_mono_r; lia. }
  rewrite <- Z.lxor_lor by assumption. symmetry.
  now apply Z.add_nocarry_lxor.
Qed.

Lemma int_small (x : Z) : - 2 ^ 31 <= x < 2 ^ 31 -> int x = x.
Proof. intros H. unfold int. rewrite Z.mod_small; lia. Qed.

Lemma int_high (x : Z) : 2 ^ 31 <= x < 2 ^ 32 -> int x = x - 2 ^ 32.
Proof.
  intros H. unfold int.
  replace (x + 2 ^ 31) with (x - 2 ^ 31 + 1 * 2 ^ 32) by lia.
  rewrite Z.mod_add by discriminate. rewrite Z.mod_small; lia.
Qed.

Lemma bytes_four (b0 b1 b2 b3 : Z) :
  bytes [b0; b1; b2; b3] ->
  0 <= b0 < 256 /\ 0 <= b1 < 256 /\ 0 <= b2 < 256 /\ 0 <= b3 < 256.
Proof.
  unfold bytes. intros H.
  inversion H as [|? ? H0 Ha]; subst. inversion Ha as [|? ? H1 Hb]; subst.
  inversion Hb as [|? ? H2 Hc]; subst. inversion Hc as [|? ? H3 _]; subst.
  now repeat split.
Qed.

(** What [_BarFlyMp4BufToLong] reads from four bytes: the number they hold,
    less [2^32] when the first byte has its high bit set. *)
Lemma _BarFlyMp4BufToLong_value (b0 b1 b2 b3 : Z) :
  bytes [b0; b1; b2; b3] ->
  _BarFlyMp4BufToLong b0 b1 b2 b3
  = be32 b0 b1 b2 b3 - (if b0 <? 128 then 0 else 2 ^ 32).
Proof.
  intros H. apply bytes_four in H as (H0 & H1 & H2 & H3).
  unfold _BarFlyMp4BufToLong, be32.
  rewrite !Z.shiftl_mul_pow2 by lia.
  rewrite (int_small (b1 * 2 ^ 16)), (int_small (b2 * 2 ^ 8)),
    (int_small (b3 * 2 ^ 0)) by lia.
  rewrite Z.lor_0_l.
  set (t0 := int (b0 * 2 ^ 24)).
  assert (Ht0 : t0 = (b0 * 2 ^ 24 - (if b0 <? 128 then 0 else 2 ^ 32))).
  { unfold t0. destruct (Z.ltb_spec b0 128).
    - rewrite int_small; lia.
    - rewrite int_high; lia. }
  assert (Hq : exists q, t0 = q * 2 ^ 24).
  { rewrite Ht0. destruct (b0 <? 128).
    - exists b0. lia.
    - exists (b0 - 2 ^ 8). lia. }
  destruct Hq as [q Hq].
  rewrite Hq, lor_add by lia.
  replace (q * 2 ^ 24 + b1 * 2 ^ 16) with ((q * 2 ^ 8 + b1) * 2 ^ 16) by lia.
  rewrite lor_add by lia.
  replace ((q * 2 ^ 8 + b1) * 2 ^ 16 + b2 * 2 ^ 8)
    with (((q * 2 ^ 8 + b1) * 2 ^ 8 + b2) * 2 ^ 8) by lia.
  rewrite lor_add by lia.
  rewrite Ht0 in Hq. destruct (b0 <? 128); lia.
Qed.

(** A byte of a number is a byte of the number modulo a larger power of
    two. *)
Lemma byte_of_mod (x k m : Z) :
  0 <= k -> k + 8 <= m ->
  ((x mod 2 ^ m) / 2 ^ k) mod 2 ^ 8 = (x / 2 ^ k) mod 2 ^ 8.
Proof.
  intros Hk Hm. apply Z.bits_inj'. intros n Hn.
  destruct (Z.lt_ge_cases n 8) as [Hlt | Hge].
  - rewrite !Z.mod_pow2_bits_low, !Z.div_pow2_bits by lia.
    apply Z.mod_pow2_bits_low. lia.
  - now rewrite !Z.mod_pow2_bits_high by lia.
Qed.

(** [_BarFlyMp4LongRender] writes the low 32 bits of its argument. *)
Lemma _BarFlyMp4LongRender_digits (x : Z) :
  _BarFlyMp4LongRender x = digits (x mod 2 ^ 32).
Proof.
  unfold _BarFlyMp4LongRender, digits, uint8_t, size_t.
  rewrite !Z.shiftr_div_pow2 by lia.
  now rewrite !(byte_of_mod x _ 64), !(byte_of_mod x _ 32) by lia.
Qed.

Lemma digits_bytes (v : Z) : bytes (digits v).
Proof.
  unfold bytes, digits.
  repeat constructor; try (apply Z.mod_pos_bound; reflexivity);
    change 256 with (2 ^ 8); apply Z.mod_pos_bound; reflexivity.
Qed.

Lemma be32_digits (v : Z) :
  0 <= v < 2 ^ 32 ->
  be32 ((v / 2 ^ 24) mod 2 ^ 8) ((v / 2 ^ 16) mod 2 ^ 8)
       ((v / 2 ^ 8) mod 2 ^ 8) ((v / 2 ^ 0) mod 2 ^ 8) = v.
Proof.
  intros H. unfold be32.
  change (2 ^ 24) with 16777216. change (2 ^ 16) with 65536.
  change (2 ^ 8) with 256. change (2 ^ 0) with 1.
  change (2 ^ 32) with 4294967296 in H.
  Z.div_mod_to_equations. lia.
Qed.

Lemma be32_range (b0 b1 b2 b3 : Z) :
  bytes [b0; b1; b2; b3] -> 0 <= be32 b0 b1 b2 b3 < 2 ^ 32.
Proof.
  intros H. apply bytes_four in H as (H0 & H1 & H2 & H3).
  unfold be32. lia.
Qed.

(** One entry of the table: the bytes written back hold the entry plus the
    delta, modulo [2^32]. *)
Lemma entry_shifted (b0 b1 b2 b3 delta : Z) :
  bytes [b0; b1; b2; b3] ->
  _BarFlyMp4LongRender (_BarFlyMp4BufToLong b0 b1 b2 b3 + delta)
  = digits ((be32 b0 b1 b2 b3 + delta) mod 2 ^ 32).
Proof.
  intros H. rewrite _BarFlyMp4LongRender_digits, _BarFlyMp4BufToLong_value
    by assumption.
  f_equal. destruct (b0 <? 128).
  - f_equal. lia.
  - replace (be32 b0 b1 b2 b3 - 2 ^ 32 + delta)
      with (be32 b0 b1 b2 b3 + delta + (-1) * 2 ^ 32) by lia.
    apply Z.mod_add. discriminate.
Qed.

(** *** The loop over the entries of the table *)


Lemma file_range_length (file : list Z) (from len : Z) (d : list Z) :
  file_range file from len = Some d ->
  Z.of_nat (List.length d) = len /\ 0 <= from /\ 0 <= len
  /\ from + len <= Z.of_nat (List.length file).
Proof.
  unfold file_range.
  destruct (Z.ltb_spec from 0); [discriminate|].
  destruct (Z.ltb_spec len 0); [discriminate|]. cbn [orb].
  destruct (Z.leb_spec (from + len) (Z.of_nat (List.length file)));
    [|discriminate].
  intros [= <-]. rewrite length_firstn, length_skipn. lia.
Qed.







(** *** Finding atoms *)

Lemma find_child_Some (n : string) (cs : list BarFlyMp4Atom_t) :
  forall before c after,
    find_child n cs = Some (before, c, after) ->
    cs = before ++ c :: after /\ name c = n
    /\ Forall (fun x => name x <> n) before.
Proof.
  induction cs as [|x cs IH]; intros before c after H; cbn [find_child] in H;
    [discriminate|].
  destruct (String.eqb_spec (name x) n) as [En | Hne].
  - injection H as <- <- <-. now repeat split.
  - destruct (find_child n cs) as [[[b f] af]|]; [| discriminate].
    injection H as <- <- <-.
    destruct (IH b f af eq_refl) as (-> & Hname & Hb).
    repeat split; [assumption | now constructor].
Qed.


Lemma fill_frame_of (x : BarFlyMp4Atom_t)
    (before : list BarFlyMp4Atom_t) (c : BarFlyMp4Atom_t)
    (after : list BarFlyMp4Atom_t) :
  children x = before ++ c :: after ->
  fill (frame_of x before after) c = x.
Proof.
  intros H. unfold fill, frame_of. cbn. rewrite <- H. symmetry.
  apply atom_eta.
Qed.


(** Going down from an atom leaves it the top of the location found. *)
Lemma descend_root (names : list string) :
  forall (x : BarFlyMp4Atom_t) (up : list frame) (l : location),
    descend names (x, up) = Some l ->
    root (fst l) (snd l) = root x up.
Proof.
  induction names as [|n names IH]; intros x up l H; cbn [descend fst snd] in H.
  - now injection H as <-.
  - destruct (find_child n (children x)) as [[[b c] af]|] eqn:Ef;
      [| discriminate].
    apply IH in H. rewrite H. cbn [root].
    apply find_child_Some in Ef as (Ecs & _ & _).
    now rewrite fill_frame_of.
Qed.

(** The cursor that is found shows the atoms of the tag. *)
Lemma _BarFlyMp4TagFindAtom_atoms (tag : BarFlyMp4Tag_t) (path : string)
    (c : cursor) :
  _BarFlyMp4TagFindAtom tag path = Some c -> atoms_of c = atoms tag.
Proof.
  unfold _BarFlyMp4TagFindAtom, atoms_of.
  destruct (split_path _ _) as [|n names]; [discriminate|].
  destruct (find_child n (atoms tag)) as [[[b top] af]|] eqn:Ef;
    [| discriminate].
  destruct (descend names (top, [])) as [l|] eqn:Ed; [| discriminate].
  intros [= <-]. cbn [top_before at_atom top_after].
  apply descend_root in Ed. rewrite Ed. cbn [root].
  apply find_child_Some in Ef as (-> & _ & _). reflexivity.
Qed.

(** *** Atoms after additions *)

Lemma grown_same (n : string) (s s' : Z) (cs cs' : list BarFlyMp4Atom_t)
    (d : option (list Z)) (ds off : Z) :
  Forall2 grown cs cs' ->
  grown (Atom n s cs d ds off) (Atom n s' cs' d ds off).
Proof.
  intros H. rewrite <- (app_nil_r cs'). now constructor.
Qed.

Lemma grown_refl : forall a, grown a a.
Proof.
  apply atom_ind. intros n s cs d ds off IH. apply grown_same.
  induction IH; constructor; assumption.
Qed.

Lemma Forall2_grown_refl (cs : list BarFlyMp4Atom_t) : Forall2 grown cs cs.
Proof. induction cs; constructor; [apply grown_refl | assumption]. Qed.










Lemma grown_root_same (chain : list frame) :
  forall a a', grown a a' -> grown (root a chain) (root a' chain).
Proof.
  induction chain as [|fr up IH]; intros a a' H; cbn [root]; [assumption|].
  apply IH. unfold fill. apply grown_same.
  apply Forall2_app; [apply Forall2_grown_refl|].
  constructor; [assumption | apply Forall2_grown_refl].
Qed.


(** *** Finding an atom again *)






(** Going down a path that is not empty ends at an atom with the last name
    of the path. *)
Lemma descend_name (names : list string) :
  forall (x : BarFlyMp4Atom_t) (up : list frame) (l : location),
    names <> [] ->
    descend names (x, up) = Some l ->
    name (fst l) = last names EmptyString.
Proof.
  induction names as [|n names IH]; intros x up l Hne H; [contradiction|].
  cbn [descend fst snd] in H.
  destruct (find_child n (children x)) as [[[b c] af]|] eqn:Ef;
    [| discriminate].
  destruct names as [|n' names].
  - cbn [descend] in H. injection H as <-. cbn [fst last].
    now apply find_child_Some in Ef.
  - apply IH in H; [| discriminate]. exact H.
Qed.

Lemma stco_found_name (tag : BarFlyMp4Tag_t) (c : cursor) :
  _BarFlyMp4TagFindAtom tag stco_path = Some c ->
  name (fst (at_atom c)) = "stco"%string.
Proof.
  unfold _BarFlyMp4TagFindAtom.
  change (split_path EmptyString
            (Path.take (Path.BAR_FLY_NAME_LENGTH - 1) stco_path))
    with ["moov"; "trak"; "mdia"; "minf"; "stbl"; "stco"]%string.
  cbv beta iota. intros H.
  destruct (find_child "moov" (atoms tag)) as [[[b top] af]|];
    [| discriminate H].
  destruct (descend _ (top, [])) as [l|] eqn:Ed; [| discriminate H].
  injection H as <-. cbn [at_atom].
  apply descend_name in Ed; [exact Ed | discriminate].
Qed.

(** *** The table of chunk offsets when an atom is added *)




(** The equations of [_BarFlyMp4TagUpdateOffsets] and of [stco_payload], to
    rewrite with. *)
Lemma _BarFlyMp4TagUpdateOffsets_unfold (tag : BarFlyMp4Tag_t) (delta : Z) :
  _BarFlyMp4TagUpdateOffsets tag delta
  = match _BarFlyMp4TagFindAtom tag stco_path with
    | None => ret (0, tag)
    | Some c =>
        '(status, stco_atom) <-
          _BarFlyMp4FileParseAtomData (mp4_file tag) (fst (at_atom c)) ;;
        if negb (status =? 0) then ret (-1, tag)
        else
          match data stco_atom with
          | None => undefined
          | Some d =>
              match adjust_offsets d delta with
              | None => undefined
              | Some d' =>
                  ret (0, store tag c
                            (Atom (name stco_atom) (size stco_atom)
                                  (children stco_atom) (Some d')
                                  (data_size stco_atom) (offset stco_atom),
                             snd (at_atom c)))
              end
          end
    end.
Proof. reflexivity. Qed.

Lemma stco_payload_unfold (tag : BarFlyMp4Tag_t) :
  stco_payload tag
  = match _BarFlyMp4TagFindAtom tag stco_path with
    | Some c => payload_of (mp4_file tag) (fst (at_atom c))
    | None => None
    end.
Proof. reflexivity. Qed.



(** *** Sequences of additions *)






(** *** The statuses that are not tested *)

(** C8.  When [_BarFlyMp4TagAddMetaAtom] has built its atom, it returns 0
    whatever the last attachment, under [moov.udta.meta.ilst], returns: that
    status is assigned and not tested.  The same holds for the attachment of
    a new [udta] atom under [moov]: whatever it returns, the call returns 0
    once the steps after it succeed.  In both cases the tag is the one the
    attachment has left. *)
Theorem C8_untested_attachment_statuses :
  (forall (tag : BarFlyMp4Tag_t) (n : string) (class value : list Z)
          (h : heap) (tag1 : BarFlyMp4Tag_t) (h1 : heap)
          (meta_atom : BarFlyMp4Atom_t) (h2 : heap) (status : Z)
          (tag2 : BarFlyMp4Tag_t) (h3 : heap),
      create_ilst tag h = Some ((0, tag1), h1) ->
      build_meta_atom (mp4_file tag1) n class value h1
      = Some (Some meta_atom, h2) ->
      _BarFlyMp4TagAddAtom tag1 ilst_path meta_atom true h2
      = Some ((status, tag2), h3) ->
      _BarFlyMp4TagAddMetaAtom tag n class value h = Some ((0, tag2), h3))
  /\ (forall (tag : BarFlyMp4Tag_t) (h : heap) (atom : BarFlyMp4Atom_t)
            (h1 : heap) (status : Z) (tag1 : BarFlyMp4Tag_t) (h2 : heap),
        _BarFlyMp4TagFindAtom tag ilst_path = None ->
        _BarFlyMp4TagFindAtom tag "moov.udta" = None ->
        _BarFlyMp4AtomOpen "udta" (-1) h = Some (Some atom, h1) ->
        _BarFlyMp4TagAddAtom tag "moov" atom true h1
        = Some ((status, tag1), h2) ->
        create_ilst tag h = add_below_udta tag1 h2).
Proof.
  split.
  - intros tag n class value h tag1 h1 meta_atom h2 status tag2 h3 H1 H2 H3.
    unfold _BarFlyMp4TagAddMetaAtom, bind. rewrite H1. cbn [Z.eqb negb].
    rewrite H2, H3. reflexivity.
  - intros tag h atom h1 status tag1 h2 Hi Hu Ho Ha.
    unfold create_ilst. fold ilst_path. rewrite Hi.
    unfold bind, add_udta. rewrite Hu. unfold bind. rewrite Ho, Ha.
    reflexivity.
Qed.

(** The theorem on the tag of [sample_file]: the last attachment returns -1
    when its allocation fails, and the artist is reported as added; the
    attachment of [udta] returns -1 when the buffer of the chunk-offset
    table cannot be allocated, and the steps go on from the tag it has
    left. *)
Lemma C8_untested_attachment_statuses_witness :
  (create_ilst (opened sample_file) last_attachment_fails
   = Some ((0, ilst_tag last_attachment_fails),
           ilst_heap last_attachment_fails)
   /\ build_meta_atom (mp4_file (ilst_tag last_attachment_fails)) artist_name
        BAR_FLY_MP4_ATOM_ARTIST_CLASS (bytes_of_string "A")
        (ilst_heap last_attachment_fails)
      = Some (Some (artist_atom last_attachment_fails),
              artist_heap last_attachment_fails)
   /\ _BarFlyMp4TagAddAtom (ilst_tag last_attachment_fails) ilst_path
        (artist_atom last_attachment_fails) true
        (artist_heap last_attachment_fails)
      = Some ((-1, artist_tag last_attachment_fails),
              artist_tag_heap last_attachment_fails)
   /\ _BarFlyMp4TagAddMetaAtom (opened sample_file) artist_name
        BAR_FLY_MP4_ATOM_ARTIST_CLASS (bytes_of_string "A")
        last_attachment_fails
      = Some ((0, artist_tag last_attachment_fails),
              artist_tag_heap last_attachment_fails))
  /\ (_BarFlyMp4TagFindAtom (opened sample_file) ilst_path = None
      /\ _BarFlyMp4TagFindAtom (opened sample_file) "moov.udta" = None
      /\ _BarFlyMp4AtomOpen "udta" (-1) udta_attachment_fails
         = Some (Some udta_atom, [true; false])
      /\ _BarFlyMp4TagAddAtom (opened sample_file) "moov" udta_atom true
           [true; false]
         = Some ((-1, udta_tag [true; false]), udta_tag_heap [true; false])
      /\ create_ilst (opened sample_file) udta_attachment_fails
         = add_below_udta (udta_tag [true; false])
             (udta_tag_heap [true; false])).
Proof.
  assert (H1 : create_ilst (opened sample_file) last_attachment_fails
               = Some ((0, ilst_tag last_attachment_fails),
                       ilst_heap last_attachment_fails))
    by (vm_compute; reflexivity).
  assert (H2 : build_meta_atom (mp4_file (ilst_tag last_attachment_fails))
                 artist_name BAR_FLY_MP4_ATOM_ARTIST_CLASS
                 (bytes_of_string "A") (ilst_heap last_attachment_fails)
               = Some (Some (artist_atom last_attachment_fails),
                       artist_heap last_attachment_fails))
    by (vm_compute; reflexivity).
  assert (H3 : _BarFlyMp4TagAddAtom (ilst_tag last_attachment_fails)
                 ilst_path (artist_atom last_attachment_fails) true
                 (artist_heap last_attachment_fails)
               = Some ((-1, artist_tag last_attachment_fails),
                       artist_tag_heap last_attachment_fails))
    by (vm_compute; reflexivity).
  assert (Hi : _BarFlyMp4TagFindAtom (opened sample_file) ilst_path = None)
    by (vm_compute; reflexivity).
  assert (Hu : _BarFlyMp4TagFindAtom (opened sample_file) "moov.udta" = None)
    by (vm_compute; reflexivity).
  assert (Ho : _BarFlyMp4AtomOpen "udta" (-1) udta_attachment_fails
               = Some (Some udta_atom, [true; false]))
    by (vm_compute; reflexivity).
  assert (Ha : _BarFlyMp4TagAddAtom (opened sample_file) "moov" udta_atom
                 true [true; false]
               = Some ((-1, udta_tag [true; false]),
                       udta_tag_heap [true; false]))
    by (vm_compute; reflexivity).
  exact (conj
           (conj H1 (conj H2 (conj H3
              (proj1 C8_untested_attachment_statuses (opened sample_file)
                 artist_name BAR_FLY_MP4_ATOM_ARTIST_CLASS
                 (bytes_of_string "A") last_attachment_fails
                 (ilst_tag last_attachment_fails)
                 (ilst_heap last_attachment_fails)
                 (artist_atom last_attachment_fails)
                 (artist_heap last_attachment_fails) (-1)
                 (artist_tag last_attachment_fails)
                 (artist_tag_heap last_attachment_fails) H1 H2 H3))))
           (conj Hi (conj Hu (conj Ho (conj Ha
              (proj2 C8_untested_attachment_statuses (opened sample_file)
                 udta_attachment_fails udta_atom [true; false] (-1)
                 (udta_tag [true; false]) (udta_tag_heap [true; false])
                 Hi Hu Ho Ha)))))).
Defined.

(** *** Numbers in the file *)

Lemma digits_be32 (b0 b1 b2 b3 : Z) :
  bytes [b0; b1; b2; b3] -> digits (be32 b0 b1 b2 b3) = [b0; b1; b2; b3].
Proof.
  intros H. apply bytes_four in H as (H0 & H1 & H2 & H3).
  unfold digits, be32. change (2 ^ 0) with 1. rewrite Z.div_1_r.
  repeat f_equal.
  - replace (b0 * 2 ^ 24 + b1 * 2 ^ 16 + b2 * 2 ^ 8 + b3)
      with (b0 * 2 ^ 24 + (b1 * 2 ^ 16 + b2 * 2 ^ 8 + b3)) by lia.
    rewrite Z.div_add_l by lia. rewrite Z.div_small by lia.
    rewrite Z.add_0_r. apply Z.mod_small. lia.
  - replace (b0 * 2 ^ 24 + b1 * 2 ^ 16 + b2 * 2 ^ 8 + b3)
      with ((b0 * 2 ^ 8 + b1) * 2 ^ 16 + (b2 * 2 ^ 8 + b3)) by lia.
    rewrite Z.div_add_l by lia. rewrite (Z.div_small (b2 * 2 ^ 8 + b3)) by lia.
    rewrite Z.add_0_r, Z.add_comm, Z.mod_add by lia. apply Z.mod_small. lia.
  - replace (b0 * 2 ^ 24 + b1 * 2 ^ 16 + b2 * 2 ^ 8 + b3)
      with ((b0 * 2 ^ 16 + b1 * 2 ^ 8 + b2) * 2 ^ 8 + b3) by lia.
    rewrite Z.div_add_l by lia. rewrite (Z.div_small b3) by lia.
    rewrite Z.add_0_r.
    replace (b0 * 2 ^ 16 + b1 * 2 ^ 8 + b2)
      with (b2 + (b0 * 2 ^ 8 + b1) * 2 ^ 8) by lia.
    rewrite Z.mod_add by lia. apply Z.mod_small. lia.
  - replace (b0 * 2 ^ 24 + b1 * 2 ^ 16 + b2 * 2 ^ 8 + b3)
      with (b3 + (b0 * 2 ^ 16 + b1 * 2 ^ 8 + b2) * 2 ^ 8) by lia.
    rewrite Z.mod_add by lia. apply Z.mod_small. lia.
Qed.

Lemma _BarFlyMp4LongRender_BufToLong (b0 b1 b2 b3 : Z) :
  bytes [b0; b1; b2; b3] ->
  _BarFlyMp4LongRender (_BarFlyMp4BufToLong b0 b1 b2 b3) = [b0; b1; b2; b3].
Proof.
  intros H. pose proof (entry_shifted b0 b1 b2 b3 0 H) as E.
  rewrite !Z.add_0_r in E. rewrite E.
  rewrite Z.mod_small by now apply be32_range.
  now apply digits_be32.
Qed.

(** X14.  [_BarFlyMp4LongRender] and [_BarFlyMp4BufToLong] are inverse on
    four bytes: rendering the number read from four bytes gives these bytes
    back, whatever the first byte; and reading the four bytes rendered for
    a number [v] below [2^32] gives [v] when [v] is below [2^31], and
    [v - 2^32], a negative number, otherwise. *)
Theorem X14_render_and_read_four_bytes :
  (forall b0 b1 b2 b3 : Z,
      bytes [b0; b1; b2; b3] ->
      _BarFlyMp4LongRender (_BarFlyMp4BufToLong b0 b1 b2 b3)
      = [b0; b1; b2; b3])
  /\ (forall v : Z,
        0 <= v < 2 ^ 32 ->
        exists b0 b1 b2 b3 : Z,
          _BarFlyMp4LongRender v = [b0; b1; b2; b3]
          /\ _BarFlyMp4BufToLong b0 b1 b2 b3
             = if v <? 2 ^ 31 then v else v - 2 ^ 32).
Proof.
  split; [exact _BarFlyMp4LongRender_BufToLong|].
  intros v Hv. rewrite _BarFlyMp4LongRender_digits, Z.mod_small by assumption.
  unfold digits. do 4 eexists. split; [reflexivity|].
  rewrite _BarFlyMp4BufToLong_value by apply (digits_bytes v).
  rewrite be32_digits by assumption.
  rewrite (Z.mod_small (v / 2 ^ 24))
    by (split; [apply Z.div_pos; lia | apply Z.div_lt_upper_bound; lia]).
  destruct (Z.ltb_spec v (2 ^ 31)) as [Hlt | Hge].
  - destruct (Z.ltb_spec (v / 2 ^ 24) 128) as [_ | Hd]; [lia|].
    assert (v / 2 ^ 24 < 128) by (apply Z.div_lt_upper_bound; lia). lia.
  - destruct (Z.ltb_spec (v / 2 ^ 24) 128) as [Hd | _]; [|lia].
    assert (128 <= v / 2 ^ 24) by (apply Z.div_le_lower_bound; lia). lia.
Qed.

(** The theorem on the bytes [0 0 1 244] and on the number [2^31]. *)
Lemma X14_render_and_read_witness :
  _BarFlyMp4LongRender (_BarFlyMp4BufToLong 0 0 1 244) = [0; 0; 1; 244]
  /\ exists b0 b1 b2 b3 : Z,
       _BarFlyMp4LongRender (2 ^ 31) = [b0; b1; b2; b3]
       /\ _BarFlyMp4BufToLong b0 b1 b2 b3
          = if 2 ^ 31 <? 2 ^ 31 then 2 ^ 31 else 2 ^ 31 - 2 ^ 32.
Proof.
  split.
  - apply (proj1 X14_render_and_read_four_bytes).
    unfold bytes. repeat constructor; lia.
  - apply (proj2 X14_render_and_read_four_bytes). lia.
Defined.

(** X15.  The size [_BarFlyMp4FileParseAtomSize] reads from the four bytes
    of a size field that holds the number [s]: none when [s] is below 8,
    [s] when it is below [2^31], and [2^64 - 2^32 + s] otherwise (the
    number is read as a negative [long] and converted to [size_t]).  So the
    size of an atom of [2^31] bytes or more is never read as it is. *)
Theorem X15_atom_size_field :
  forall (file : list Z) (pos b0 b1 b2 b3 : Z),
    bytes [b0; b1; b2; b3] ->
    file_range file pos 4 = Some [b0; b1; b2; b3] ->
    _BarFlyMp4FileParseAtomSize file pos
    = if be32 b0 b1 b2 b3 <? 8 then None
      else if be32 b0 b1 b2 b3 <? 2 ^ 31 then Some (be32 b0 b1 b2 b3)
           else Some (2 ^ 64 - 2 ^ 32 + be32 b0 b1 b2 b3).
Proof.
  intros file pos b0 b1 b2 b3 Hb Hr. unfold _BarFlyMp4FileParseAtomSize.
  change BAR_FLY_MP4_ATOM_SIZE_LENGTH with 4. rewrite Hr.
  rewrite _BarFlyMp4BufToLong_value by assumption.
  pose proof (be32_range _ _ _ _ Hb) as Hrange.
  apply bytes_four in Hb as (H0 & H1 & H2 & H3).
  change BAR_FLY_MP4_ATOM_MIN_LENGTH with 8.
  assert (Hhigh : be32 b0 b1 b2 b3 < 2 ^ 31 <-> b0 < 128)
    by (unfold be32; lia).
  destruct (Z.ltb_spec b0 128) as [Hb0 | Hb0].
  - rewrite Z.sub_0_r, size_t_small by lia.
    destruct (be32 b0 b1 b2 b3 <? 8); [reflexivity|].
    destruct (Z.ltb_spec (be32 b0 b1 b2 b3) (2 ^ 31)); [reflexivity|lia].
  - assert (Hs : size_t (be32 b0 b1 b2 b3 - 2 ^ 32)
                 = 2 ^ 64 - 2 ^ 32 + be32 b0 b1 b2 b3).
    { unfold size_t.
      replace (be32 b0 b1 b2 b3 - 2 ^ 32)
        with (2 ^ 64 - 2 ^ 32 + be32 b0 b1 b2 b3 + (-1) * 2 ^ 64) by lia.
      rewrite Z.mod_add by lia. apply Z.mod_small. lia. }
    rewrite Hs.
    destruct (Z.ltb_spec (2 ^ 64 - 2 ^ 32 + be32 b0 b1 b2 b3) 8); [lia|].
    destruct (Z.ltb_spec (be32 b0 b1 b2 b3) 8); [lia|].
    destruct (Z.ltb_spec (be32 b0 b1 b2 b3) (2 ^ 31)); [lia|reflexivity].
Qed.

(** The theorem on the size field of the first atom of [sample_file]. *)
Lemma X15_atom_size_field_witness :
  _BarFlyMp4FileParseAtomSize sample_file 0
  = if be32 0 0 0 16 <? 8 then None
    else if be32 0 0 0 16 <? 2 ^ 31 then Some (be32 0 0 0 16)
         else Some (2 ^ 64 - 2 ^ 32 + be32 0 0 0 16).
Proof.
  apply X15_atom_size_field; [|reflexivity].
  unfold bytes. repeat constructor; lia.
Defined.

(** *** A table that is shorter than its count *)

Lemma adjust_entries_short (n : nat) :
  forall (buf : list Z) (count delta : Z),
    (List.length buf <= n)%nat ->
    Z.of_nat (List.length buf) < 4 * count ->
    adjust_entries buf count delta = None.
Proof.
  induction n as [|n IH]; intros buf count delta Hn Hlen.
  - destruct buf; [|cbn in Hn; lia]. cbn [List.length] in Hlen.
    cbn [adjust_entries]. destruct (Z.leb_spec count 0); [lia|reflexivity].
  - destruct buf as [|b0 [|b1 [|b2 [|b3 rest]]]]; cbn [adjust_entries];
      (destruct (Z.leb_spec count 0); [cbn [List.length] in Hlen; lia|]);
      try reflexivity.
    rewrite IH; [reflexivity | cbn [List.length] in Hn; lia
                 | cbn [List.length] in Hlen; lia].
Qed.

(** The data of the table after [_BarFlyMp4FileParseAtomData], when the
    buffer can be allocated. *)
Lemma _BarFlyMp4FileParseAtomData_loads (file : list Z) (a : BarFlyMp4Atom_t)
    (d : list Z) (h : heap) :
  payload_of file a = Some d ->
  d <> [] ->
  name_in (name a) data_atom_names = true ->
  hd true h = true ->
  _BarFlyMp4FileParseAtomData file a h = None
  \/ exists (a' : BarFlyMp4Atom_t) (h' : heap),
       _BarFlyMp4FileParseAtomData file a h = Some ((0, a'), h')
       /\ data a' = Some d.
Proof.
  intros Hp Hd Hn Hh. unfold payload_of in Hp.
  unfold _BarFlyMp4FileParseAtomData.
  destruct (data a) as [d0|] eqn:Ed.
  - injection Hp as ->. right. now exists a, h.
  - pose proof (file_range_length _ _ _ _ Hp) as (Hl & Hfrom & _).
    assert (0 < data_size a) by (destruct d; [contradiction|cbn in Hl; lia]).
    destruct (Z.ltb_spec 0 (data_size a)); [|lia].
    destruct (offset a =? -1); [now left|].
    rewrite Hn.
    destruct (Z.ltb_spec
                (long (offset a + BAR_FLY_MP4_ATOM_SIZE_LENGTH
                       + BAR_FLY_MP4_ATOM_NAME_LENGTH)) 0); [lia|].
    right. unfold bind, alloc.
    destruct h as [|ok h]; [|cbn in Hh; subst ok]; rewrite Hp;
      eexists; eexists; split; reflexivity.
Qed.

(** X16.  [_BarFlyMp4TagUpdateOffsets] trusts the count of the chunk-offset
    table: when the table announces more entries than its data holds (the
    count is read with [_BarFlyMp4BufToLong] and no bound is tested), the
    loop reads and writes after the end of the buffer, and the call has no
    defined result. *)
Theorem X16_table_count_is_not_checked :
  forall (tag : BarFlyMp4Tag_t) (delta : Z) (h : heap)
         (v0 v1 v2 v3 c0 c1 c2 c3 : Z) (entries : list Z),
    stco_payload tag
    = Some (v0 :: v1 :: v2 :: v3 :: c0 :: c1 :: c2 :: c3 :: entries) ->
    bytes [c0; c1; c2; c3] ->
    Z.of_nat (List.length entries) < 4 * be32 c0 c1 c2 c3 ->
    hd true h = true ->
    _BarFlyMp4TagUpdateOffsets tag delta h = None.
Proof.
  intros tag delta h v0 v1 v2 v3 c0 c1 c2 c3 entries Hp Hb Hlen Hh.
  rewrite _BarFlyMp4TagUpdateOffsets_unfold.
  rewrite stco_payload_unfold in Hp.
  destruct (_BarFlyMp4TagFindAtom tag stco_path) as [c|] eqn:Ef;
    [|discriminate].
  assert (Hname : name_in (name (fst (at_atom c))) data_atom_names = true)
    by now rewrite (stco_found_name _ _ Ef).
  assert (Hshort : adjust_offsets
                     (v0 :: v1 :: v2 :: v3 :: c0 :: c1 :: c2 :: c3 :: entries)
                     delta = None).
  { cbn [adjust_offsets].
    rewrite (adjust_entries_short (List.length entries)); [reflexivity|lia|].
    rewrite _BarFlyMp4BufToLong_value by assumption.
    pose proof (be32_range _ _ _ _ Hb) as Hr.
    destruct (c0 <? 128).
    - rewrite Z.sub_0_r, size_t_small; lia.
    - unfold size_t.
      replace (be32 c0 c1 c2 c3 - 2 ^ 32)
        with (2 ^ 64 - 2 ^ 32 + be32 c0 c1 c2 c3 + (-1) * 2 ^ 64) by lia.
      rewrite Z.mod_add by lia. rewrite Z.mod_small; lia. }
  destruct (_BarFlyMp4FileParseAtomData_loads _ _ _ h Hp) as [E | E];
    try assumption; try discriminate.
  - unfold bind. now rewrite E.
  - destruct E as (a' & h' & E & Ed). unfold bind. rewrite E.
    change (negb (0 =? 0)) with false. cbv iota. now rewrite Ed, Hshort.
Qed.

(** The theorem on the tag of [short_table_file]. *)
Lemma X16_table_count_witness :
  _BarFlyMp4TagUpdateOffsets (opened short_table_file) 8 [] = None.
Proof.
  refine (X16_table_count_is_not_checked (opened short_table_file) 8 []
            0 0 0 0 0 0 0 3 [0; 0; 1; 244; 0; 0; 3; 132] _ _ _ eq_refl).
  - vm_compute. reflexivity.
  - unfold bytes. repeat constructor; lia.
  - vm_compute. reflexivity.
Defined.

(** *** The accounting of a tag *)

Lemma sized_store (tag : BarFlyMp4Tag_t) (c : cursor) (l : location) :
  Forall sized (atoms_of c) ->
  sized (root (fst l) (snd l)) ->
  Forall sized (atoms (store tag c l)).
Proof.
  unfold store, atoms_of. cbn [atoms top_before at_atom top_after].
  intros H Hl. apply Forall_app in H as [Hb H]. apply Forall_app.
  split; [assumption|]. inversion H; subst. now constructor.
Qed.

Lemma sized_at_cursor (c : cursor) :
  Forall sized (atoms_of c) ->
  sized (root (fst (at_atom c)) (snd (at_atom c))).
Proof.
  unfold atoms_of. intros H. apply Forall_app in H as [_ H].
  now inversion H.
Qed.

(** Updating the offsets changes the data of an atom only. *)
Lemma _BarFlyMp4TagUpdateOffsets_sized (tag : BarFlyMp4Tag_t) (delta : Z)
    (h h' : heap) (status : Z) (tag' : BarFlyMp4Tag_t) :
  Forall sized (atoms tag) ->
  _BarFlyMp4TagUpdateOffsets tag delta h = Some ((status, tag'), h') ->
  Forall sized (atoms tag').
Proof.
  intros Htag H. rewrite _BarFlyMp4TagUpdateOffsets_unfold in H.
  destruct (_BarFlyMp4TagFindAtom tag stco_path) as [c|] eqn:Ef;
    [| run_step H; assumption].
  run_step H. destruct x as [st stco_atom].
  destruct (negb (st =? 0)); [run_step H; assumption|].
  destruct (data stco_atom) as [d|]; [| discriminate].
  destruct (adjust_offsets d delta) as [d'|]; [| discriminate].
  run_step H.
  apply _BarFlyMp4TagFindAtom_atoms in Ef. rewrite <- Ef in Htag.
  apply sized_store; [assumption|]. cbn [fst snd].
  pose proof (sized_at_cursor c Htag) as Hc.
  destruct (at_atom c) as [a chain]. cbn [fst snd] in *.
  pose proof (_BarFlyMp4FileParseAtomData_sized_root _ _ _ _ _ _ _ Hc E) as Hs.
  apply (sized_root_replace chain stco_atom); [assumption | | reflexivity].
  apply sized_root_inv, sized_inv in Hs as (Hs & Hd & Hcs).
  apply sized_intro; assumption.
Qed.

(** Adding an atom to a tag keeps the accounting of all its atoms. *)
Lemma _BarFlyMp4TagAddAtom_sized (tag : BarFlyMp4Tag_t) (parent_path : string)
    (atom : BarFlyMp4Atom_t) (update_offsets : bool) (h h' : heap)
    (status : Z) (tag' : BarFlyMp4Tag_t) :
  Forall sized (atoms tag) ->
  sized atom ->
  _BarFlyMp4TagAddAtom tag parent_path atom update_offsets h
  = Some ((status, tag'), h') ->
  Forall sized (atoms tag').
Proof.
  intros Htag Hatom H. unfold _BarFlyMp4TagAddAtom in H.
  run_step H. destruct x as [st tag1].
  assert (Htag1 : Forall sized (atoms tag1)).
  { unfold attach in E. destruct parent_path as [|ch parent_path].
    - repeat run_step E; try discriminate; [| assumption].
      cbn [atoms]. apply Forall_app. split; [assumption | now constructor].
    - destruct (_BarFlyMp4TagFindAtom tag (String ch parent_path))
        as [c|] eqn:Ef; [| run_step E; assumption].
      run_step E. destruct x as [st' parent'].
      destruct (negb (st' =? 0)); run_step E; [assumption|].
      apply _BarFlyMp4TagFindAtom_atoms in Ef. rewrite <- Ef in Htag.
      apply sized_store; [assumption|].
      pose proof (sized_at_cursor c Htag) as Hc.
      destruct (at_atom c) as [a chain]. cbn [fst snd] in *.
      eapply _BarFlyMp4AtomAddChild_sized;
        [exact Hc | exact Hatom | eassumption]. }
  destruct (negb (st =? 0)); [run_step H; assumption|].
  destruct update_offsets; [| run_step H; assumption].
  run_step H. destruct x as [st2 tag2].
  apply _BarFlyMp4TagUpdateOffsets_sized in E0; [| assumption].
  destruct (negb (st2 =? 0)); run_step H; assumption.
Qed.

(** Every atom that the operations build is sized. *)
Lemma built_sized : forall t : BarFlyMp4Atom_t, built t -> sized t.
Proof.
  fix IH 2. intros t Ht.
  destruct Ht as [n off h a h' H
                 | fuel file pos h a pos' h' H
                 | a chain child h status l h' Hroot Hchild H
                 | a chain file new h status l h' Hroot H
                 | tag parent_path atom update_offsets h status tag' h' t
                     Hall Hatom H Hin].
  - now apply _BarFlyMp4AtomOpen_sized in H.
  - now apply (proj1 (parse_sized fuel)) in H.
  - apply (_BarFlyMp4AtomAddChild_sized a chain child h h' status l);
      [now apply IH | now apply IH | assumption].
  - apply (_BarFlyMp4AtomAppendData_sized a chain file new h h' status l);
      [now apply IH | assumption].
  - assert (Htag : Forall sized (atoms tag)).
    { apply Forall_forall. intros x Hx. apply IH. now apply Hall. }
    apply IH in Hatom.
    pose proof (_BarFlyMp4TagAddAtom_sized _ _ _ _ _ _ _ _ Htag Hatom H) as H'.
    rewrite Forall_forall in H'. now apply H'.
Qed.

(** C2 (as amended).  After any sequence of parse, append-data and
    add-child operations (and of additions to a tag, which are made of
    them), every atom of the tree records as its size 8 plus the length of
    its payload plus the sum of the recorded sizes of its children, in the
    arithmetic of [size_t] (modulo [2^64]), hence exactly whenever that sum
    is a [size_t].  Appending data and adding a child keep this since they
    add the delta to the atom and to every atom of its chain of parents
    ([bump_chain]). *)
Theorem C2_size_accounting :
  forall t : BarFlyMp4Atom_t,
    built t ->
    forall a : BarFlyMp4Atom_t,
      within a t ->
      size a = size_t (8 + data_size a + sum_sizes (children a))
      /\ (8 + data_size a + sum_sizes (children a) < 2 ^ 64 ->
          size a = 8 + data_size a + sum_sizes (children a)).
Proof.
  intros t Ht a Ha.
  apply built_sized in Ht. apply (sized_within t Ht) in Ha.
  apply sized_inv in Ha as (Hs & Hd & Hc). unfold accounted in Hs.
  change BAR_FLY_MP4_ATOM_MIN_LENGTH with 8 in Hs.
  split; [assumption|].
  intros Hfit. rewrite Hs. apply size_t_small.
  apply sum_sizes_nonneg in Hc. lia.
Qed.

(** The theorem on a [meta] atom that was given its four bytes of data and
    then a new [hdlr] child. *)
Lemma C2_size_accounting_witness :
  let t := Atom "meta" 20 [Atom "hdlr" 8 [] None 0 (-1)]
                (Some [0; 0; 0; 0]) 4 (-1) in
  size t = size_t (8 + data_size t + sum_sizes (children t))
  /\ (8 + data_size t + sum_sizes (children t) < 2 ^ 64 ->
      size t = 8 + data_size t + sum_sizes (children t)).
Proof.
  intros t.
  refine (C2_size_accounting t _ t (within_here t)).
  refine (built_add_child (Atom "meta" 12 [] (Some [0; 0; 0; 0]) 4 (-1)) []
            (Atom "hdlr" 8 [] None 0 (-1)) [] 0 (t, []) [] _ _ eq_refl).
  - refine (built_append_data (Atom "meta" 8 [] None 0 (-1)) [] []
              [0; 0; 0; 0] [] 0
              (Atom "meta" 12 [] (Some [0; 0; 0; 0]) 4 (-1), []) [] _ eq_refl).
    exact (built_open "meta" (-1) [] (Atom "meta" 8 [] None 0 (-1)) []
             eq_refl).
  - exact (built_open "hdlr" (-1) [] (Atom "hdlr" 8 [] None 0 (-1)) []
             eq_refl).
Defined.

(** C2 (as stated) fails.  The recorded size is a [size_t]: an atom [hdlr]
    whose size field holds [ff ff ff ff] is read with the size [2^64 - 1],
    and a new [moov] atom to which it is added records the size 7, while 8
    plus the length of its payload plus the sizes of its children is
    [2^64 + 7]. *)
Lemma C2_exact_accounting_fails :
  let t := Atom "moov" 7 [huge_hdlr] None 0 (-1) in
  built t
  /\ within t t
  /\ _BarFlyMp4FileParseAtom 5 huge_hdlr_file 1 []
     = Some (Parsed (huge_hdlr, 0), [])
  /\ size t = 7
  /\ 8 + data_size t + sum_sizes (children t) = 2 ^ 64 + 7
  /\ size t <> 8 + data_size t + sum_sizes (children t).
Proof.
  intros t. split.
  - refine (built_add_child (Atom "moov" 8 [] None 0 (-1)) [] huge_hdlr []
              0 (t, []) [] _ _ eq_refl).
    + exact (built_open "moov" (-1) [] (Atom "moov" 8 [] None 0 (-1)) []
               eq_refl).
    + exact (built_parse 5 huge_hdlr_file 1 [] huge_hdlr 0 [] eq_refl).
  - split; [constructor|]. repeat split. discriminate.
Qed.

(** *** The bytes of a rendered atom *)

(** The equation of [_BarFlyMp4AtomRender]. *)
Lemma _BarFlyMp4AtomRender_unfold (file : list Z) (a : BarFlyMp4Atom_t) :
  _BarFlyMp4AtomRender file a
  = match render_payload file a, render_children file (children a) with
    | Some p, Some r =>
        Some (_BarFlyMp4LongRender (size a) ++ name_bytes (name a) ++ p ++ r)
    | _, _ => None
    end.
Proof.
  destruct a as [n sz cs d ds off].
  cbn [_BarFlyMp4AtomRender render_payload children size name data data_size
       offset].
  assert (E : (fix render_all (l : list BarFlyMp4Atom_t) : option (list Z) :=
                 match l with
                 | [] => Some []
                 | c :: l' =>
                     match _BarFlyMp4AtomRender file c, render_all l' with
                     | Some x, Some y => Some (x ++ y)
                     | _, _ => None
                     end
                 end) cs = render_children file cs).
  { induction cs as [|c cs IH]; [reflexivity|].
    cbn [render_children]. now rewrite <- IH. }
  now rewrite E.
Qed.

Lemma name_bytes_length (n : string) : List.length (name_bytes n) = 4%nat.
Proof.
  unfold name_bytes. rewrite length_firstn, length_app. cbn [List.length]. lia.
Qed.

Lemma render_payload_length (file : list Z) (a : BarFlyMp4Atom_t)
    (p : list Z) :
  0 <= data_size a ->
  render_payload file a = Some p ->
  Z.of_nat (List.length p) = data_size a.
Proof.
  intros Hds. unfold render_payload.
  destruct (Z.ltb_spec 0 (data_size a)) as [Hpos | Hle].
  - destruct (data a) as [buf|].
    + destruct (Z.ltb_spec (Z.of_nat (List.length buf)) (data_size a));
        [discriminate|].
      intros [= <-]. rewrite length_firstn. lia.
    + intros H. now apply file_range_length in H.
  - intros [= <-]. cbn. lia.
Qed.

Lemma _BarFlyMp4LongRender_size_t (x : Z) :
  _BarFlyMp4LongRender (size_t x) = _BarFlyMp4LongRender x.
Proof.
  unfold _BarFlyMp4LongRender, size_t. now rewrite Z.mod_mod by lia.
Qed.

(** The rendered length of an atom whose sizes are accounted for is its
    recorded size. *)
Lemma _BarFlyMp4AtomRender_length (file : list Z) :
  forall a : BarFlyMp4Atom_t,
    sized a ->
    forall out : list Z,
      _BarFlyMp4AtomRender file a = Some out ->
      size_t (Z.of_nat (List.length out)) = size a.
Proof.
  intros a. induction a as [n sz cs d ds off IH] using atom_ind.
  intros Hs out. rewrite _BarFlyMp4AtomRender_unfold.
  apply sized_inv in Hs as (Hsz & Hds & Hcs).
  cbn [children size name data_size] in *.
  destruct (render_payload file (Atom n sz cs d ds off)) as [p|] eqn:Ep;
    [|discriminate].
  apply render_payload_length in Ep; [|assumption]. cbn [data_size] in Ep.
  destruct (render_children file cs) as [r|] eqn:Er; [|discriminate].
  intros [= <-].
  assert (Hr : size_t (Z.of_nat (List.length r)) = size_t (sum_sizes cs)).
  { clear Hsz. revert r Er.
    induction cs as [|c cs IHcs]; intros r Er; cbn [render_children] in Er.
    - now injection Er as <-.
    - inversion IH as [|? ? Hc IH']; subst. inversion Hcs as [|? ? Sc Scs]; subst.
      destruct (_BarFlyMp4AtomRender file c) as [x|] eqn:Ex; [|discriminate].
      destruct (render_children file cs) as [y|]; [|discriminate].
      injection Er as <-. rewrite length_app, Nat2Z.inj_add.
      cbn [sum_sizes]. rewrite <- (Hc Sc x eq_refl).
      rewrite size_t_add_l, <- size_t_add_r, (IHcs IH' Scs y eq_refl).
      now rewrite size_t_add_r. }
  etransitivity; [|symmetry; exact Hsz].
  cbn [List.length]. rewrite !length_app, name_bytes_length.
  unfold accounted. cbn [data_size children].
  change BAR_FLY_MP4_ATOM_MIN_LENGTH with 8.
  rewrite <- (size_t_add_r (8 + ds) (sum_sizes cs)), <- Hr, size_t_add_r.
  f_equal. lia.
Qed.

(** X17.  The size field of a rendered atom is the length of what is
    rendered for it: for every atom of a tree built by the operations of
    the editor, the number of bytes [_BarFlyMp4AtomRender] writes for the
    atom, its payload and its children, is the recorded size of the atom
    (modulo [2^64]), and the first four of these bytes are that number as
    [_BarFlyMp4LongRender] writes it. *)
Theorem X17_rendered_length_is_the_size :
  forall (file : list Z) (t a : BarFlyMp4Atom_t) (out : list Z),
    built t ->
    within a t ->
    _BarFlyMp4AtomRender file a = Some out ->
    size_t (Z.of_nat (List.length out)) = size a
    /\ firstn 4 out = _BarFlyMp4LongRender (Z.of_nat (List.length out)).
Proof.
  intros file t a out Ht Ha Hr.
  apply built_sized in Ht. apply (sized_within t Ht) in Ha.
  pose proof (_BarFlyMp4AtomRender_length file a Ha out Hr) as Hlen.
  split; [exact Hlen|].
  rewrite <- _BarFlyMp4LongRender_size_t, Hlen.
  rewrite _BarFlyMp4AtomRender_unfold in Hr.
  destruct (render_payload file a); [|discriminate].
  destruct (render_children file (children a)); [|discriminate].
  now injection Hr as <-.
Qed.

(** The theorem on a [meta] atom that was given its four bytes of data and
    then a new [hdlr] child: twenty bytes are rendered. *)
Lemma X17_rendered_length_witness :
  let t := Atom "meta" 20 [Atom "hdlr" 8 [] None 0 (-1)]
                (Some [0; 0; 0; 0]) 4 (-1) in
  let out := [0; 0; 0; 20; 109; 101; 116; 97; 0; 0; 0; 0;
              0; 0; 0; 8; 104; 100; 108; 114] in
  size_t (Z.of_nat (List.length out)) = size t
  /\ firstn 4 out = _BarFlyMp4LongRender (Z.of_nat (List.length out)).
Proof.
  intros t out.
  refine (X17_rendered_length_is_the_size [] t t out _ (within_here t)
            eq_refl).
  refine (built_add_child (Atom "meta" 12 [] (Some [0; 0; 0; 0]) 4 (-1)) []
            (Atom "hdlr" 8 [] None 0 (-1)) [] 0 (t, []) [] _ _ eq_refl).
  - refine (built_append_data (Atom "meta" 8 [] None 0 (-1)) [] []
              [0; 0; 0; 0] [] 0
              (Atom "meta" 12 [] (Some [0; 0; 0; 0]) 4 (-1), []) [] _ eq_refl).
    exact (built_open "meta" (-1) [] (Atom "meta" 8 [] None 0 (-1)) []
             eq_refl).
  - exact (built_open "hdlr" (-1) [] (Atom "hdlr" 8 [] None 0 (-1)) []
             eq_refl).
Defined.

(** *** The table in the written file *)









(** The editor on [sample_file], from [BarFlyMp4TagOpen] to
    [BarFlyMp4TagWrite]: adding the artist ["A"] inserts 86 bytes in [moov],
    and the two entries of the table are larger by 86 in the file that is
    written. *)
Example sample_file_tagged :
  tagged sample_file [] = Some (written sample_file [])
  /\ List.length (written sample_file [])
     = (List.length sample_file + 86)%nat
  /\ entries_at sample_file 87 = Some [500; 900]
  /\ entries_at (written sample_file []) 87 = Some [586; 986]
  /\ firstn 16 (written sample_file []) = firstn 16 sample_file
  /\ skipn (103 + 86) (written sample_file []) = skipn 103 sample_file.
Proof. vm_compute. repeat split. Qed.


(** A file of two tracks.  [_BarFlyMp4TagUpdateOffsets] is documented to
    update all the atoms of the tag that have offsets, and looks up one
    path: the table of the second track is in the [moov] tree, and its
    entries are written as they were while [moov] has grown by 86 bytes. *)
Example two_track_file_second_table :
  tagged two_track_file [] = Some (written two_track_file [])
  /\ List.length (written two_track_file [])
     = (List.length two_track_file + 86)%nat
  /\ entries_at two_track_file 154 = Some [700; 1100]
  /\ entries_at (written two_track_file []) 154 = Some [700; 1100].
Proof. vm_compute. repeat split. Qed.

(** *** The layout of a metadata atom *)

Lemma _BarFlyMp4AtomAppendData_in_memory (a : BarFlyMp4Atom_t)
    (chain : list frame) (file new : list Z) (h h' : heap) (st : Z)
    (l : location) :
  data a <> None \/ data_size a = 0 ->
  new <> [] ->
  _BarFlyMp4AtomAppendData (a, chain) file new h = Some ((st, l), h') ->
  (st = 0
   /\ l = (Atom (name a) (size_t (size a + Z.of_nat (List.length new)))
                (children a) (Some (extend_data a new))
                (size_t (data_size a + Z.of_nat (List.length new)))
                (offset a),
           bump_chain chain (Z.of_nat (List.length new))))
  \/ (st = -1 /\ l = (a, chain)).
Proof.
  intros Hmem Hnew. unfold _BarFlyMp4AtomAppendData. cbn [fst snd].
  destruct (Z.ltb_spec 0 (Z.of_nat (List.length new))) as [_ | Hle];
    [|destruct new; [contradiction|cbn [List.length] in Hle; lia]].
  assert (Hp : _BarFlyMp4FileParseAtomData file a h = Some ((0, a), h)).
  { unfold _BarFlyMp4FileParseAtomData.
    destruct (data a); [reflexivity|].
    destruct Hmem as [Hd | ->]; [contradiction|reflexivity]. }
  unfold bind at 1. rewrite Hp. cbv iota beta.
  change (negb (0 =? 0)) with false. cbv iota.
  unfold bind, alloc.
  destruct h as [|[|] h]; intros [= <- <- <-]; auto.
Qed.

Lemma name_bytes_take (n : string) :
  name_bytes (Path.take 4 n) = name_bytes n.
Proof. destruct n as [|c0 [|c1 [|c2 [|c3 n]]]]; reflexivity. Qed.

(** The atom [build_meta_atom] returns. *)
Lemma build_meta_atom_value (file : list Z) (n : string)
    (class value : list Z) (h h' : heap) (a : BarFlyMp4Atom_t) :
  List.length class = 4%nat ->
  build_meta_atom file n class value h = Some (Some a, h') ->
  let len := Z.of_nat (List.length value) in
  let data_atom_size :=
    if 0 <? len then size_t (size_t (size_t (8 + 4) + 4) + len)
    else size_t (size_t (8 + 4) + 4) in
  let data_atom_data_size :=
    if 0 <? len then size_t (size_t (size_t (0 + 4) + 4) + len)
    else size_t (size_t (0 + 4) + 4) in
  a = Atom (Path.take 4 n) (size_t (8 + data_atom_size))
        [Atom "data" data_atom_size []
           (Some ((class ++ [0; 0; 0; 0]) ++ value)) data_atom_data_size (-1)]
        None 0 (-1).
Proof.
  intros Hclass H. unfold build_meta_atom in H.
  run_step H. destruct x as [meta_atom|]; [|run_step H; discriminate].
  apply _BarFlyMp4AtomOpen_fields in E. subst meta_atom.
  run_step H. destruct x as [data_atom|]; [|run_step H; discriminate].
  apply _BarFlyMp4AtomOpen_fields in E. subst data_atom.
  change (Z.to_nat BAR_FLY_MP4_ATOM_CLASS_LENGTH) with 4%nat in H.
  rewrite <- Hclass, firstn_all in H.
  run_step H. destruct x as [st1 d1].
  apply _BarFlyMp4AtomAppendData_in_memory in E
    as [[-> ->] | [-> ->]];
    [.. | run_step H; discriminate
     | now right | destruct class; [discriminate Hclass|discriminate]].
  change (negb (0 =? 0)) with false in H. cbv iota in H.
  run_step H. destruct x as [st2 d2].
  apply _BarFlyMp4AtomAppendData_in_memory in E
    as [[-> ->] | [-> ->]];
    [.. | run_step H; discriminate | now left | discriminate].
  change (negb (0 =? 0)) with false in H. cbv iota in H.
  cbn [name size children data data_size offset extend_data Z.to_nat repeat
       app bump_chain detached fst snd] in H.
  rewrite Hclass in H. change BAR_FLY_MP4_ATOM_MIN_LENGTH with 8 in H.
  change (Z.of_nat 4) with 4 in H.
  change (Z.of_nat (List.length [0; 0; 0; 0])) with 4 in H.
  run_step H. destruct x as [st3 d3].
  assert (Hd3 : st3 = 0 ->
    fst d3 = Atom "data"
               (if 0 <? Z.of_nat (List.length value)
                then size_t (size_t (size_t (8 + 4) + 4)
                             + Z.of_nat (List.length value))
                else size_t (size_t (8 + 4) + 4)) []
               (Some ((class ++ [0; 0; 0; 0]) ++ value))
               (if 0 <? Z.of_nat (List.length value)
                then size_t (size_t (size_t (0 + 4) + 4)
                             + Z.of_nat (List.length value))
                else size_t (size_t (0 + 4) + 4)) (-1)).
  { intros ->. destruct value as [|v value].
    - cbn in E. injection E as <- <-. cbn [fst List.length Z.of_nat].
      change (0 <? 0) with false. cbv iota. now rewrite app_nil_r.
    - apply _BarFlyMp4AtomAppendData_in_memory in E
        as [[_ ->] | [E0 _]]; [| discriminate | now left | discriminate].
      cbn [fst name size children data data_size offset extend_data].
      destruct (Z.ltb_spec 0 (Z.of_nat (List.length (v :: value))));
        [reflexivity|cbn [List.length] in *; lia]. }
  destruct (Z.eqb_spec st3 0) as [-> | Hne]; cbn [negb] in H;
    [|run_step H; discriminate].
  rewrite (Hd3 eq_refl) in H. clear Hd3 E.
  run_step H. destruct x as [st4 m].
  unfold _BarFlyMp4AtomAddChild in E. run_step E.
  destruct x; run_step E; [|run_step H; discriminate].
  cbn [negb Z.eqb] in H. run_step H.
  cbn [fst snd detached _BarFlyMp4AtomBumpSize set_size name size children
       data data_size offset app].
  reflexivity.
Qed.

(** X18.  The bytes of a metadata atom: the atom that
    [_BarFlyMp4TagAddMetaAtom] builds for a name, a class of four bytes and
    a value is rendered as the size [24 + length value] and the name, then
    one child atom: the size [16 + length value], the name [data], the
    class, four zero bytes and the value. *)
Theorem X18_metadata_atom_layout :
  forall (file : list Z) (n : string) (class value : list Z) (h h' : heap)
         (a : BarFlyMp4Atom_t),
    List.length class = 4%nat ->
    Z.of_nat (List.length value) + 24 < 2 ^ 64 ->
    build_meta_atom file n class value h = Some (Some a, h') ->
    _BarFlyMp4AtomRender file a
    = Some (_BarFlyMp4LongRender (24 + Z.of_nat (List.length value))
            ++ name_bytes n
            ++ _BarFlyMp4LongRender (16 + Z.of_nat (List.length value))
            ++ name_bytes "data" ++ class ++ [0; 0; 0; 0] ++ value).
Proof.
  intros file n class value h h' a Hclass Hlen H.
  apply build_meta_atom_value in H; [|assumption]. cbv zeta in H.
  set (len := Z.of_nat (List.length value)) in *.
  assert (Hnn : 0 <= len) by (unfold len; lia).
  assert (Hsize : (if 0 <? len then size_t (size_t (size_t (8 + 4) + 4) + len)
                   else size_t (size_t (8 + 4) + 4)) = 16 + len).
  { destruct (Z.ltb_spec 0 len).
    - rewrite !size_t_add_l. apply size_t_small. lia.
    - rewrite !size_t_add_l. rewrite size_t_small; lia. }
  assert (Hdsize : (if 0 <? len then size_t (size_t (size_t (0 + 4) + 4) + len)
                    else size_t (size_t (0 + 4) + 4)) = 8 + len).
  { destruct (Z.ltb_spec 0 len).
    - rewrite !size_t_add_l. apply size_t_small. lia.
    - rewrite !size_t_add_l. rewrite size_t_small; lia. }
  rewrite Hsize, Hdsize in H. subst a.
  rewrite _BarFlyMp4AtomRender_unfold.
  cbn [children render_children]. rewrite _BarFlyMp4AtomRender_unfold.
  unfold render_payload.
  cbn [children render_children data data_size size name offset].
  change (0 <? 0) with false. cbv iota.
  destruct (Z.ltb_spec 0 (8 + len)) as [_ | Hle]; [|lia].
  assert (Hbuf : Z.of_nat (List.length ((class ++ [0; 0; 0; 0]) ++ value))
                 = 8 + len).
  { rewrite !length_app, Hclass. cbn [List.length]. unfold len. lia. }
  destruct (Z.ltb_spec
              (Z.of_nat (List.length ((class ++ [0; 0; 0; 0]) ++ value)))
              (8 + len)) as [Hlt | _]; [lia|].
  rewrite <- Hbuf, Nat2Z.id, firstn_all.
  rewrite _BarFlyMp4LongRender_size_t, name_bytes_take.
  rewrite !app_nil_r, <- !app_assoc. cbn [app].
  now replace (8 + (16 + len)) with (24 + len) by lia.
Qed.

(** The theorem on the atom of the artist ["A"]. *)
Lemma X18_metadata_atom_witness :
  _BarFlyMp4AtomRender []
    (Atom artist_name 25
       [Atom "data" 17 [] (Some [0; 0; 0; 1; 0; 0; 0; 0; 65]) 9 (-1)]
       None 0 (-1))
  = Some (_BarFlyMp4LongRender (24 + Z.of_nat (List.length [65]))
          ++ name_bytes artist_name
          ++ _BarFlyMp4LongRender (16 + Z.of_nat (List.length [65]))
          ++ name_bytes "data" ++ BAR_FLY_MP4_ATOM_ARTIST_CLASS
          ++ [0; 0; 0; 0] ++ [65]).
Proof.
  refine (X18_metadata_atom_layout [] artist_name
            BAR_FLY_MP4_ATOM_ARTIST_CLASS [65] [] [] _ eq_refl _ eq_refl).
  cbn. lia.
Defined.

(** *** Reading, then writing *)


















End Mp4Facts.
(** ** Facts about [BarFlyID3WriteFile] *)

Module Id3FileFacts.

Import Path Fly Id3File.
Local Open Scope string_scope.

(** *** Lists of bytes *)

Lemma firstn_min {A : Type} (n : nat) (l : list A) :
  firstn (Nat.min (List.length l) n) l = firstn n l.
Proof.
  destruct (Nat.le_gt_cases n (List.length l)) as [H | H].
  - now rewrite Nat.min_r.
  - rewrite Nat.min_l, firstn_all by lia. symmetry. apply firstn_all2. lia.
Qed.

Lemma firstn_short {A : Type} (n : nat) (l : list A) :
  List.length (firstn n l) < n -> firstn n l = l.
Proof.
  intros H. rewrite length_firstn in H. apply firstn_all2. lia.
Qed.

(** The bytes the device has taken of [c ++ pd], when it holds [c] and
    takes the pending bytes [pd] as far as it has space. *)
Lemma flushed (c pd : list Z) (room : nat) :
  (c ++ firstn (Nat.min (List.length pd) room) pd)%list
  = firstn (room + List.length c) (c ++ pd)%list.
Proof.
  rewrite firstn_app, firstn_min.
  replace (room + List.length c - List.length c) with room by lia.
  f_equal. symmetry. apply firstn_all2. lia.
Qed.

Lemma block_size_positive : 0 < BAR_FLY_COPY_BLOCK_SIZE.
Proof. unfold BAR_FLY_COPY_BLOCK_SIZE. apply Nat.mul_pos_pos; lia. Qed.

(** *** The temporary file *)

Lemma copying_scratch (w0 : world) (t : entry) (f : FILE) (written : list Z)
    (w : world) :
  copying w0 t f written w -> scratch w0 t f w.
Proof.
  intros ((c & pd & Hs & Hc & _) & Hfr & Hd & Hcw).
  split; [eexists; split; [exact Hs | reflexivity]|].
  split; [apply FlyFacts.file_contents_present; now exists c|].
  now repeat split.
Qed.

(** [fopen(tmp_file_path, "w+b")], when it succeeds, begins the copy. *)
Lemma fopen_truncate_copying (tmp : string) (opened : bool) (w : world)
    (f : FILE) (w1 : world) :
  fopen_truncate tmp opened w = Some (f, w1) ->
  exists t,
    resolve true w tmp = inr t /\ copying w t f [] w1.
Proof.
  unfold fopen_truncate. destruct (resolve true w tmp) as [e|t] eqn:Er;
    [discriminate|].
  destruct (is_dir w t); [discriminate|].
  destruct (negb (is_file w t) && negb (proper (last_component tmp)));
    [discriminate|].
  destruct opened; [|discriminate].
  set (w' := set_files w _). intros H.
  exists t. split; [reflexivity|].
  assert (Hf : f = fst (open_stream t w'))
    by (injection H as H _; now rewrite <- H).
  assert (Hw : w1 = snd (open_stream t w'))
    by (injection H as _ H; now rewrite <- H).
  subst f w1. clear H. split; [|split; [|split]].
  - exists [], []. split; [apply FlyFacts.stream_of_open_stream|].
    split; [|split].
    + unfold file_contents. cbn [open_stream snd files set_streams set_files
                                 w' find fst].
      now rewrite FlyFacts.same_refl.
    + reflexivity.
    + cbn. lia.
  - intros e He. unfold file_contents.
    cbn [open_stream snd files set_streams set_files w' find fst].
    assert (E : same t e = false) by (apply FlyFacts.same_false; congruence).
    rewrite E. now rewrite FlyFacts.find_filter.
  - reflexivity.
  - reflexivity.
Qed.

(** [fwrite] of a whole buffer on the temporary stream: the stream and its
    file stay, and when every item is reported written the buffer has been
    accepted; it is when the device has space for what has been accepted
    so far and the buffer. *)
Lemma fwrite_copying (libc : stdio) (w0 : world) (t : entry) (f : FILE)
    (written data : list Z) (w : world) :
  copying w0 t f written w ->
  exists (k : nat) (w' : world),
    fwrite libc data 1 (List.length data) f w = Some (k, w')
    /\ scratch w0 t f w'
    /\ (k = List.length data -> copying w0 t f (written ++ data) w')
    /\ (List.length written + List.length data <= space w0 ->
        k = List.length data).
Proof.
  intros Hcopy.
  pose proof Hcopy as ((c & pd & Hs & Hc & Hcat & Hsp) & Hfr & Hd & Hcw).
  destruct data as [|b data].
  { exists 0, w. unfold fwrite. rewrite Hs. cbn [List.length Nat.mul Nat.eqb].
    split; [reflexivity|]. split; [now apply copying_scratch with written|].
    split; [intros _; now rewrite app_nil_r | reflexivity]. }
  set (bytes := b :: data) in *.
  destruct (FlyFacts.fwrite_cases libc bytes 1 (List.length bytes) f w _ Hs)
    as (k & held & Ew & Hok & Hshort).
  { cbn. lia. }
  rewrite Nat.mul_1_l, firstn_all in Ew, Hok, Hshort.
  cbn [pending target] in Ew, Hok, Hshort.
  set (accepted := (pd ++ bytes)%list) in *.
  set (asked := Nat.min (transmits libc pd bytes) (List.length accepted)) in *.
  set (taken := firstn (Nat.min asked (space w)) accepted) in *.
  set (w' := set_pending f held (device_write (Some t) taken w)) in *.
  exists k, w'. split; [exact Ew|].
  assert (Hst : stream_of w' f = Some {| target := Some t; pending := held |}).
  { unfold w'. rewrite FlyFacts.stream_of_set_pending, Nat.eqb_refl.
    unfold stream_of in *. cbn [device_write streams]. now rewrite Hs. }
  assert (Hcont : forall e, file_contents w' e
                            = file_contents (device_write (Some t) taken w) e)
    by reflexivity.
  assert (Hframe : forall e, e <> t -> file_contents w' e = file_contents w0 e).
  { intros e He. rewrite Hcont, FlyFacts.device_write_contents.
    assert (E : same e t = false) by now apply FlyFacts.same_false.
    rewrite E. now apply Hfr. }
  assert (Hself : file_contents w' t = Some (c ++ taken)%list).
  { rewrite Hcont, FlyFacts.device_write_contents, FlyFacts.same_refl, Hc.
    reflexivity. }
  split; [|split].
  - split; [eexists; split; [exact Hst | reflexivity]|].
    split; [apply FlyFacts.file_contents_present; eauto|].
    now repeat split.
  - intros Hk.
    assert (Hle : asked <= space w).
    { destruct (Nat.le_gt_cases asked (space w)) as [H | H]; [assumption|].
      apply Hshort in H. lia. }
    destruct (Hok Hle) as [_ Hheld].
    assert (Hasked : asked <= List.length accepted) by apply Nat.le_min_r.
    split; [|now repeat split].
    exists (c ++ taken)%list, held. split; [exact Hst|].
    split; [exact Hself|]. split.
    + unfold taken. rewrite Nat.min_l by assumption. rewrite Hheld.
      rewrite <- app_assoc, firstn_skipn. unfold accepted.
      now rewrite app_assoc, Hcat.
    + unfold w'. cbn [set_pending set_streams device_write space].
      rewrite length_app. unfold taken.
      rewrite length_firstn. lia.
  - intros Hroom.
    assert (Hasked : asked <= List.length accepted) by apply Nat.le_min_r.
    assert (Hle : asked <= space w).
    { unfold accepted in Hasked. rewrite length_app in Hasked.
      rewrite <- Hcat, length_app in Hroom. lia. }
    now destruct (Hok Hle).
Qed.

Lemma is_file_frame (w w0 : world) (e : entry) :
  file_contents w e = file_contents w0 e -> is_file w e = is_file w0 e.
Proof.
  intros H. destruct (is_file w0 e) eqn:E0.
  - apply FlyFacts.file_contents_present.
    apply FlyFacts.file_contents_present in E0. now rewrite H.
  - apply FlyFacts.file_contents_absent.
    apply FlyFacts.file_contents_absent in E0. now rewrite H.
Qed.

Lemma firstn_add {A : Type} (n m : nat) :
  forall l : list A,
    firstn (n + m) l = (firstn n l ++ firstn m (skipn n l))%list.
Proof.
  induction n as [|n IH]; intros l; [reflexivity|].
  destruct l as [|x l]; cbn [Nat.add firstn skipn app].
  - now rewrite firstn_nil.
  - now rewrite IH.
Qed.

(** *** The copy loop *)

(** What the copy loop does: the temporary file and its stream stay, and
    nothing else changes; when the loop ends without an error the audio
    file is a regular file and the stream has accepted all its bytes. *)
Lemma copy_blocks_copying (libc : stdio) (w0 : world) (t a : entry)
    (f : FILE) (rendered : list Z) (fuel : nat) :
  a <> t ->
  forall (pos : nat) (w : world) (ok : bool) (w' : world),
    copying w0 t f (rendered ++ firstn pos (bytes_at w0 a)) w ->
    copy_blocks libc fuel a pos f w = Some (ok, w') ->
    scratch w0 t f w'
    /\ (ok = true ->
        is_file w0 a = true
        /\ copying w0 t f (rendered ++ bytes_at w0 a) w').
Proof.
  intros Hne. induction fuel as [|fuel IH]; intros pos w ok w' Hcopy H;
    [discriminate|].
  cbn [copy_blocks] in H.
  pose proof Hcopy as (_ & Hfr & _).
  assert (Hfile : is_file w a = is_file w0 a)
    by (apply is_file_frame; now apply Hfr).
  assert (Hb : bytes_at w a = bytes_at w0 a)
    by (unfold bytes_at; now rewrite Hfr).
  rewrite Hfile, Hb in H.
  destruct (is_file w0 a) eqn:Ea; cbn [negb] in H.
  2:{ injection H as <- <-. split; [|discriminate].
      eapply copying_scratch; eassumption. }
  set (old := bytes_at w0 a) in *.
  set (block := firstn BAR_FLY_COPY_BLOCK_SIZE (skipn pos old)) in *.
  destruct (fwrite_copying libc w0 t f _ block w Hcopy)
    as (k & w1 & Ew & Hscr & Hacc & _).
  rewrite Ew in H.
  destruct (Nat.eqb_spec k (List.length block)) as [Hk | Hk]; cbn [negb] in H.
  2:{ injection H as <- <-. split; [assumption | discriminate]. }
  specialize (Hacc Hk). rewrite <- app_assoc in Hacc.
  destruct (Nat.ltb_spec (List.length block) BAR_FLY_COPY_BLOCK_SIZE)
    as [Hlt | Hge].
  - injection H as <- <-. split; [assumption|]. intros _.
    split; [reflexivity|].
    unfold block in Hlt. apply firstn_short in Hlt. fold block in Hlt.
    rewrite Hlt, firstn_skipn in Hacc. exact Hacc.
  - assert (Hlen : List.length block = BAR_FLY_COPY_BLOCK_SIZE).
    { assert (List.length block <= BAR_FLY_COPY_BLOCK_SIZE)
        by (unfold block; apply firstn_le_length). lia. }
    apply (IH _ _ _ _ ) in H; [exact H|].
    now rewrite Hlen, firstn_add.
Qed.

(** With space for the tag and the audio file, and fuel for its bytes,
    the copy loop ends without an error. *)
Lemma copy_blocks_succeeds (libc : stdio) (w0 : world) (t a : entry)
    (f : FILE) (rendered : list Z) (fuel : nat) :
  a <> t ->
  is_file w0 a = true ->
  List.length rendered + List.length (bytes_at w0 a) <= space w0 ->
  forall (pos : nat) (w : world),
    copying w0 t f (rendered ++ firstn pos (bytes_at w0 a)) w ->
    List.length (skipn pos (bytes_at w0 a)) < fuel ->
    exists w', copy_blocks libc fuel a pos f w = Some (true, w').
Proof.
  intros Hne Ea Hroom. induction fuel as [|fuel IH]; intros pos w Hcopy Hfuel;
    [lia|].
  cbn [copy_blocks].
  pose proof Hcopy as (_ & Hfr & _).
  assert (Hfile : is_file w a = is_file w0 a)
    by (apply is_file_frame; now apply Hfr).
  assert (Hb : bytes_at w a = bytes_at w0 a)
    by (unfold bytes_at; now rewrite Hfr).
  rewrite Hfile, Hb, Ea. cbn [negb].
  set (old := bytes_at w0 a) in *.
  set (block := firstn BAR_FLY_COPY_BLOCK_SIZE (skipn pos old)) in *.
  assert (Hbl : List.length block <= List.length (skipn pos old)).
  { unfold block. rewrite length_firstn. lia. }
  rewrite length_skipn in Hbl, Hfuel.
  destruct (fwrite_copying libc w0 t f _ block w Hcopy)
    as (k & w1 & Ew & _ & Hacc & Hall).
  rewrite Ew.
  assert (Hk : k = List.length block).
  { apply Hall. rewrite length_app, length_firstn. lia. }
  specialize (Hacc Hk). rewrite <- app_assoc in Hacc.
  destruct (Nat.eqb_spec k (List.length block)) as [_ | Hn];
    [| contradiction]. cbn [negb].
  destruct (Nat.ltb_spec (List.length block) BAR_FLY_COPY_BLOCK_SIZE)
    as [Hlt | Hge]; [now exists w1|].
  assert (Hlen : List.length block = BAR_FLY_COPY_BLOCK_SIZE).
  { assert (List.length block <= BAR_FLY_COPY_BLOCK_SIZE)
      by (unfold block; apply firstn_le_length). lia. }
  pose proof block_size_positive as Hpos.
  apply IH.
  - now rewrite Hlen, firstn_add.
  - rewrite length_skipn. lia.
Qed.

(** *** Closing, unlinking and renaming the temporary file *)

(** [fclose(tmp_file)] after the copy: the temporary file holds the bytes
    the stream has accepted, as far as the device had space for them. *)
Lemma fclose_copying (w0 : world) (t : entry) (f : FILE) (written : list Z)
    (w : world) :
  copying w0 t f written w ->
  exists (st : Z) (w' : world),
    fclose f w = Some (st, w')
    /\ file_contents w' t = Some (firstn (space w0) written)
    /\ (forall e, e <> t -> file_contents w' e = file_contents w0 e)
    /\ dirs w' = dirs w0
    /\ cwd w' = cwd w0.
Proof.
  intros ((c & pd & Hs & Hc & Hcat & Hsp) & Hfr & Hd & Hcw).
  destruct (FlyFacts.fclose_cases f w _ Hs)
    as (st & w' & Ec & Hd' & Hc' & _ & Ho & Ht & _).
  cbn [target pending] in Ho, Ht.
  exists st, w'. split; [exact Ec|]. split; [|split; [|split]].
  - rewrite (Ht t eq_refl), Hc. cbn [option_map].
    now rewrite flushed, Hsp, Hcat.
  - intros e He. rewrite Ho by congruence. now apply Hfr.
  - congruence.
  - congruence.
Qed.

Lemma resolve_frame (trailing : bool) (w w' : world) (p : string) (e : entry) :
  dirs w' = dirs w -> cwd w' = cwd w ->
  resolve trailing w p = inr e -> resolve trailing w' p = inr e.
Proof.
  intros Hd Hc. apply FlyFacts.resolve_same_dirs; [assumption|].
  intros d. unfold is_dir. now rewrite Hd.
Qed.

(** [unlink] removes the file its path reaches, and nothing else. *)
Lemma unlink_frame (p : string) (w : world) :
  (forall e, e <> place (cwd w) p ->
             file_contents (snd (unlink p w)) e = file_contents w e)
  /\ dirs (snd (unlink p w)) = dirs w
  /\ cwd (snd (unlink p w)) = cwd w
  /\ lookup (snd (unlink p w)) p = None.
Proof.
  unfold unlink. destruct (resolve true w p) as [er|t] eqn:Er.
  { cbn [snd]. repeat split. unfold lookup. now rewrite Er. }
  destruct (is_file w t) eqn:Ef; cbn [snd].
  - set (w' := {| files := _; dirs := dirs w |}).
    split; [|split; [|split]]; try reflexivity.
    + intros e He. apply FlyFacts.resolve_place in Er. subst t.
      unfold file_contents. cbn [files w'].
      now rewrite FlyFacts.find_filter.
    + unfold lookup.
      rewrite (resolve_frame true w w' p t eq_refl eq_refl Er).
      unfold file_contents. cbn [files w'].
      now rewrite FlyFacts.find_filter_self.
  - repeat split. unfold lookup. rewrite Er.
    apply FlyFacts.file_contents_absent in Ef. now rewrite Ef.
Qed.

Lemma stream_of_forget (t : entry) (f : FILE) (w w' : world) (s : stream) :
  streams w' = forget t (streams w) ->
  stream_of w f = Some s ->
  target s = Some t ->
  stream_of w' f = Some {| target := None; pending := pending s |}.
Proof.
  unfold stream_of. intros -> H Ht.
  induction (streams w) as [|[n x] l IH]; [discriminate|].
  cbn [find fst forget map snd] in *.
  destruct (Nat.eqb n (fileno f)) eqn:En.
  - injection H as ->. rewrite Ht, FlyFacts.same_refl. cbn [fst find].
    now rewrite En.
  - assert (Hfst : fst (match target x with
                        | Some u =>
                            if same u t
                            then (n, {| target := None; pending := pending x |})
                            else (n, x)
                        | None => (n, x)
                        end) = n).
    { destruct (target x) as [u|]; [destruct (same u t)|]; reflexivity. }
    destruct (match target x with
              | Some u =>
                  if same u t
                  then (n, {| target := None; pending := pending x |})
                  else (n, x)
              | None => (n, x)
              end) as [n' x'] eqn:E.
    cbn [fst] in Hfst. subst n'. cbn [find fst]. rewrite En.
    now apply IH.
Qed.

(** The label [error] once the temporary file is open: the temporary file
    is gone, and nothing else has changed. *)
Lemma bail_out_frame (tmp : string) (t : entry) (f : FILE) (w0 w : world) :
  scratch w0 t f w ->
  resolve true w0 tmp = inr t ->
  exists w' : world,
    bail_out tmp f w = Some ((-1)%Z, w')
    /\ (forall e, e <> t -> file_contents w' e = file_contents w0 e)
    /\ dirs w' = dirs w0
    /\ cwd w' = cwd w0
    /\ lookup w' tmp = None.
Proof.
  intros ((s & Hs & Ht) & Hf & Hfr & Hd & Hc) Hr.
  assert (Hrw : resolve true w tmp = inr t)
    by (apply (resolve_frame true w0); assumption).
  unfold bail_out, unlink. rewrite Hrw, Hf. cbn [snd].
  set (w1 := {| files := _; dirs := dirs w |}).
  assert (Hs1 : stream_of w1 f
                = Some {| target := None; pending := pending s |})
    by (apply (stream_of_forget t f w w1 s); auto).
  destruct (FlyFacts.fclose_cases f w1 _ Hs1)
    as (st & w' & Ec & Hd' & Hc' & _ & Ho & _).
  cbn [target] in Ho. rewrite Ec. exists w'.
  assert (Hsame : forall e, file_contents w' e = file_contents w1 e)
    by (intros e; apply Ho; discriminate).
  split; [reflexivity|]. split; [|split; [|split]].
  - intros e He. rewrite Hsame. unfold file_contents. cbn [files w1].
    rewrite FlyFacts.find_filter by assumption. now apply Hfr.
  - rewrite Hd'. exact Hd.
  - rewrite Hc'. exact Hc.
  - unfold lookup.
    rewrite (resolve_frame true w w' tmp t Hd' Hc' Hrw), Hsame.
    unfold file_contents. cbn [files w1].
    now rewrite FlyFacts.find_filter_self.
Qed.

Lemma find_renamed (l : list (entry * list Z)) (t a e : entry) :
  t <> a ->
  option_map snd
    (find (fun x => same (fst x) e)
       (map (fun x => if same (fst x) t then (a, snd x) else x)
          (filter (fun x => negb (same (fst x) a)) l)))
  = if same e a then option_map snd (find (fun x => same (fst x) t) l)
    else if same e t then None
         else option_map snd (find (fun x => same (fst x) e) l).
Proof.
  intros Hne.
  assert (Hta : same t a = false) by now apply FlyFacts.same_false.
  induction l as [|[n c] l IH].
  - cbn. destruct (same e a); [reflexivity|]. now destruct (same e t).
  - cbn [filter fst]. destruct (same n a) eqn:Ena; cbn [negb].
    + apply FlyFacts.same_true in Ena. subst n. rewrite IH.
      cbn [find fst]. rewrite (FlyFacts.same_sym a t), Hta.
      destruct (same e a) eqn:Eea; [reflexivity|].
      destruct (same e t); [reflexivity|].
      now rewrite (FlyFacts.same_sym a e), Eea.
    + cbn [map fst snd]. destruct (same n t) eqn:Ent.
      * apply FlyFacts.same_true in Ent. subst n.
        cbn [find fst snd]. rewrite (FlyFacts.same_sym a e).
        destruct (same e a) eqn:Eea.
        -- now rewrite FlyFacts.same_refl.
        -- rewrite IH. rewrite (FlyFacts.same_sym t e).
           now destruct (same e t).
      * cbn [find fst snd]. destruct (same n e) eqn:Ene.
        -- apply FlyFacts.same_true in Ene. subst n.
           rewrite Ena, Ent. reflexivity.
        -- rewrite IH, Ent. reflexivity.
Qed.

(** [rename] of the temporary file to the audio file. *)
Lemma rename_cases (tmp path : string) (permitted : bool) (w : world)
    (t a : entry) :
  resolve true w tmp = inr t ->
  resolve true w path = inr a ->
  t <> a ->
  exists w' : world,
    rename tmp path permitted w
    = (if permitted && is_file w t && negb (is_dir w a)
          && (is_file w a || proper (last_component path))
       then (0%Z, w') else ((-1)%Z, w))
    /\ file_contents w' a = file_contents w t
    /\ file_contents w' t = None
    /\ (forall e, e <> t -> e <> a -> file_contents w' e = file_contents w e)
    /\ dirs w' = dirs w
    /\ cwd w' = cwd w.
Proof.
  intros Ht Ha Hne. unfold rename. rewrite Ht, Ha.
  assert (Hta : same t a = false) by now apply FlyFacts.same_false.
  rewrite Hta.
  eexists. split; [reflexivity|].
  unfold file_contents. cbn [files dirs cwd].
  split; [|split; [|split]].
  - now rewrite find_renamed, FlyFacts.same_refl.
  - rewrite find_renamed, Hta, FlyFacts.same_refl by assumption. reflexivity.
  - intros e He1 He2. rewrite find_renamed by assumption.
    apply FlyFacts.same_false in He1, He2. now rewrite He1, He2.
  - now split.
Qed.

(** *** The whole call *)

(** X20.  [BarFlyID3WriteFile], when the temporary name and the path of
    the audio file stand for two entries and the call has a defined
    result: the status is 0 or -1.  With 0 the audio file was a regular
    file and now holds the rendered tag followed by its former bytes, as
    far as the device had space for them: the writes are buffered and the
    result of the [fclose] that hands the last bytes to the device is not
    looked at, so a tag or a recording cut short is not reported.  With -1
    the audio file is as it was.  No file is left at the temporary name,
    and every other file and the directories are as they were. *)
Theorem X20_tag_is_prepended_or_file_is_kept :
  forall (libc : stdio) (file_path : string) (size1 : nat)
         (rendered : list Z) (tmp_file_path : string)
         (allocated opened_audio opened_tmp permitted : bool)
         (w : world) (st : Z) (w' : world),
    place (cwd w) tmp_file_path <> place (cwd w) file_path ->
    BarFlyID3WriteFile libc file_path size1 rendered (Some tmp_file_path)
      allocated opened_audio opened_tmp permitted w = Some (st, w') ->
    (st = 0%Z \/ st = (-1)%Z)
    /\ (st = 0%Z -> is_file w (place (cwd w) file_path) = true)
    /\ file_contents w' (place (cwd w) file_path)
       = (if (st =? 0)%Z
          then option_map
                 (fun old => firstn (space w) (rendered ++ old)%list)
                 (file_contents w (place (cwd w) file_path))
          else file_contents w (place (cwd w) file_path))
    /\ lookup w' tmp_file_path = None
    /\ (forall e, e <> place (cwd w) tmp_file_path ->
                  e <> place (cwd w) file_path ->
                  file_contents w' e = file_contents w e)
    /\ dirs w' = dirs w.
Proof.
  intros libc path size1 rendered tmp allocated opened_audio opened_tmp
    permitted w st w' Hne H.
  set (a := place (cwd w) path) in *. set (t := place (cwd w) tmp) in *.
  unfold BarFlyID3WriteFile in H.
  destruct allocated; [|discriminate]. cbn [negb] in H.
  destruct (Nat.eqb size1 (List.length rendered)); [|discriminate].
  cbn [negb] in H. unfold fopen_read in H.
  destruct (resolve true w path) as [er|a'] eqn:Era; [discriminate|].
  assert (a' = a) by (now apply FlyFacts.resolve_place in Era). subst a'.
  destruct ((is_file w a || is_dir w a) && opened_audio); [|discriminate].
  assert (Hfail : forall v : world,
    (forall e, e <> t -> file_contents v e = file_contents w e) ->
    dirs v = dirs w ->
    lookup v tmp = None ->
    ((-1)%Z = 0%Z \/ (-1)%Z = (-1)%Z)
    /\ ((-1)%Z = 0%Z -> is_file w a = true)
    /\ file_contents v a
       = (if ((-1) =? 0)%Z
          then option_map
                 (fun old => firstn (space w) (rendered ++ old)%list)
                 (file_contents w a)
          else file_contents w a)
    /\ lookup v tmp = None
    /\ (forall e, e <> t -> e <> a -> file_contents v e = file_contents w e)
    /\ dirs v = dirs w).
  { intros v Hfr Hd Hl. split; [now right|]. split; [discriminate|].
    split; [cbn; apply Hfr; congruence|]. split; [assumption|].
    split; [intros e He _; now apply Hfr | assumption]. }
  destruct (fopen_truncate tmp opened_tmp w) as [[f w1]|] eqn:Eo.
  2:{ injection H as <- <-.
      destruct (unlink_frame tmp w) as (Hfr & Hd & _ & Hl).
      now apply Hfail. }
  destruct (fopen_truncate_copying _ _ _ _ _ Eo) as (t' & Ert & Hcopy1).
  assert (t' = t) by (now apply FlyFacts.resolve_place in Ert). subst t'.
  assert (Hgive : forall v : world,
    scratch w t f v -> bail_out tmp f v = Some (st, w') ->
    (st = 0%Z \/ st = (-1)%Z)
    /\ (st = 0%Z -> is_file w a = true)
    /\ file_contents w' a
       = (if (st =? 0)%Z
          then option_map
                 (fun old => firstn (space w) (rendered ++ old)%list)
                 (file_contents w a)
          else file_contents w a)
    /\ lookup w' tmp = None
    /\ (forall e, e <> t -> e <> a -> file_contents w' e = file_contents w e)
    /\ dirs w' = dirs w).
  { intros v Hscr Hg.
    destruct (bail_out_frame tmp t f w v Hscr Ert)
      as (v' & Eg & Hfr & Hd & _ & Hl).
    rewrite Eg in Hg. injection Hg as <- <-. now apply Hfail. }
  destruct (fwrite_copying libc w t f [] rendered w1 Hcopy1)
    as (k & w2 & Ew & Hscr2 & Hacc2 & _).
  rewrite Ew in H.
  destruct (Nat.eqb_spec k (List.length rendered)) as [Hk | Hk];
    cbn [negb] in H; [|now apply (Hgive w2)].
  specialize (Hacc2 Hk). cbn [app] in Hacc2.
  destruct (copy_blocks libc (S (List.length (bytes_at w2 a))) a 0 f w2)
    as [[ok w3]|] eqn:Ecp; [|discriminate].
  destruct (copy_blocks_copying libc w t a f rendered
              (S (List.length (bytes_at w2 a)))
              (not_eq_sym Hne) 0 w2 ok w3) as [Hscr3 Hall3];
    [cbn [firstn]; now rewrite app_nil_r | exact Ecp |].
  destruct ok; [|now apply (Hgive w3)].
  destruct (Hall3 eq_refl) as [Hfile Hcopy3].
  destruct (fclose_copying w t f _ w3 Hcopy3)
    as (st4 & w4 & Ec & Ht4 & Hfr4 & Hd4 & Hc4).
  rewrite Ec in H.
  destruct (rename_cases tmp path permitted w4 t a) as
    (w5 & Ern & Ha5 & Ht5 & Hfr5 & Hd5 & Hc5);
    [now apply (resolve_frame true w) | now apply (resolve_frame true w)
    | assumption |].
  rewrite Ern in H.
  destruct (permitted && is_file w4 t && negb (is_dir w4 a)
            && (is_file w4 a || proper (last_component path))).
  - injection H as <- <-. split; [now left|]. split; [now intros _|].
    apply FlyFacts.file_contents_present in Hfile as [old Hold].
    split; [|split; [|split]].
    + cbn. rewrite Ha5, Ht4, Hold. unfold bytes_at. now rewrite Hold.
    + unfold lookup.
      rewrite (resolve_frame true w w5 tmp t) by congruence.
      now rewrite Ht5.
    + intros e He1 He2. rewrite Hfr5 by assumption. now apply Hfr4.
    + congruence.
  - injection H as <- <-.
    destruct (unlink_frame tmp w4) as (Hfr & Hd & _ & Hl).
    apply Hfail; [| congruence | assumption].
    intros e He. rewrite Hfr; [now apply Hfr4|].
    rewrite Hc4. exact He.
Qed.

(** The theorem on [tagging_world] with three bytes of space: the tag of
    two bytes and one byte of the recording are what is left of it. *)
Lemma X20_tag_is_prepended_witness :
  let w :=
    {| files := files tagging_world; dirs := dirs tagging_world;
       cwd := cwd tagging_world; space := 3; streams := [] |} in
  let w' :=
    {| files := [(["music"; "Artist"; "Title.mp3"], [9; 9; 1]%Z)];
       dirs := dirs tagging_world; cwd := cwd tagging_world; space := 0;
       streams := [] |} in
  (0%Z = 0%Z \/ 0%Z = (-1)%Z)
  /\ (0%Z = 0%Z -> is_file w (place (cwd w) "Artist/Title.mp3") = true)
  /\ file_contents w' (place (cwd w) "Artist/Title.mp3")
     = (if (0 =? 0)%Z
        then option_map
               (fun old => firstn (space w) ([9; 9]%Z ++ old)%list)
               (file_contents w (place (cwd w) "Artist/Title.mp3"))
        else file_contents w (place (cwd w) "Artist/Title.mp3"))
  /\ lookup w' "/tmp/fileA" = None
  /\ (forall e, e <> place (cwd w) "/tmp/fileA" ->
                e <> place (cwd w) "Artist/Title.mp3" ->
                file_contents w' e = file_contents w e)
  /\ dirs w' = dirs w.
Proof.
  intros w w'.
  refine (X20_tag_is_prepended_or_file_is_kept (block_buffered 4096)
            "Artist/Title.mp3" 2 [9; 9]%Z "/tmp/fileA" true true true true
            w 0%Z w' _ eq_refl).
  vm_compute. discriminate.
Defined.

(** X21.  [BarFlyID3WriteFile] returns 0, and the audio file holds the
    rendered tag followed by its former bytes, whatever the C library does
    with its buffers, when the buffer is allocated and the two streams
    are opened, the audio file is a regular file, the temporary name is
    that of no directory and lies in an existing directory, the device has
    space for the rendered tag and the bytes of the audio file, and the
    temporary file may be renamed to the audio file. *)
Theorem X21_tag_is_written_when_there_is_space :
  forall (libc : stdio) (file_path : string) (rendered : list Z)
         (tmp_file_path : string) (w : world) (a t : entry) (old : list Z),
    resolve true w file_path = inr a ->
    file_contents w a = Some old ->
    is_dir w a = false ->
    resolve true w tmp_file_path = inr t ->
    is_dir w t = false ->
    is_file w t || proper (last_component tmp_file_path) = true ->
    t <> a ->
    List.length rendered + List.length old <= space w ->
    exists w',
      BarFlyID3WriteFile libc file_path (List.length rendered) rendered
        (Some tmp_file_path) true true true true w = Some (0%Z, w')
      /\ file_contents w' a = Some (rendered ++ old)%list
      /\ lookup w' tmp_file_path = None.
Proof.
  intros libc path rendered tmp w a t old Era Hold Hda Ert Hdt Hnew Hne Hroom.
  assert (Hfa : is_file w a = true)
    by (apply FlyFacts.file_contents_present; eauto).
  assert (Hb : bytes_at w a = old) by (unfold bytes_at; now rewrite Hold).
  unfold BarFlyID3WriteFile, fopen_read. cbn [negb].
  rewrite Nat.eqb_refl, Era, Hfa. cbn [negb orb andb].
  destruct (fopen_truncate tmp true w) as [[f w1]|] eqn:Eo.
  2:{ exfalso. unfold fopen_truncate in Eo. rewrite Ert, Hdt in Eo.
      destruct (is_file w t); cbn [negb andb orb] in Eo, Hnew;
        [discriminate|]. rewrite Hnew in Eo. discriminate. }
  destruct (fopen_truncate_copying _ _ _ _ _ Eo) as (t' & Ert' & Hcopy1).
  assert (t' = t) by congruence. subst t'.
  destruct (fwrite_copying libc w t f [] rendered w1 Hcopy1)
    as (k & w2 & Ew & Hscr2 & Hacc2 & Hall2).
  rewrite Ew.
  assert (Hk : k = List.length rendered) by (apply Hall2; cbn; lia).
  specialize (Hacc2 Hk). cbn [app] in Hacc2.
  rewrite Hk, Nat.eqb_refl. cbn [negb].
  assert (Hat : a <> t) by congruence.
  destruct (copy_blocks_succeeds libc w t a f rendered
              (S (List.length (bytes_at w2 a))) Hat Hfa) with (pos := 0)
                                                              (w := w2)
    as [w3 Ecp].
  { rewrite Hb. exact Hroom. }
  { cbn [firstn]. now rewrite app_nil_r. }
  { destruct Hacc2 as (_ & Hfr & _). unfold bytes_at at 2.
    rewrite Hfr by assumption. fold (bytes_at w a). cbn [skipn]. lia. }
  rewrite Ecp.
  destruct (copy_blocks_copying libc w t a f rendered
              (S (List.length (bytes_at w2 a))) Hat 0 w2 true w3)
    as [_ Hall3]; [cbn [firstn]; now rewrite app_nil_r | exact Ecp |].
  destruct (Hall3 eq_refl) as [_ Hcopy3]. rewrite Hb in Hcopy3.
  destruct (fclose_copying w t f _ w3 Hcopy3)
    as (st4 & w4 & Ec & Ht4 & Hfr4 & Hd4 & Hc4).
  rewrite Ec.
  destruct (rename_cases tmp path true w4 t a) as
    (w5 & Ern & Ha5 & Ht5 & Hfr5 & Hd5 & Hc5);
    [now apply (resolve_frame true w) | now apply (resolve_frame true w)
    | assumption |].
  rewrite Ern.
  assert (H1 : is_file w4 t = true)
    by (apply FlyFacts.file_contents_present; eauto).
  assert (H2 : is_dir w4 a = false)
    by (unfold is_dir in *; now rewrite Hd4).
  assert (H3 : is_file w4 a = true).
  { apply FlyFacts.file_contents_present. exists old.
    now rewrite Hfr4. }
  rewrite H1, H2, H3. cbn [negb andb orb].
  exists w5. split; [reflexivity|]. split.
  - rewrite Ha5, Ht4. f_equal. apply firstn_all2.
    rewrite length_app. lia.
  - unfold lookup.
    rewrite (resolve_frame true w w5 tmp t) by congruence.
    now rewrite Ht5.
Qed.

(** The theorem on the recording of [tagging_world] and a tag of two
    bytes. *)
Lemma X21_tag_is_written_witness :
  exists w',
    BarFlyID3WriteFile (block_buffered 4096) "Artist/Title.mp3" 2 [9; 9]%Z
      (Some "/tmp/fileA") true true true true tagging_world = Some (0%Z, w')
    /\ file_contents w' ["music"; "Artist"; "Title.mp3"]
       = Some [9; 9; 1; 2; 3]%Z
    /\ lookup w' "/tmp/fileA" = None.
Proof.
  refine (X21_tag_is_written_when_there_is_space (block_buffered 4096)
            "Artist/Title.mp3" [9; 9]%Z "/tmp/fileA" tagging_world
            ["music"; "Artist"; "Title.mp3"] ["tmp"; "fileA"] [1; 2; 3]%Z
            eq_refl eq_refl eq_refl eq_refl eq_refl eq_refl _ _).
  - discriminate.
  - cbn. lia.
Defined.

End Id3FileFacts.
